(** * RasterIO: windowed raster access with deferred writes

    A shallow embedding of [RasterIO_Arc10.6.py] (classes [RasterIO],
    [RasterIOlight] and [RasterIOfull], and the tile worker run as
    [__main__]), with the properties of its specification stated and settled
    against it, and further properties of the code.

    Conventions of the embedding.
    - Cell indices, sizes and cell values are Python integers: [Z].
      Python 2 [/] on integers is floor division: [Z.div].
    - Map coordinates, extents and cell sizes are Python floats; they are
      idealised as exact rationals [Q], compared with [Qeq].
    - [self.dict] is a dictionary of dictionaries: [gmap Z (gmap Z Z)].
    - The file system that arcpy reads and writes is an explicit [World];
      methods run in a state-and-exception monad, so that what is left
      behind when an exception propagates stays visible. *)

From Stdlib Require Import ZArith QArith Qround Lia Lqa.
From stdpp Require Import base option list gmap strings pretty.

Open Scope Z_scope.

(** ** Rasters as arcpy presents them *)

Record Extent := mkExtent { XMin : Q; YMin : Q; XMax : Q; YMax : Q }.

Inductive PixelType :=
  U1 | U2 | U4 | U8 | S8 | U16 | S16 | U32 | S32 | F32 | F64.

(** [self.dtype]: one of the Python types [bool], [int], [float]. *)
Inductive Dtype := py_bool | py_int | py_float.

Definition dtype_name (d : Dtype) : string :=
  match d with py_bool => "bool" | py_int => "int" | py_float => "float" end.

(** An [arcpy.Raster] object: the properties the program reads, and the cell
    values, row 0 being the top row.  A cell holding [noDataValue] is a
    NoData cell. *)
Record Raster := mkRaster {
  catalogPath : string;
  width : Z;
  height : Z;
  extent : Extent;
  meanCellWidth : Q;
  meanCellHeight : Q;
  noDataValue : Z;
  pixelType : PixelType;
  cells : Z → Z → Z
}.

(** A two-dimensional numpy array: [shape] is (rows, columns). *)
Record ndarray := mkArray {
  shape : Z * Z;
  adtype : PixelType;
  item : Z → Z → Z
}.

(** Python index normalisation for one axis of length [n]: negative indices
    count from the end, anything else out of range is an IndexError. *)
Definition py_index (i n : Z) : option Z :=
  if (0 <=? i) && (i <? n) then Some i
  else if (- n <=? i) && (i <? 0) then Some (i + n)
  else None.

Definition ndarray_get (a : ndarray) (i j : Z) : option Z :=
  match py_index i (fst (shape a)), py_index j (snd (shape a)) with
  | Some i', Some j' => Some (item a i' j')
  | _, _ => None
  end.

Definition ndarray_set (a : ndarray) (i j v : Z) : option ndarray :=
  match py_index i (fst (shape a)), py_index j (snd (shape a)) with
  | Some i', Some j' =>
      Some (mkArray (shape a) (adtype a)
              (λ r c, if (r =? i') && (c =? j') then v else item a r c))
  | _, _ => None
  end.

(** [numpy.empty(shape, dtype)] followed by [fill(value)]. *)
Definition numpy_full (nrows ncols : Z) (pt : PixelType) (v : Z) : ndarray :=
  mkArray (nrows, ncols) pt (λ _ _, v).

(** ** Exceptions and the state monad *)

Inductive exn :=
  | AttributeError
  | IndexError
  | NameError
  | ValueError
  | IOError
  | OSError
  | RuntimeError
  | ExecuteError
  | CalledProcessError
  | Exception (msg : string).

Inductive outcome (A : Type) :=
  | Return (a : A)
  | Raise (e : exn).
Arguments Return {A} a.
Arguments Raise {A} e.

Definition M (S A : Type) : Type := S → S * outcome A.

Definition ret {S A} (a : A) : M S A := λ s, (s, Return a).
Definition raise {S A} (e : exn) : M S A := λ s, (s, Raise e).
Definition bind {S A B} (m : M S A) (k : A → M S B) : M S B :=
  λ s, match m s with
       | (s', Return a) => k a s'
       | (s', Raise e) => (s', Raise e)
       end.
Definition get_state {S} : M S S := λ s, (s, Return s).
Definition modify {S} (f : S → S) : M S unit := λ s, (f s, Return tt).

Notation "'do' x <- m ; k" := (bind m (λ x, k))
  (at level 10, x name, m at level 100, k at level 200).
Notation "'do_' m ; k" := (bind m (λ _, k))
  (at level 10, m at level 100, k at level 200).

(** A Python [for] loop over a list: the body runs for each element in
    order, and an exception ends the loop. *)
Fixpoint for_each {S A} (l : list A) (body : A → M S unit) : M S unit :=
  match l with
  | [] => ret tt
  | a :: l' => do_ body a; for_each l' body
  end.

(** [range(0, stop, step)] for a positive step: 0, step, 2*step, ... below
    [stop]; there are ceil(stop/step) of them.  (Python raises for a zero
    step; the class constant [blocksize] is positive.) *)
Definition py_range (stop step : Z) : list Z :=
  if 0 <? step
  then (λ i, Z.of_nat i * step) <$> seq 0 (Z.to_nat ((stop + step - 1) / step))
  else [].

(** ** The facade [RasterIO]: descriptor match and grid addressing *)

(** Python 2 [round(x, ndigits)]: to the nearest multiple of 10^-ndigits,
    ties away from zero. *)
Definition round_half_away (q : Q) : Z :=
  if Qle_bool 0 q then Qfloor (q + (1 # 2)) else Qceiling (q - (1 # 2)).

Definition py_round (x : Q) (ndigits : nat) : Q :=
  let scale := inject_Z (10 ^ Z.of_nat ndigits) in
  inject_Z (round_half_away (x * scale)) / scale.

Definition Qneq_bool (a b : Q) : bool := negb (Qeq_bool a b).

(** ** The world outside the process *)

(** The geoprocessing tools the program calls. *)
Inductive GPTool :=
  | Delete_management
  | MosaicToNewRaster_management
  | Copy_management
  | DefineProjection_management.

(** What the program cannot control: where scratch files go, what
    [binascii.hexlify(os.urandom(6))] returns on successive calls, whether
    the worker process for the tile at cell (x, y) dies, and whether a
    geoprocessing tool reports an error. *)
Record Env := mkEnv {
  scratchWorkspace : string;
  urandom_hex : nat → string;
  worker_crash : Z → Z → bool;
  tool_error : GPTool → bool
}.

(** The persisted rasters by path, the pickle files by path, and how many
    random names have been drawn. *)
Record World := mkWorld {
  env : Env;
  rasters : gmap string Raster;
  pickles : gmap string (gmap Z (gmap Z Z));
  drawn : nat
}.

Definition with_rasters (w : World) (f : gmap string Raster) : World :=
  mkWorld (env w) f (pickles w) (drawn w).
Definition with_pickles (w : World) (p : gmap string (gmap Z (gmap Z Z))) : World :=
  mkWorld (env w) (rasters w) p (drawn w).

(** [binascii.hexlify(os.urandom(6))] *)
Definition random_name : M World string :=
  λ w, (mkWorld (env w) (rasters w) (pickles w) (S (drawn w)),
        Return (urandom_hex (env w) (drawn w))).

Definition scratch_path (name : string) : M World string :=
  λ w, (w, Return (scratchWorkspace (env w) +:+ "\" +:+ name)).

(** [pickle.dump] to a new file, [pickle.load], [os.remove]. *)
Definition pickle_dump (path : string) (d : gmap Z (gmap Z Z)) : M World unit :=
  modify (λ w, with_pickles w (<[path := d]> (pickles w))).

Definition pickle_load (path : string) : M World (gmap Z (gmap Z Z)) :=
  λ w, match pickles w !! path with
       | Some d => (w, Return d)
       | None => (w, Raise IOError)
       end.

Definition os_remove (path : string) : M World unit :=
  λ w, match pickles w !! path with
       | Some _ => (with_pickles w (delete path (pickles w)), Return tt)
       | None => (w, Raise OSError)
       end.

(** [arcpy.Raster(path)]: opens a persisted raster. *)
Definition arcpy_Raster (path : string) : M World Raster :=
  λ w, match rasters w !! path with
       | Some r => (w, Return r)
       | None => (w, Raise RuntimeError)
       end.

Definition arcpy_Exists (path : string) : M World bool :=
  λ w, (w, Return (bool_decide (is_Some (rasters w !! path)))).

Definition run_tool (t : GPTool) (effect : World → World) : M World unit :=
  λ w, if tool_error (env w) t then (w, Raise ExecuteError)
       else (effect w, Return tt).

Definition arcpy_Delete (path : string) : M World unit :=
  run_tool Delete_management (λ w, with_rasters w (delete path (rasters w))).

Definition set_path (r : Raster) (path : string) : Raster :=
  mkRaster path (width r) (height r) (extent r) (meanCellWidth r)
    (meanCellHeight r) (noDataValue r) (pixelType r) (cells r).

(** [raster.save(path)] *)
Definition raster_save (r : Raster) (path : string) : M World unit :=
  modify (λ w, with_rasters w (<[path := set_path r path]> (rasters w))).

(** ** Conversions between rasters and arrays *)

(** The nearest integer. *)
Definition nearest (q : Q) : Z := Qfloor (q + (1 # 2)).

(** Python [max(a, b)] and [min([a, b])] on floats. *)
Definition py_max (a b : Q) : Q := if Qle_bool b a then a else b.

Definition inside (r : Raster) (row col : Z) : bool :=
  (0 <=? row) && (row <? height r) && (0 <=? col) && (col <? width r).

(** [arcpy.RasterToNumPyArray(in_raster, lower_left_corner, ncols, nrows,
    nodata_to_value)]: the window of [ncols] by [nrows] cells whose
    lower-left corner is the given point, NoData cells (and cells outside
    the raster) becoming [nodata_to_value]. *)
Definition RasterToNumPyArray (ra : Raster) (llx lly : Q) (ncols nrows : Z)
    (nodata_to_value : Z) : ndarray :=
  let col0 := nearest ((llx - XMin (extent ra)) / meanCellWidth ra) in
  let below := nearest ((lly - YMin (extent ra)) / meanCellHeight ra) in
  let row0 := height ra - below - nrows in
  mkArray (nrows, ncols) (pixelType ra)
    (λ i j, if inside ra (row0 + i) (col0 + j)
            then let v := cells ra (row0 + i) (col0 + j) in
                 if v =? noDataValue ra then nodata_to_value else v
            else nodata_to_value).

(** [arcpy.NumPyArrayToRaster(in_array, lower_left_corner, x_cell_size,
    y_cell_size, value_to_nodata)]: an unsaved raster. *)
Definition NumPyArrayToRaster (a : ndarray) (llx lly : Q) (cw ch : Q)
    (value_to_nodata : Z) : Raster :=
  let '(nrows, ncols) := shape a in
  mkRaster "" ncols nrows
    (mkExtent llx lly (llx + inject_Z ncols * cw) (lly + inject_Z nrows * ch))
    cw ch value_to_nodata (adtype a) (item a).

(** The bounding box of two extents. *)
Definition py_min (a b : Q) : Q := if Qle_bool a b then a else b.

Definition extent_union (e1 e2 : Extent) : Extent :=
  mkExtent (py_min (XMin e1) (XMin e2)) (py_min (YMin e1) (YMin e2))
           (py_max (XMax e1) (XMax e2)) (py_max (YMax e1) (YMax e2)).

(** Where an input raster sits in a mosaic whose extent is [e]: the cell
    offsets of its upper-left corner. *)
Definition mosaic_col0 (e : Extent) (t : Raster) : Z :=
  nearest ((XMin (extent t) - XMin e) / meanCellWidth t).
Definition mosaic_row0 (e : Extent) (t : Raster) : Z :=
  nearest ((YMax e - YMax (extent t)) / meanCellHeight t).

Definition mosaic_covers (e : Extent) (t : Raster) (row col : Z) : bool :=
  inside t (row - mosaic_row0 e t) (col - mosaic_col0 e t).

(** The mosaic of a non-empty list of rasters: its extent is the bounding
    box of the inputs, its cell size that of the first input, and each cell
    comes from the last input that covers it (NoData where none does). *)
Definition mosaic_of (first : Raster) (others : list Raster)
    (pt : PixelType) : Raster :=
  let inputs := first :: others in
  let e := foldl (λ e t, extent_union e (extent t)) (extent first) others in
  mkRaster ""
    (nearest ((XMax e - XMin e) / meanCellWidth first))
    (nearest ((YMax e - YMin e) / meanCellHeight first))
    e (meanCellWidth first) (meanCellHeight first) (noDataValue first) pt
    (λ row col,
       match find (λ t, mosaic_covers e t row col) (rev inputs) with
       | Some t => cells t (row - mosaic_row0 e t) (col - mosaic_col0 e t)
       | None => noDataValue first
       end).

(** Opens each path in turn; a missing input is an error of the tool. *)
Fixpoint open_all (paths : list string) : M World (list Raster) :=
  match paths with
  | [] => ret []
  | p :: ps =>
      λ w, match rasters w !! p with
           | Some r => (do rs <- open_all ps; ret (r :: rs)) w
           | None => (w, Raise ExecuteError)
           end
  end.

(** [arcpy.MosaicToNewRaster_management(inputs, dir, name, pixel_type,
    number_of_bands=1)] *)
Definition arcpy_MosaicToNewRaster (inputs : list string) (out : string)
    (pt : PixelType) : M World unit :=
  do rs <- open_all inputs;
  match rs with
  | [] => raise ExecuteError
  | first :: others =>
      λ w, if tool_error (env w) MosaicToNewRaster_management
           then (w, Raise ExecuteError)
           else raster_save (mosaic_of first others pt) out w
  end.

(** [arcpy.Copy_management(src, dst)] *)
Definition arcpy_Copy (src dst : string) : M World unit :=
  λ w, match rasters w !! src with
       | Some r =>
           if tool_error (env w) Copy_management then (w, Raise ExecuteError)
           else raster_save r dst w
       | None => (w, Raise ExecuteError)
       end.

(** ** The class [RasterIOfull] *)

(** [blocksize = 4096], a class attribute (to be changed with the memory
    available); every instance carries it. *)
Definition default_blocksize : Z := 4096.

Record RasterIOfull := mkRasterIO {
  rasterlike : Raster;
  raster : option Raster;
  nodata : Z;
  fileout : string;
  dtype : Dtype;
  block : option ndarray;
  xblock : Z;
  yblock : Z;
  dict : gmap Z (gmap Z Z);
  dictsize : Z;
  blocksize : Z
}.

Definition dtype_of_pixelType (pt : PixelType) : Dtype :=
  match pt with
  | U1 => py_bool
  | F32 | F64 => py_float
  | _ => py_int
  end.

(** [__init__(self, raster, fileout, dtype, default)] for the class whose
    [blocksize] is [bs]. *)
Definition init (bs : Z) (ra : Raster) (out : option string) (dt : Dtype)
    (default : Z) : RasterIOfull :=
  match out with
  | Some f => mkRasterIO ra None default f dt None 0 0 ∅ 0 bs
  | None =>
      mkRasterIO ra (Some ra) (noDataValue ra) (catalogPath ra)
        (dtype_of_pixelType (pixelType ra)) None 0 0 ∅ 0 bs
  end.

Definition set_window (s : RasterIOfull) (b : ndarray) (xb yb : Z) : RasterIOfull :=
  mkRasterIO (rasterlike s) (raster s) (nodata s) (fileout s) (dtype s)
    (Some b) xb yb (dict s) (dictsize s) (blocksize s).

Definition set_dict (s : RasterIOfull) (d : gmap Z (gmap Z Z)) (n : Z) : RasterIOfull :=
  mkRasterIO (rasterlike s) (raster s) (nodata s) (fileout s) (dtype s)
    (block s) (xblock s) (yblock s) d n (blocksize s).

Definition set_raster (s : RasterIOfull) (ra : Raster) (dt : Dtype) : RasterIOfull :=
  mkRasterIO (rasterlike s) (Some ra) (nodata s) (fileout s) dt
    (block s) (xblock s) (yblock s) (dict s) (dictsize s) (blocksize s).

(** The object and the world it lives in. *)
Record Heap := mkHeap { self : RasterIOfull; world : World }.

Definition in_world {A} (m : M World A) : M Heap A :=
  λ h, let '(w', o) := m (world h) in (mkHeap (self h) w', o).

Definition read_self : M Heap RasterIOfull := λ h, (h, Return (self h)).

Definition update_self (f : RasterIOfull → RasterIOfull) : M Heap unit :=
  modify (λ h, mkHeap (f (self h)) (world h)).

(** The window a read at (row, col) loads: its upper-left cell, its
    lower-left corner in map units, and its contents. *)
Definition load_block (s : RasterIOfull) (ra : Raster) (row col : Z) : RasterIOfull :=
  let xb := Z.max 0 (col - blocksize s / 2) in
  let yb := Z.max 0 (row - blocksize s / 2) in
  let mx := (XMin (extent ra) + inject_Z xb * meanCellWidth ra)%Q in
  let my := py_max (YMin (extent ra))
              (YMax (extent ra) - inject_Z (blocksize s + yb) * meanCellHeight ra)%Q in
  let lx := Z.min (xb + blocksize s) (width ra) in
  let ly := Z.min (yb + blocksize s) (height ra) in
  set_window s (RasterToNumPyArray ra mx my (lx - xb) (ly - yb) (nodata s)) xb yb.

Definition outside_block (s : RasterIOfull) (row col : Z) : bool :=
  match block s with
  | None => true
  | Some _ =>
      (col <? xblock s) || (xblock s + blocksize s <=? col)
      || (row <? yblock s) || (yblock s + blocksize s <=? row)
  end.

Definition getValue (row col : Z) : M Heap Z :=
  do s <- read_self;
  if (row <? 0) || (col <? 0) || (height (rasterlike s) <=? row)
     || (width (rasterlike s) <=? col)
  then ret (nodata s)
  else
    match dict s !! row ≫= (λ m, m !! col) with
    | Some v => ret v
    | None =>
        match raster s with
        | None => ret (nodata s)
        | Some ra =>
            do_ (if outside_block s row col
                 then update_self (λ s, load_block s ra row col)
                 else ret tt);
            do s <- read_self;
            match block s ≫= (λ b, ndarray_get b (row - yblock s) (col - xblock s)) with
            | None => raise IndexError
            | Some value =>
                if value =? noDataValue ra then ret (nodata s) else ret value
            end
        end
    end.

(** The first part of [setValue]: the write into the overlay and the
    count of its entries. *)
Definition store (s : RasterIOfull) (row col value : Z) : RasterIOfull :=
  let d :=
    match dict s !! row with
    | None => <[row := ∅]> (dict s)
    | Some _ => dict s
    end in
  let cols := default ∅ (d !! row) in
  let n :=
    match cols !! col with
    | None => dictsize s + 1
    | Some _ => dictsize s
    end in
  set_dict s (<[row := <[col := value]> cols]> d) n.

(** ** The tile worker ([__main__]) *)

(** The parsed command line of the worker. *)
Record Args := mkArgs {
  arg_rasterlike : string;
  arg_x : Z;
  arg_y : Z;
  arg_blocksize : Z;
  arg_blockname : string;
  arg_nodata : Z;
  arg_dtypename : string;
  arg_pickledict : string;
  arg_raster : option string
}.

Definition write_cell (i j v : Z) : M ndarray unit :=
  λ a, match ndarray_set a i j v with
       | Some a' => (a', Return tt)
       | None => (a, Raise IndexError)
       end.

(** The two nested loops over the unpickled dictionary. *)
Definition merge_overlay (d : gmap Z (gmap Z Z)) (x y lx ly : Z) : M ndarray unit :=
  for_each (map_to_list d) (λ rc,
    if (fst rc <? ly) && (y <=? fst rc)
    then for_each (map_to_list (snd rc)) (λ cv,
           if (fst cv <? lx) && (x <=? fst cv)
           then write_cell (fst rc - y) (fst cv - x) (snd cv)
           else ret tt)
    else ret tt).

Definition main (args : Args) : M World unit :=
  do rasterlike <- arcpy_Raster (arg_rasterlike args);
  do raster <- match arg_raster args with
               | Some p => do r <- arcpy_Raster p; ret (Some r)
               | None => ret None
               end;
  let filetemp := arg_blockname args in
  let mx := (XMin (extent rasterlike)
             + inject_Z (arg_x args) * meanCellWidth rasterlike)%Q in
  let my := py_max (YMin (extent rasterlike))
              (YMax (extent rasterlike)
               - inject_Z (arg_blocksize args + arg_y args)
                 * meanCellHeight rasterlike)%Q in
  let lx := Z.min (arg_x args + arg_blocksize args) (width rasterlike) in
  let ly := Z.min (arg_y args + arg_blocksize args) (height rasterlike) in
  do myData <-
    match raster with
    | Some ra =>
        ret (RasterToNumPyArray ra mx my (lx - arg_x args) (ly - arg_y args)
               (arg_nodata args))
    | None =>
        do dtype <-
          (if String.eqb (arg_dtypename args) "int" then ret S32
           else if String.eqb (arg_dtypename args) "float" then ret F64
           else raise NameError);
        if (ly - arg_y args <? 0) || (lx - arg_x args <? 0)
        then raise ValueError
        else ret (numpy_full (ly - arg_y args) (lx - arg_x args) dtype
                    (arg_nodata args))
    end;
  do dict <- pickle_load (arg_pickledict args);
  match merge_overlay dict (arg_x args) (arg_y args) lx ly myData with
  | (_, Raise e) => raise e
  | (myData, Return _) =>
      let myRasterBlock :=
        NumPyArrayToRaster myData mx my (meanCellWidth rasterlike)
          (meanCellHeight rasterlike) (arg_nodata args) in
      raster_save myRasterBlock filetemp
  end.

(** [subprocess.check_call(startcmd, ...)]: runs the worker to its end and
    raises if it did not exit normally. *)
Definition check_call (startcmd : Args) : M World unit :=
  λ w, if worker_crash (env w) (arg_x startcmd) (arg_y startcmd)
       then (w, Raise CalledProcessError)
       else match main startcmd w with
            | (w', Return _) => (w', Return tt)
            | (w', Raise _) => (w', Raise CalledProcessError)
            end.

(** ** [save] and [setValue] *)

(** A [for] loop that updates a local variable. *)
Fixpoint for_acc {S A B} (l : list A) (acc : B) (body : A → B → M S B) : M S B :=
  match l with
  | [] => ret acc
  | a :: l' => do acc' <- body a acc; for_acc l' acc' body
  end.

Definition rastertype (pt : PixelType) : string :=
  match pt with
  | U1 => "1_BIT" | U2 => "2_BIT" | U4 => "4_BIT"
  | U8 => "8_BIT_UNSIGNED" | S8 => "8_BIT_SIGNED"
  | U16 => "16_BIT_UNSIGNED" | S16 => "16_BIT_SIGNED"
  | U32 => "32_BIT_UNSIGNED" | S32 => "32_BIT_SIGNED"
  | F32 => "32_BIT_FLOAT" | F64 => "64_BIT_FLOAT"
  end.

(** The labels the mosaic tool accepts for its [pixel_type] argument. *)
Definition pixel_of_label (l : string) : option PixelType :=
  find (λ pt, String.eqb (rastertype pt) l)
    [U1; U2; U4; U8; S8; U16; S16; U32; S32; F32; F64].

Definition mosaic_tool (inputs : list string) (out label : string) : M World unit :=
  match pixel_of_label label with
  | Some pt => arcpy_MosaicToNewRaster inputs out pt
  | None => raise ExecuteError
  end.

(** The body of the two loops of [save] for the tile at (x, y). *)
Definition save_tile (s : RasterIOfull) (picklefilename : string) (x y : Z)
    (filelist : list string) : M World (list string) :=
  do randomname <- random_name;
  do filetemp <- scratch_path randomname;
  let startcmd :=
    mkArgs (catalogPath (rasterlike s)) x y (blocksize s) filetemp (nodata s)
      (dtype_name (dtype s)) picklefilename (catalogPath <$> raster s) in
  do_ check_call startcmd;
  ret (filelist ++ [filetemp]).

Definition save_tiles (s : RasterIOfull) (picklefilename : string) : M World (list string) :=
  for_acc (py_range (width (rasterlike s)) (blocksize s)) [] (λ x filelist,
    for_acc (py_range (height (rasterlike s)) (blocksize s)) filelist (λ y filelist,
      save_tile s picklefilename x y filelist)).

(** The mosaic step proper: the tiles become the output file. *)
Definition assemble (filelist : list string) (out : string) : M World unit :=
  if 1 <? Z.of_nat (length filelist)
  then
    match filelist with
    | [] => raise IndexError
    | f0 :: _ =>
        do first <- arcpy_Raster f0;
        mosaic_tool filelist out (rastertype (pixelType first))
    end
  else
    match filelist with
    | [] => raise IndexError
    | f0 :: _ => arcpy_Copy f0 out
    end.

Definition remove_temporaries (filelist : list string) : M World unit :=
  for_each filelist (λ fileitem,
    do found <- arcpy_Exists fileitem;
    if found then arcpy_Delete fileitem else ret tt).

Definition save : M Heap unit :=
  do s <- read_self;
  do randomname <- in_world random_name;
  do picklefilename <- in_world (scratch_path (randomname +:+ ".pkl"));
  do_ in_world (pickle_dump picklefilename (dict s));
  do filelist <- in_world (save_tiles s picklefilename);
  do_ in_world (os_remove picklefilename);
  do found <- in_world (arcpy_Exists (fileout s));
  do_ (if found then in_world (arcpy_Delete (fileout s)) else ret tt);
  do_ in_world (assemble filelist (fileout s));
  do_ in_world (remove_temporaries filelist);
  do ra <- in_world (arcpy_Raster (fileout s));
  do_ update_self (λ s, set_raster s ra (dtype_of_pixelType (pixelType ra)));
  in_world (run_tool DefineProjection_management id).

Definition setValue (row col value : Z) : M Heap unit :=
  do_ update_self (λ s, store s row col value);
  do s <- read_self;
  if blocksize s * blocksize s / 2 <? dictsize s
  then do_ save; update_self (λ s, set_dict s ∅ 0)
  else ret tt.

(** ** The facade [RasterIO] *)

(** The facade forwards every attribute it does not define to its manager,
    so [self.raster] and [self.rasterlike] below are the manager's. *)

Definition checkMatch (this other_rasterIO : RasterIOfull) : outcome unit :=
  match raster this, raster other_rasterIO with
  | Some a, Some b =>
      if Qneq_bool (py_round (XMin (extent a)) 3) (py_round (XMin (extent b)) 3)
         || Qneq_bool (py_round (YMin (extent a)) 3) (py_round (YMin (extent b)) 3)
         || Qneq_bool (py_round (XMax (extent a)) 3) (py_round (XMax (extent b)) 3)
         || Qneq_bool (py_round (YMax (extent a)) 3) (py_round (YMax (extent b)) 3)
         || negb (height a =? height b)
         || negb (width a =? width b)
      then Raise (Exception "Input rasters must have same size and resolution")
      else Return tt
  | _, _ => Raise AttributeError
  end.

(** The conversions divide by the cell size; the properties below are for
    positive cell sizes. *)
Definition XtoCol (s : RasterIOfull) (X : Q) : Z :=
  Qfloor ((X - XMin (extent (rasterlike s))) / meanCellWidth (rasterlike s)).

Definition YtoRow (s : RasterIOfull) (Y : Q) : Z :=
  height (rasterlike s)
  - Qfloor ((Y - YMin (extent (rasterlike s))) / meanCellHeight (rasterlike s))
  - 1.

Definition ColtoX (s : RasterIOfull) (col : Z) : Q :=
  XMin (extent (rasterlike s))
  + (inject_Z col + (1 # 2)) * meanCellWidth (rasterlike s).

Definition RowtoY (s : RasterIOfull) (row : Z) : Q :=
  YMax (extent (rasterlike s))
  - (inject_Z row + (1 # 2)) * meanCellHeight (rasterlike s).

(** ** Notions used to state the properties *)

(** The number of thousandths [round(x, 3)] stands for. *)
Definition thousandths (x : Q) : Z := round_half_away (x * inject_Z 1000).

(** Two rasters differ in size or in an extent bound rounded to three
    decimal places. *)
Definition descriptors_differ (a b : Raster) : Prop :=
  width a ≠ width b ∨ height a ≠ height b
  ∨ thousandths (XMin (extent a)) ≠ thousandths (XMin (extent b))
  ∨ thousandths (YMin (extent a)) ≠ thousandths (YMin (extent b))
  ∨ thousandths (XMax (extent a)) ≠ thousandths (XMax (extent b))
  ∨ thousandths (YMax (extent a)) ≠ thousandths (YMax (extent b)).

Definition DescriptorMismatch : exn :=
  Exception "Input rasters must have same size and resolution".

(** The cell (row, col) lies outside the grid of the model raster. *)
Definition out_of_grid (s : RasterIOfull) (row col : Z) : Prop :=
  row < 0 ∨ col < 0 ∨ height (rasterlike s) <= row ∨ width (rasterlike s) <= col.

Definition in_grid (s : RasterIOfull) (row col : Z) : Prop :=
  0 <= row < height (rasterlike s) ∧ 0 <= col < width (rasterlike s).

(** The overlay entry for a cell, if any. *)
Definition overlay_lookup (d : gmap Z (gmap Z Z)) (row col : Z) : option Z :=
  d !! row ≫= (λ m, m !! col).

(** The number of (row, col) pairs stored in the overlay. *)
Definition overlay_count (d : gmap Z (gmap Z Z)) : nat :=
  map_fold (λ _ (m : gmap Z Z) acc, (size m + acc)%nat) 0%nat d.

Definition count_exact (s : RasterIOfull) : Prop :=
  dictsize s = Z.of_nat (overlay_count (dict s)).

(** A caller's use of one object: a sequence of calls, an exception raised
    by one of them being caught before the next. *)
Inductive call :=
  | call_getValue (row col : Z)
  | call_setValue (row col value : Z)
  | call_save.

Definition perform (c : call) : M Heap unit :=
  match c with
  | call_getValue row col => do_ getValue row col; ret tt
  | call_setValue row col value => setValue row col value
  | call_save => save
  end.

Definition run (calls : list call) (h : Heap) : Heap :=
  foldl (λ h c, fst (perform c h)) h calls.

(** Hoare triples for the state-and-exception monad. *)
Definition hoare {S A} (P : S → Prop) (m : M S A) (Q : S → outcome A → Prop) : Prop :=
  ∀ s, P s → Q (fst (m s)) (snd (m s)).

(** A computation keeps a property of the state, whatever its outcome. *)
Definition keeps {S A} (I : S → Prop) (m : M S A) : Prop :=
  hoare I m (λ s _, I s).

(** ** Example instances *)

Definition flat_raster (path : string) (w h v : Z) : Raster :=
  mkRaster path w h (mkExtent 0 0 (inject_Z w) (inject_Z h)) 1 1 (-9999) S32
    (λ _ _, v).

Definition quiet_env : Env :=
  mkEnv "C:\scratch" (λ n, pretty n) (λ _ _, false) (λ _, false).

Definition world_with (e : Env) (rs : list Raster) : World :=
  mkWorld e (list_to_map ((λ r, (catalogPath r, r)) <$> rs)) ∅ 0.

(** An instance opened on an existing 10 by 10 raster, after a read that
    loaded a window and a write to a cell outside the grid. *)
Definition stray_write_heap : Heap :=
  let dem := flat_raster "C:\dem" 10 10 3 in
  run [call_getValue 0 0; call_setValue 20 20 5]
    (mkHeap (init default_blocksize dem None py_int 0) (world_with quiet_env [dem])).

(** The threshold of the automatic flush. *)
Definition threshold (s : RasterIOfull) : Z := blocksize s * blocksize s / 2.

(** A run of writes, each given as ((row, col), value). *)
Definition write_all (writes : list (Z * Z * Z)) : M Heap unit :=
  for_each writes (λ w, setValue (fst (fst w)) (snd (fst w)) (snd w)).

(** A flush draws at least one random name, and nothing else does: the
    number of names drawn tells whether a flush took place. *)
Definition flushed (before after : Heap) : Prop :=
  (drawn (world before) < drawn (world after))%nat.

(** The path of the temporary tile named by the n-th random draw. *)
Definition temp_path (e : Env) (n : nat) : string :=
  scratchWorkspace e +:+ "\" +:+ urandom_hex e n.

(** The path of the pickle file named by the n-th random draw. *)
Definition pickle_path (e : Env) (n : nat) : string :=
  scratchWorkspace e +:+ "\" +:+ urandom_hex e n +:+ ".pkl".

Definition draw (w : World) : World :=
  mkWorld (env w) (rasters w) (pickles w) (S (drawn w)).

(** A computation raises only exceptions of a given kind. *)
Definition raises_only {S A} (E : exn → Prop) (m : M S A) : Prop :=
  ∀ s, match snd (m s) with Raise e => E e | Return _ => True end.

(** What [save] does once the loops over the tiles are over. *)
Definition save_finish (s : RasterIOfull) (picklefilename : string)
    (filelist : list string) : M Heap unit :=
  do_ in_world (os_remove picklefilename);
  do found <- in_world (arcpy_Exists (fileout s));
  do_ (if found then in_world (arcpy_Delete (fileout s)) else ret tt);
  do_ in_world (assemble filelist (fileout s));
  do_ in_world (remove_temporaries filelist);
  do ra <- in_world (arcpy_Raster (fileout s));
  do_ update_self (λ s, set_raster s ra (dtype_of_pixelType (pixelType ra)));
  in_world (run_tool DefineProjection_management id).

(** The world in which the workers of a [save] started in [w] run: one name
    drawn, the overlay [d] pickled under it. *)
Definition pickled (w : World) (d : gmap Z (gmap Z Z)) : World :=
  with_pickles (draw w) (<[pickle_path (env w) (drawn w) := d]> (pickles w)).

(** The worker of the tile at (x, y) is made to fail. *)
Definition some_worker_crashes (h : Heap) : Prop :=
  ∃ x y,
    x ∈ py_range (width (rasterlike (self h))) (blocksize (self h))
    ∧ y ∈ py_range (height (rasterlike (self h))) (blocksize (self h))
    ∧ worker_crash (env (world h)) x y = true.

(** No temporary tile can be given the path [f]. *)
Definition never_temporary (e : Env) (f : string) : Prop :=
  ∀ n, temp_path e n ≠ f.

(** A 10000 by 10000 output under construction, a previous output file
    being present, in an environment where the worker of the tile at
    column 4096, row 0 is made to fail. *)
Definition crash_heap : Heap :=
  let dem := flat_raster "C:\dem" 10000 10000 0 in
  let previous := flat_raster "C:\out" 10000 10000 1 in
  mkHeap (init default_blocksize dem (Some "C:\out") py_int (-255))
    (world_with
       (mkEnv "C:\scratch" (λ n, pretty n) (λ x y, (x =? 4096) && (y =? 0))
          (λ _, false))
       [dem; previous]).

(** The raster is georeferenced consistently: positive cell sizes, and an
    extent that is the grid's size in cells times the cell size. *)
Definition georef_ok (r : Raster) : Prop :=
  (0 < meanCellWidth r)%Q ∧ (0 < meanCellHeight r)%Q
  ∧ (XMax (extent r) == XMin (extent r) + inject_Z (width r) * meanCellWidth r)%Q
  ∧ (YMax (extent r) == YMin (extent r) + inject_Z (height r) * meanCellHeight r)%Q.

(** Two rasters cover the same area with the same resolution. *)
Definition same_grid (a b : Raster) : Prop :=
  width a = width b ∧ height a = height b
  ∧ (XMin (extent a) == XMin (extent b))%Q
  ∧ (YMin (extent a) == YMin (extent b))%Q
  ∧ (XMax (extent a) == XMax (extent b))%Q
  ∧ (YMax (extent a) == YMax (extent b))%Q
  ∧ (meanCellWidth a == meanCellWidth b)%Q
  ∧ (meanCellHeight a == meanCellHeight b)%Q.

(** The lower-left corner, in map units, of the block whose upper-left cell
    is (x, y): the [mx] and [my] of the worker and of [getValue]. *)
Definition corner_x (r : Raster) (x : Z) : Q :=
  XMin (extent r) + inject_Z x * meanCellWidth r.

Definition corner_y (r : Raster) (bs y : Z) : Q :=
  py_max (YMin (extent r))
    (YMax (extent r) - inject_Z (bs + y) * meanCellHeight r).

(** The value a flush starts from for the cell (row, col): that of the
    backing raster, its NoData cells read as [nd], or [nd] when there is
    no backing raster. *)
Definition base_value (backing : option Raster) (nd : Z) (row col : Z) : Z :=
  match backing with
  | Some ra =>
      if inside ra row col
      then if cells ra row col =? noDataValue ra then nd else cells ra row col
      else nd
  | None => nd
  end.

(** The array a worker starts from, and the raster it writes, when it finds
    the model raster [rlf], the backing raster [raf] and the dictionary [d]. *)
Definition base_array (rlf : Raster) (raf : option Raster) (args : Args) : ndarray :=
  let lx := Z.min (arg_x args + arg_blocksize args) (width rlf) in
  let ly := Z.min (arg_y args + arg_blocksize args) (height rlf) in
  match raf with
  | Some ra =>
      RasterToNumPyArray ra (corner_x rlf (arg_x args))
        (corner_y rlf (arg_blocksize args) (arg_y args))
        (lx - arg_x args) (ly - arg_y args) (arg_nodata args)
  | None =>
      numpy_full (ly - arg_y args) (lx - arg_x args)
        (if String.eqb (arg_dtypename args) "int" then S32 else F64)
        (arg_nodata args)
  end.

Definition worker_tile (rlf : Raster) (raf : option Raster)
    (d : gmap Z (gmap Z Z)) (args : Args) : Raster :=
  let lx := Z.min (arg_x args + arg_blocksize args) (width rlf) in
  let ly := Z.min (arg_y args + arg_blocksize args) (height rlf) in
  set_path
    (NumPyArrayToRaster
       (fst (merge_overlay d (arg_x args) (arg_y args) lx ly (base_array rlf raf args)))
       (corner_x rlf (arg_x args))
       (corner_y rlf (arg_blocksize args) (arg_y args))
       (meanCellWidth rlf) (meanCellHeight rlf) (arg_nodata args))
    (arg_blockname args).

(** The file a path option denotes in a world. *)
Definition opened (w : World) (p : option string) (r : option Raster) : Prop :=
  match p, r with
  | Some p, Some r => rasters w !! p = Some r
  | None, None => True
  | _, _ => False
  end.

(** The upper-left cells of the tiles, in the order of the two loops. *)
Definition tile_origins (s : RasterIOfull) : list (Z * Z) :=
  py_range (width (rasterlike s)) (blocksize s) ≫= λ x,
    (λ y, (x, y)) <$> py_range (height (rasterlike s)) (blocksize s).

(** The command line of the worker of a tile whose file is named by the
    n-th random draw. *)
Definition tile_args (s : RasterIOfull) (p : string) (e : Env) (n : nat)
    (xy : Z * Z) : Args :=
  mkArgs (catalogPath (rasterlike s)) (fst xy) (snd xy) (blocksize s)
    (temp_path e n) (nodata s) (dtype_name (dtype s)) p
    (catalogPath <$> raster s).

(** The world is ready for the workers of a flush: the pickle file holds
    [d], the model raster is the file [rlf], and the backing raster, if any,
    the file [raf]. *)
Definition ready_world (s : RasterIOfull) (p : string) (e : Env)
    (d : gmap Z (gmap Z Z)) (rlf : Raster) (raf : option Raster) (w : World) : Prop :=
  env w = e ∧ pickles w !! p = Some d
  ∧ rasters w !! catalogPath (rasterlike s) = Some rlf
  ∧ opened w (catalogPath <$> raster s) raf.

(** The tile at [xy] does not start beyond the grid. *)
Definition tile_fits (s : RasterIOfull) (rlf : Raster) (xy : Z * Z) : Prop :=
  fst xy <= Z.min (fst xy + blocksize s) (width rlf)
  ∧ snd xy <= Z.min (snd xy + blocksize s) (height rlf).

(** The raster [t] sits in the grid of [rl] with its upper-left cell at
    column [x], row [y]. *)
Definition placed (rl t : Raster) (x y : Z) : Prop :=
  (XMin (extent t) == XMin (extent rl) + inject_Z x * meanCellWidth rl)%Q
  ∧ (YMax (extent t) == YMax (extent rl) - inject_Z y * meanCellHeight rl)%Q
  ∧ (XMax (extent t)
     == XMin (extent rl) + inject_Z (x + width t) * meanCellWidth rl)%Q
  ∧ (YMin (extent t)
     == YMax (extent rl) - inject_Z (y + height t) * meanCellHeight rl)%Q
  ∧ (meanCellWidth t == meanCellWidth rl)%Q
  ∧ (meanCellHeight t == meanCellHeight rl)%Q
  ∧ 0 <= x ∧ 0 <= y ∧ 0 <= width t ∧ 0 <= height t
  ∧ x + width t <= width rl ∧ y + height t <= height rl.

(** The bounding box of a list of rasters, as the mosaic computes it. *)
Definition bounding_box (first : Raster) (others : list Raster) : Extent :=
  foldl (λ e t, extent_union e (extent t)) (extent first) others.

(** The raster the mosaic step makes of the tiles: the only tile, or the
    mosaic of all of them with the pixel type of the first. *)
Definition output_of (first : Raster) (others : list Raster) : Raster :=
  match others with
  | [] => first
  | _ :: _ => mosaic_of first others (pixelType first)
  end.

(** No worker is made to fail and no geoprocessing tool reports an error. *)
Definition no_faults (e : Env) : Prop :=
  (∀ x y, worker_crash e x y = false) ∧ (∀ t, tool_error e t = false).

(** The tiles of a flush with their upper-left cells, the file of the
    k-th tile being named by draw number [d0 + k]. *)
Definition flush_tiles (s : RasterIOfull) (p : string) (e : Env) (d0 : nat)
    (rlf : Raster) (raf : option Raster) : list (Z * Z * Raster) :=
  imap (λ k xy, (xy, worker_tile rlf raf (dict s) (tile_args s p e (d0 + k) xy)))
    (tile_origins s).

(** What a flush writes in the cell (row, col): the overlay entry if there
    is one, the value it starts from otherwise. *)
Definition flush_value (raf : option Raster) (s : RasterIOfull) (row col : Z) : Z :=
  default (base_value raf (nodata s) row col) (overlay_lookup (dict s) row col).

(** The instance and the world are fit for a flush: a positive block size
    and a non-empty grid; no fault of the environment; random names that do
    not repeat and never fall on the model raster, the backing raster or the
    output; the model raster on file as [rlf], consistently georeferenced and
    of the size the object knows; the backing raster, if any, on file as
    [raf], on the same grid; and, for an output without backing raster, a
    data type the worker knows. *)
Definition flush_ready (h : Heap) (rlf : Raster) (raf : option Raster) : Prop :=
  0 < blocksize (self h)
  ∧ 0 < width (rasterlike (self h)) ∧ 0 < height (rasterlike (self h))
  ∧ no_faults (env (world h))
  ∧ (∀ n m, temp_path (env (world h)) n = temp_path (env (world h)) m → n = m)
  ∧ never_temporary (env (world h)) (catalogPath (rasterlike (self h)))
  ∧ never_temporary (env (world h)) (fileout (self h))
  ∧ (∀ ra, raster (self h) = Some ra →
       never_temporary (env (world h)) (catalogPath ra))
  ∧ rasters (world h) !! catalogPath (rasterlike (self h)) = Some rlf
  ∧ georef_ok rlf
  ∧ width rlf = width (rasterlike (self h))
  ∧ height rlf = height (rasterlike (self h))
  ∧ opened (world h) (catalogPath <$> raster (self h)) raf
  ∧ (∀ ra, raf = Some ra → same_grid ra rlf)
  ∧ (raf = None → dtype (self h) = py_int ∨ dtype (self h) = py_float).

(** The scenario of the specification: a 10000 by 10000 output under
    construction from a model raster of cell size 1 whose lower-left corner
    is the origin, with blocks of 4096 cells, after writing 7 at (0, 0) and
    9 at (9999, 9999). *)
Definition scenario_start : Heap :=
  let dem := flat_raster "C:\dem" 10000 10000 0 in
  mkHeap (init default_blocksize dem (Some "C:\out") py_int (-255))
    (world_with quiet_env [dem]).

Definition scenario_heap : Heap :=
  run [call_setValue 0 0 7; call_setValue 9999 9999 9] scenario_start.

(** ceil(a / b) for a positive [b]. *)
Definition ceil_div (a b : Z) : Z := (a + b - 1) / b.

(** The scenario again, in an environment where the mosaic tool reports an
    error. *)
Definition mosaic_fault_heap : Heap :=
  let dem := flat_raster "C:\dem" 10000 10000 0 in
  run [call_setValue 0 0 7; call_setValue 9999 9999 9]
    (mkHeap (init default_blocksize dem (Some "C:\out") py_int (-255))
       (world_with
          (mkEnv "C:\scratch" (λ n, pretty n) (λ _ _, false)
             (λ t, match t with MosaicToNewRaster_management => true | _ => false end))
          [dem])).

(** An instance opened on an existing 4 by 4 raster of zeros, for a class
    whose [blocksize] is 2 (so that the third new entry flushes), after a
    read at (0, 0), which loads the window of rows 0-1 and columns 0-1, and
    two writes elsewhere. *)
Definition stale_heap : Heap :=
  let dem := flat_raster "C:\dem" 4 4 0 in
  run [call_getValue 0 0; call_setValue 1 1 1; call_setValue 2 2 1]
    (mkHeap (init 2 dem None py_int 0) (world_with quiet_env [dem])).

(** ** The class [RasterIOlight] *)

(** The pixel type of an array made by numpy for a Python type. *)
Definition numpy_dtype (dt : Dtype) : PixelType :=
  match dt with py_bool => U1 | py_int => S32 | py_float => F64 end.

(** The manager that keeps the whole grid in one array.  Its methods bear
    the names of those of [RasterIOfull]; they live in a module of the name
    of the class. *)
Module RasterIOlight.

(** [fileout] and [dtype] are attributes only of an instance created for a
    new output: the other branch of [__init__] does not set them. *)
Record t := mk {
  rasterlike : Raster;
  raster : option Raster;
  nodata : Z;
  fileout : option string;
  dtype : option Dtype;
  block : ndarray
}.

(** [__init__(self, raster, fileout, dtype, default)].  [numpy.full]
    refuses a negative dimension; [arcpy.RasterToNumPyArray(raster)] reads
    the whole raster from its lower-left corner and leaves the NoData cells
    at the NoData value of the raster. *)
Definition init (ra : Raster) (out : option string) (dt : Dtype)
    (default : Z) : outcome t :=
  match out with
  | Some f =>
      if (height ra <? 0) || (width ra <? 0) then Raise ValueError
      else Return (mk ra None default (Some f) (Some dt)
                     (numpy_full (height ra) (width ra) (numpy_dtype dt) default))
  | None =>
      Return (mk ra (Some ra) (noDataValue ra) None None
                (RasterToNumPyArray ra (XMin (extent ra)) (YMin (extent ra))
                   (width ra) (height ra) (noDataValue ra)))
  end.

Definition set_block (s : t) (b : ndarray) : t :=
  mk (rasterlike s) (raster s) (nodata s) (fileout s) (dtype s) b.

Definition set_raster (s : t) (ra : Raster) : t :=
  mk (rasterlike s) (Some ra) (nodata s) (fileout s) (dtype s) (block s).

Record Heap := mkHeap { self : t; world : World }.

Definition in_world {A} (m : M World A) : M Heap A :=
  λ h, let '(w', o) := m (world h) in (mkHeap (self h) w', o).

Definition read_self : M Heap t := λ h, (h, Return (self h)).

Definition update_self (f : t → t) : M Heap unit :=
  modify (λ h, mkHeap (f (self h)) (world h)).

Definition getValue (row col : Z) : M Heap Z :=
  do s <- read_self;
  match ndarray_get (block s) row col with
  | Some value => ret value
  | None => raise IndexError
  end.

Definition setValue (row col value : Z) : M Heap unit :=
  do s <- read_self;
  match ndarray_set (block s) row col value with
  | Some b => update_self (λ s, set_block s b)
  | None => raise IndexError
  end.

Definition save : M Heap unit :=
  do s <- read_self;
  let raster :=
    NumPyArrayToRaster (block s) (XMin (extent (rasterlike s)))
      (YMin (extent (rasterlike s))) (meanCellWidth (rasterlike s))
      (meanCellHeight (rasterlike s)) (nodata s) in
  match fileout s with
  | None => raise AttributeError
  | Some f =>
      do_ in_world (raster_save raster f);
      do ra <- in_world (arcpy_Raster f);
      do_ update_self (λ s, set_raster s ra);
      in_world (run_tool DefineProjection_management id)
  end.

(** A run of writes, each given as ((row, col), value). *)
Definition write_all (writes : list (Z * Z * Z)) : M Heap unit :=
  for_each writes (λ w, setValue (fst (fst w)) (snd (fst w)) (snd w)).

End RasterIOlight.

(** ** Further notions used to state the properties *)

(** The window, if one is loaded, is the one a read loads from the current
    raster for the upper-left cell the instance records. *)
Definition window_fresh (s : RasterIOfull) : Prop :=
  match block s, raster s with
  | Some b, Some ra =>
      0 <= xblock s ∧ 0 <= yblock s
      ∧ b = RasterToNumPyArray ra (corner_x ra (xblock s))
              (corner_y ra (blocksize s) (yblock s))
              (Z.min (xblock s + blocksize s) (width ra) - xblock s)
              (Z.min (yblock s + blocksize s) (height ra) - yblock s)
              (nodata s)
  | _, _ => True
  end.

(** The instance and the world are fit for the workers of a flush: the
    conditions of [flush_ready] but for the geoprocessing tools, which are
    left free to report errors. *)
Definition workers_ready (h : Heap) (rlf : Raster) (raf : option Raster) : Prop :=
  0 < blocksize (self h)
  ∧ 0 < width (rasterlike (self h)) ∧ 0 < height (rasterlike (self h))
  ∧ (∀ x y, worker_crash (env (world h)) x y = false)
  ∧ (∀ n m, temp_path (env (world h)) n = temp_path (env (world h)) m → n = m)
  ∧ never_temporary (env (world h)) (catalogPath (rasterlike (self h)))
  ∧ never_temporary (env (world h)) (fileout (self h))
  ∧ (∀ ra, raster (self h) = Some ra →
       never_temporary (env (world h)) (catalogPath ra))
  ∧ rasters (world h) !! catalogPath (rasterlike (self h)) = Some rlf
  ∧ georef_ok rlf
  ∧ width rlf = width (rasterlike (self h))
  ∧ height rlf = height (rasterlike (self h))
  ∧ opened (world h) (catalogPath <$> raster (self h)) raf
  ∧ (∀ ra, raf = Some ra → same_grid ra rlf)
  ∧ (raf = None → dtype (self h) = py_int ∨ dtype (self h) = py_float).

(** The tool that makes the output of the tiles: the mosaic, or the copy
    when there is one tile. *)
Definition assembling_tool (s : RasterIOfull) : GPTool :=
  if 1 <? Z.of_nat (length (tile_origins s))
  then MosaicToNewRaster_management else Copy_management.

(** The value last written to the cell (row, col) by a run of writes. *)
Definition last_write (writes : list (Z * Z * Z)) (row col : Z) : option Z :=
  snd <$> find (λ w, bool_decide (fst w = (row, col))) (rev writes).

(** The cell (row, col) lies in the tile whose upper-left cell is [xy]. *)
Definition in_tile (s : RasterIOfull) (xy : Z * Z) (row col : Z) : Prop :=
  fst xy <= col < fst xy + blocksize s ∧ snd xy <= row < snd xy + blocksize s.

(** ** Further example instances *)

(** An instance opened on an existing 4 by 4 raster of zeros, for a class
    whose [blocksize] is 2, after two writes and no read: no window is
    loaded, and the third new entry flushes. *)
Definition unread_heap : Heap :=
  let dem := flat_raster "C:\dem" 4 4 0 in
  run [call_setValue 1 1 1; call_setValue 2 2 1]
    (mkHeap (init 2 dem None py_int 0) (world_with quiet_env [dem])).

(** A 10 by 10 output under construction whose data type is [bool]. *)
Definition bool_output_heap : Heap :=
  let dem := flat_raster "C:\dem" 10 10 0 in
  mkHeap (init default_blocksize dem (Some "C:\out") py_bool 0)
    (world_with quiet_env [dem]).

(** A [RasterIOlight] instance created for a new 10 by 10 output. *)
Definition light_example : RasterIOlight.Heap :=
  RasterIOlight.mkHeap
    (RasterIOlight.mk (flat_raster "C:\dem" 10 10 0) None (-255) (Some "C:\out")
       (Some py_int) (numpy_full 10 10 S32 (-255)))
    (world_with quiet_env [flat_raster "C:\dem" 10 10 0]).

(** A 10 by 10 output under construction, and the world it is created
    in, where only the model raster is on file. *)
Definition small_output : RasterIOfull :=
  init default_blocksize (flat_raster "C:\dem" 10 10 0) (Some "C:\out") py_int (-255).

Definition small_world : World := world_with quiet_env [flat_raster "C:\dem" 10 10 0].

(** The writes among a caller's calls, in order. *)
Definition writes_of (calls : list call) : list (Z * Z * Z) :=
  omap (λ c, match c with
             | call_setValue row col value => Some (row, col, value)
             | _ => None
             end) calls.

(** The pixel type of the tiles of a flush: that of the backing raster, or
    the one the worker makes of the data type. *)
Definition tile_pixelType (s : RasterIOfull) (raf : option Raster) : PixelType :=
  match raf with
  | Some ra => pixelType ra
  | None => if String.eqb (dtype_name (dtype s)) "int" then S32 else F64
  end.

(** * Properties *)

(** ** Rational arithmetic *)

Ltac push_inject :=
  repeat first
    [ rewrite inject_Z_plus in * | rewrite inject_Z_mult in *
    | rewrite inject_Z_opp in * ];
  change (inject_Z 1) with 1%Q in *; change (inject_Z 0) with 0%Q in *;
  change (inject_Z (-1)) with (- (1))%Q in *.

Lemma Qfloor_unique (x : Q) (n : Z) :
  (inject_Z n <= x)%Q → (x < inject_Z n + 1)%Q → Qfloor x = n.
Proof.
  intros Hlo Hhi.
  pose proof (Qfloor_le x) as H1. pose proof (Qlt_floor x) as H2.
  assert (Qfloor x < n + 1) by (rewrite Zlt_Qlt; push_inject; lra).
  assert (n < Qfloor x + 1) by (rewrite Zlt_Qlt; push_inject; lra).
  lia.
Qed.

Lemma Qceiling_unique (x : Q) (n : Z) :
  (inject_Z n - 1 < x)%Q → (x <= inject_Z n)%Q → Qceiling x = n.
Proof.
  intros Hlo Hhi.
  pose proof (Qle_ceiling x) as H1. pose proof (Qceiling_lt x) as H2.
  unfold Z.sub in H2.
  assert (Qceiling x + - 1 < n) by (rewrite Zlt_Qlt; push_inject; lra).
  assert (n + -1 < Qceiling x) by (rewrite Zlt_Qlt; push_inject; lra).
  lia.
Qed.

Lemma nearest_Z (q : Q) (n : Z) : (q == inject_Z n)%Q → nearest q = n.
Proof. intros H. unfold nearest. apply Qfloor_unique; lra. Qed.

Lemma Qfloor_half (n : Z) (q : Q) : (q == inject_Z n + (1 # 2))%Q → Qfloor q = n.
Proof. intros H. apply Qfloor_unique; lra. Qed.

Lemma round_half_away_near (q : Q) :
  (q - (1 # 2) <= inject_Z (round_half_away q) <= q + (1 # 2))%Q.
Proof.
  unfold round_half_away. destruct (Qle_bool 0 q).
  - pose proof (Qfloor_le (q + (1 # 2))). pose proof (Qlt_floor (q + (1 # 2))).
    push_inject. lra.
  - pose proof (Qle_ceiling (q - (1 # 2))). pose proof (Qceiling_lt (q - (1 # 2))).
    unfold Z.sub in *. push_inject. lra.
Qed.

Lemma round_half_away_comp (p q : Q) :
  (p == q)%Q → round_half_away p = round_half_away q.
Proof.
  intros H. unfold round_half_away.
  assert (Qle_bool 0 p = Qle_bool 0 q) as ->.
  { apply eq_true_iff_eq. rewrite !Qle_bool_iff. rewrite H. tauto. }
  destruct (Qle_bool 0 q).
  - apply Qfloor_comp. rewrite H. reflexivity.
  - apply Qceiling_comp. rewrite H. reflexivity.
Qed.

Lemma py_round_3_neq (a b : Q) :
  Qneq_bool (py_round a 3) (py_round b 3) = negb (thousandths a =? thousandths b).
Proof.
  unfold Qneq_bool, py_round, thousandths. f_equal.
  change (10 ^ Z.of_nat 3) with 1000.
  apply eq_true_iff_eq. rewrite Qeq_bool_iff, Z.eqb_eq.
  generalize (round_half_away (a * inject_Z 1000)).
  generalize (round_half_away (b * inject_Z 1000)). intros m n.
  unfold Qeq, Qdiv, Qmult, Qinv, inject_Z. cbn. lia.
Qed.

(** ** Grid addressing *)

(** C9. With a positive cell width, [XtoCol] undoes [ColtoX] on every
    integer column; with a positive cell height and an extent whose height
    is that of the grid, [YtoRow] undoes [RowtoY] on every integer row. *)
Theorem coordinate_round_trip (s : RasterIOfull) (col row : Z) :
  (0 < meanCellWidth (rasterlike s))%Q →
  (0 < meanCellHeight (rasterlike s))%Q →
  (YMax (extent (rasterlike s))
   == YMin (extent (rasterlike s))
      + inject_Z (height (rasterlike s)) * meanCellHeight (rasterlike s))%Q →
  XtoCol s (ColtoX s col) = col ∧ YtoRow s (RowtoY s row) = row.
Proof.
  intros Hw Hh Hext. split.
  - unfold XtoCol, ColtoX. apply Qfloor_half. field. lra.
  - unfold YtoRow, RowtoY.
    rewrite (Qfloor_half (height (rasterlike s) - row - 1)); [lia|].
    rewrite Hext. unfold Z.sub. push_inject. field. lra.
Qed.

Lemma coordinate_round_trip_witness :
  let s := init default_blocksize (flat_raster "C:\dem" 10 10 0) None py_int 0 in
  XtoCol s (ColtoX s 3) = 3 ∧ YtoRow s (RowtoY s 4) = 4.
Proof.
  apply (coordinate_round_trip _ 3 4); reflexivity.
Defined.

(** ** Descriptor match *)

Lemma checkMatch_spec (s1 s2 : RasterIOfull) (a b : Raster) :
  raster s1 = Some a → raster s2 = Some b →
  (descriptors_differ a b → checkMatch s1 s2 = Raise DescriptorMismatch)
  ∧ (¬ descriptors_differ a b → checkMatch s1 s2 = Return tt).
Proof.
  intros Ha Hb. unfold checkMatch, descriptors_differ. rewrite Ha, Hb.
  rewrite !py_round_3_neq.
  destruct (Z.eqb_spec (thousandths (XMin (extent a))) (thousandths (XMin (extent b))));
  destruct (Z.eqb_spec (thousandths (YMin (extent a))) (thousandths (YMin (extent b))));
  destruct (Z.eqb_spec (thousandths (XMax (extent a))) (thousandths (XMax (extent b))));
  destruct (Z.eqb_spec (thousandths (YMax (extent a))) (thousandths (YMax (extent b))));
  destruct (Z.eqb_spec (height a) (height b));
  destruct (Z.eqb_spec (width a) (width b)); simpl; split; intros; tauto.
Qed.

Lemma thousandths_apart (x y : Q) :
  (x - y == 1 # 100)%Q → thousandths x ≠ thousandths y.
Proof.
  intros Hd He. unfold thousandths in He.
  pose proof (round_half_away_near (x * inject_Z 1000)) as Hx.
  pose proof (round_half_away_near (y * inject_Z 1000)) as Hy.
  rewrite He in Hx.
  assert (x * inject_Z 1000 == y * inject_Z 1000 + 10)%Q as Hs.
  { change (inject_Z 1000) with (1000 # 1)%Q. lra. }
  lra.
Qed.

(** C7. For two instances that have a raster, [checkMatch] raises exactly
    when the rasters differ in width, in height or in one of the four extent
    bounds rounded to three decimal places, and returns otherwise.  Two XMin
    values 0.01 apart always make it raise.  Two XMin values that round to
    the same thousandth, all else matching, do not. *)
Theorem checkMatch_rounding (s1 s2 : RasterIOfull) (a b : Raster) :
  raster s1 = Some a → raster s2 = Some b →
  (checkMatch s1 s2 = Raise DescriptorMismatch ↔ descriptors_differ a b)
  ∧ (checkMatch s1 s2 = Return tt ↔ ¬ descriptors_differ a b)
  ∧ ((XMin (extent a) - XMin (extent b) == 1 # 100)%Q
     ∨ (XMin (extent b) - XMin (extent a) == 1 # 100)%Q →
     checkMatch s1 s2 = Raise DescriptorMismatch).
Proof.
  intros Ha Hb. destruct (checkMatch_spec s1 s2 a b Ha Hb) as [Hd Hn].
  assert (descriptors_differ a b ∨ ¬ descriptors_differ a b) as Hdec.
  { unfold descriptors_differ.
    destruct (decide (width a = width b)); [|tauto].
    destruct (decide (height a = height b)); [|tauto].
    destruct (decide (thousandths (XMin (extent a)) = thousandths (XMin (extent b)))); [|tauto].
    destruct (decide (thousandths (YMin (extent a)) = thousandths (YMin (extent b)))); [|tauto].
    destruct (decide (thousandths (XMax (extent a)) = thousandths (XMax (extent b)))); [|tauto].
    destruct (decide (thousandths (YMax (extent a)) = thousandths (YMax (extent b)))); tauto. }
  split; [|split].
  - split; [|exact Hd]. intros Hr. destruct Hdec as [?|Hnd]; [assumption|].
    rewrite (Hn Hnd) in Hr. discriminate.
  - split; [|exact Hn]. intros Hr Hdd. rewrite (Hd Hdd) in Hr. discriminate.
  - intros Hx. apply Hd. right. right. left.
    destruct Hx as [Hx|Hx].
    + apply thousandths_apart. exact Hx.
    + intros He. symmetry in He. revert He. apply thousandths_apart. exact Hx.
Qed.

Lemma checkMatch_rounding_witness :
  let a := flat_raster "C:\a" 10 10 0 in
  let b :=
    mkRaster "C:\b" 10 10 (mkExtent (1 # 100) 0 (1001 # 100) 10) 1 1 (-9999) S32
      (λ _ _, 0) in
  let s1 := init default_blocksize a None py_int 0 in
  let s2 := init default_blocksize b None py_int 0 in
  (checkMatch s1 s2 = Raise DescriptorMismatch ↔ descriptors_differ a b)
  ∧ (checkMatch s1 s2 = Return tt ↔ ¬ descriptors_differ a b)
  ∧ ((XMin (extent a) - XMin (extent b) == 1 # 100)%Q
     ∨ (XMin (extent b) - XMin (extent a) == 1 # 100)%Q →
     checkMatch s1 s2 = Raise DescriptorMismatch).
Proof.
  intros a b s1 s2. apply (checkMatch_rounding s1 s2 a b); reflexivity.
Defined.

(** C7, as stated, fails: two grids of identical size whose XMin values
    are 0.00045 and 0.00055, that is 0.0001 apart, and whose other bounds
    agree, are rejected, because the two values round to 0.000 and 0.001. *)
Lemma checkMatch_rejects_below_tolerance :
  let a :=
    mkRaster "C:\a" 10 10 (mkExtent (45 # 100000) 0 10 10) 1 1 (-9999) S32
      (λ _ _, 0) in
  let b :=
    mkRaster "C:\b" 10 10 (mkExtent (55 # 100000) 0 10 10) 1 1 (-9999) S32
      (λ _ _, 0) in
  width a = width b ∧ height a = height b
  ∧ (XMin (extent b) - XMin (extent a) == 1 # 10000)%Q
  ∧ checkMatch (init default_blocksize a None py_int 0)
      (init default_blocksize b None py_int 0)
    = Raise DescriptorMismatch.
Proof. repeat split. Qed.

(** ** Reasoning about the monad *)

Lemma bind_Return {S A B} (m : M S A) (k : A → M S B) s s' a :
  m s = (s', Return a) → bind m k s = k a s'.
Proof. intros H. unfold bind. rewrite H. reflexivity. Qed.

Lemma bind_Raise {S A B} (m : M S A) (k : A → M S B) s s' e :
  m s = (s', Raise e) → bind m k s = (s', Raise e).
Proof. intros H. unfold bind. rewrite H. reflexivity. Qed.

Lemma in_world_eq {A} (m : M World A) (h : Heap) :
  in_world m h = (mkHeap (self h) (fst (m (world h))), snd (m (world h))).
Proof. unfold in_world. destruct (m (world h)). reflexivity. Qed.

Lemma hoare_conseq {S A} (P P' : S → Prop) (Q Q' : S → outcome A → Prop) (m : M S A) :
  hoare P' m Q' → (∀ s, P s → P' s) → (∀ s o, Q' s o → Q s o) → hoare P m Q.
Proof. unfold hoare. auto. Qed.

Lemma hoare_ret {S A} (P : S → Prop) (a : A) :
  hoare P (ret a) (λ s o, P s ∧ o = Return a).
Proof. intros s Hs. simpl. auto. Qed.

Lemma hoare_bind {S A B} (P : S → Prop) (R : A → S → Prop)
    (Q : S → outcome B → Prop) (m : M S A) (k : A → M S B) :
  hoare P m (λ s o, match o with Return a => R a s | Raise e => Q s (Raise e) end) →
  (∀ a, hoare (R a) (k a) Q) →
  hoare P (bind m k) Q.
Proof.
  intros Hm Hk s Hs. specialize (Hm s Hs). unfold bind.
  destruct (m s) as [s' [a|e]]; simpl in Hm.
  - apply Hk. exact Hm.
  - exact Hm.
Qed.

Lemma keeps_ret {S A} (I : S → Prop) (a : A) : keeps I (ret a).
Proof. intros s Hs. exact Hs. Qed.

Lemma keeps_raise {S A} (I : S → Prop) (e : exn) : keeps I (@raise S A e).
Proof. intros s Hs. exact Hs. Qed.

Lemma keeps_bind {S A B} (I : S → Prop) (m : M S A) (k : A → M S B) :
  keeps I m → (∀ a, keeps I (k a)) → keeps I (bind m k).
Proof.
  intros Hm Hk. apply hoare_bind with (R := λ _, I).
  - intros s Hs. specialize (Hm s Hs). destruct (m s) as [s' [a|e]]; exact Hm.
  - exact Hk.
Qed.

Lemma keeps_for_each {S A} (I : S → Prop) (l : list A) (body : A → M S unit) :
  (∀ a, keeps I (body a)) → keeps I (for_each l body).
Proof.
  intros Hb. induction l as [|a l IH]; simpl.
  - apply keeps_ret.
  - apply keeps_bind; auto.
Qed.

Lemma keeps_for_acc {S A B} (I : S → Prop) (l : list A) (acc : B)
    (body : A → B → M S B) :
  (∀ a b, keeps I (body a b)) → keeps I (for_acc l acc body).
Proof.
  intros Hb. revert acc. induction l as [|a l IH]; intros acc; simpl.
  - apply keeps_ret.
  - apply keeps_bind; auto.
Qed.

Lemma keeps_modify {S} (I : S → Prop) (f : S → S) :
  (∀ s, I s → I (f s)) → keeps I (modify f).
Proof. intros Hf s Hs. simpl. auto. Qed.

Lemma keeps_self_in_world {A} (P : RasterIOfull → Prop) (m : M World A) :
  keeps (λ h, P (self h)) (in_world m).
Proof. intros h Hh. rewrite in_world_eq. exact Hh. Qed.

Lemma keeps_world_in_world {A} (I : World → Prop) (m : M World A) :
  keeps I m → keeps (λ h, I (world h)) (in_world m).
Proof. intros Hm h Hh. rewrite in_world_eq. simpl. apply Hm. exact Hh. Qed.

Lemma keeps_read_self (I : Heap → Prop) : keeps I read_self.
Proof. intros h Hh. exact Hh. Qed.

Lemma keeps_update_self (P : RasterIOfull → Prop) (f : RasterIOfull → RasterIOfull) :
  (∀ s, P s → P (f s)) → keeps (λ h, P (self h)) (update_self f).
Proof. intros Hf h Hh. simpl. auto. Qed.

Lemma keeps_world_update_self (I : World → Prop) (f : RasterIOfull → RasterIOfull) :
  keeps (λ h, I (world h)) (update_self f).
Proof. intros h Hh. exact Hh. Qed.

(** ** What the methods leave alone *)

(** [save] changes nothing of the object but [raster] and [dtype]. *)
Lemma save_keeps_self (P : RasterIOfull → Prop) :
  (∀ s ra dt, P s → P (set_raster s ra dt)) →
  keeps (λ h, P (self h)) save.
Proof.
  intros HP. unfold save.
  repeat first
    [ apply keeps_self_in_world | apply keeps_read_self
    | apply keeps_update_self; intros; apply HP; assumption
    | apply keeps_ret
    | apply keeps_bind; [|intros ?]
    | match goal with |- keeps _ (if ?b then _ else _) => destruct b end ].
Qed.

(** [getValue] changes nothing of the object but the window. *)
Lemma getValue_keeps_self (P : RasterIOfull → Prop) (row col : Z) :
  (∀ s b xb yb, P s → P (set_window s b xb yb)) →
  keeps (λ h, P (self h)) (getValue row col).
Proof.
  intros HP. unfold getValue.
  repeat first
    [ apply keeps_self_in_world | apply keeps_read_self
    | apply keeps_update_self; intros; apply HP; assumption
    | apply keeps_ret | apply keeps_raise
    | apply keeps_bind; [|intros ?]
    | match goal with
      | |- keeps _ (if ?b then _ else _) => destruct b
      | |- keeps _ (match ?o with Some _ => _ | None => _ end) => destruct o
      end ].
Qed.

Lemma getValue_keeps_world (I : World → Prop) (row col : Z) :
  keeps (λ h, I (world h)) (getValue row col).
Proof.
  unfold getValue.
  repeat first
    [ apply keeps_read_self | apply keeps_world_update_self
    | apply keeps_ret | apply keeps_raise
    | apply keeps_bind; [|intros ?]
    | match goal with
      | |- keeps _ (if ?b then _ else _) => destruct b
      | |- keeps _ (match ?o with Some _ => _ | None => _ end) => destruct o
      end ].
Qed.

(** ** Reads outside the grid *)

(** C3. For a cell outside the grid, [getValue] returns the no-data value
    of the instance and changes nothing, whatever the overlay and the window
    hold. *)
Theorem getValue_outside_grid (h : Heap) (row col : Z) :
  out_of_grid (self h) row col →
  getValue row col h = (h, Return (nodata (self h))).
Proof.
  intros Hout. unfold getValue, bind, read_self.
  replace ((row <? 0) || (col <? 0) || (height (rasterlike (self h)) <=? row)
           || (width (rasterlike (self h)) <=? col)) with true; [reflexivity|].
  symmetry. unfold out_of_grid in Hout.
  rewrite !orb_true_iff, !Z.ltb_lt, !Z.leb_le. tauto.
Qed.

Lemma getValue_outside_grid_witness :
  overlay_lookup (dict (self stray_write_heap)) 20 20 = Some 5
  ∧ is_Some (block (self stray_write_heap))
  ∧ getValue 20 20 stray_write_heap
    = (stray_write_heap, Return (nodata (self stray_write_heap))).
Proof.
  split; [vm_compute; reflexivity|]. split; [vm_compute; eauto|].
  apply (getValue_outside_grid stray_write_heap 20 20).
  unfold out_of_grid. right. right. left. vm_compute. discriminate.
Defined.

(** ** The overlay and its counter *)

Lemma overlay_count_empty : overlay_count ∅ = 0%nat.
Proof. unfold overlay_count. apply map_fold_empty. Qed.

Lemma overlay_count_insert_fresh (d : gmap Z (gmap Z Z)) (r : Z) (m : gmap Z Z) :
  d !! r = None → overlay_count (<[r := m]> d) = (size m + overlay_count d)%nat.
Proof.
  intros Hr. unfold overlay_count.
  rewrite map_fold_insert_L; [reflexivity| |exact Hr].
  intros. lia.
Qed.

Lemma overlay_count_insert (d : gmap Z (gmap Z Z)) (r : Z) (m : gmap Z Z) :
  overlay_count (<[r := m]> d) = (size m + overlay_count (delete r d))%nat.
Proof.
  rewrite <- insert_delete_eq. apply overlay_count_insert_fresh, lookup_delete_eq.
Qed.

Lemma overlay_count_lookup (d : gmap Z (gmap Z Z)) (r : Z) (m : gmap Z Z) :
  d !! r = Some m → overlay_count d = (size m + overlay_count (delete r d))%nat.
Proof.
  intros Hr. rewrite <- (insert_id d r m Hr) at 1. apply overlay_count_insert.
Qed.

(** The dictionary [store] leaves behind. *)
Lemma store_dict (s : RasterIOfull) (row col value : Z) :
  dict (store s row col value)
  = <[row := <[col := value]> (default ∅ (dict s !! row))]> (dict s).
Proof.
  unfold store. simpl. destruct (dict s !! row) as [m|] eqn:Hr.
  - rewrite Hr. reflexivity.
  - rewrite lookup_insert_eq. simpl. apply insert_insert_eq.
Qed.

Lemma store_dictsize (s : RasterIOfull) (row col value : Z) :
  dictsize (store s row col value)
  = match overlay_lookup (dict s) row col with
    | None => dictsize s + 1
    | Some _ => dictsize s
    end.
Proof.
  unfold store, overlay_lookup. simpl. destruct (dict s !! row) as [m|] eqn:Hr.
  - rewrite Hr. reflexivity.
  - rewrite lookup_insert_eq. simpl. rewrite lookup_empty. reflexivity.
Qed.

Lemma store_lookup (s : RasterIOfull) (row col value r c : Z) :
  overlay_lookup (dict (store s row col value)) r c
  = if decide (r = row ∧ c = col) then Some value
    else overlay_lookup (dict s) r c.
Proof.
  rewrite store_dict. unfold overlay_lookup.
  destruct (decide (r = row)) as [->|Hr].
  - rewrite lookup_insert_eq. simpl.
    destruct (decide (c = col)) as [->|Hc].
    + rewrite lookup_insert_eq. rewrite decide_True by auto. reflexivity.
    + rewrite lookup_insert_ne by auto. rewrite decide_False by tauto.
      destruct (dict s !! row); simpl; [reflexivity|apply lookup_empty].
  - rewrite lookup_insert_ne by auto. rewrite decide_False by tauto. reflexivity.
Qed.

Lemma store_count_exact (s : RasterIOfull) (row col value : Z) :
  count_exact s → count_exact (store s row col value).
Proof.
  unfold count_exact. intros Hs.
  rewrite store_dictsize, store_dict, overlay_count_insert.
  unfold overlay_lookup. destruct (dict s !! row) as [m|] eqn:Hr; simpl.
  - rewrite (overlay_count_lookup _ _ _ Hr) in Hs.
    destruct (m !! col) as [v|] eqn:Hc.
    + rewrite map_size_insert_Some by eauto. lia.
    + rewrite map_size_insert_None by auto. lia.
  - rewrite delete_id by auto. rewrite map_size_insert_None by apply lookup_empty.
    rewrite map_size_empty. lia.
Qed.

Lemma setValue_keeps_count (row col value : Z) :
  keeps (λ h, count_exact (self h)) (setValue row col value).
Proof.
  unfold setValue.
  apply keeps_bind; [apply keeps_update_self; intros; by apply store_count_exact|].
  intros _. apply keeps_bind; [apply keeps_read_self|]. intros s.
  destruct (_ <? _); [|apply keeps_ret].
  apply hoare_bind with (R := λ _ _, True).
  - intros h Hh.
    pose proof (save_keeps_self count_exact (λ s ra dt H, H) h Hh) as Hk.
    destruct (save h) as [h' [[]|e]]; simpl in *; auto.
  - intros _ h _. simpl. unfold count_exact. simpl.
    rewrite overlay_count_empty. reflexivity.
Qed.

Lemma perform_keeps_count (c : call) :
  keeps (λ h, count_exact (self h)) (perform c).
Proof.
  destruct c; simpl.
  - apply keeps_bind; [|intros; apply keeps_ret].
    apply getValue_keeps_self. intros s b xb yb H. exact H.
  - apply setValue_keeps_count.
  - apply save_keeps_self. intros s ra dt H. exact H.
Qed.

(** C10. The counter [dictsize] is exact: on a new instance, and after any
    sequence of [getValue], [setValue] and [save] calls on it (whether they
    return or raise), it is the number of (row, col) pairs the overlay
    holds.  A write adds one to it when the cell had no entry and leaves it
    unchanged when it had one. *)
Theorem dictsize_exact (bs : Z) (ra : Raster) (out : option string) (dt : Dtype)
    (default : Z) (w : World) (calls : list call) (row col value : Z) :
  let s := self (run calls (mkHeap (init bs ra out dt default) w)) in
  dictsize s = Z.of_nat (overlay_count (dict s))
  ∧ dictsize (store s row col value)
    = match overlay_lookup (dict s) row col with
      | None => dictsize s + 1
      | Some _ => dictsize s
      end
  ∧ (dict s = ∅ → dictsize s = 0).
Proof.
  intros s.
  assert (∀ h0, count_exact (self h0) → count_exact (self (run calls h0))) as Hrun.
  { induction calls as [|c calls IH]; intros h0 H0; simpl; [exact H0|].
    apply IH. apply (perform_keeps_count c h0 H0). }
  assert (count_exact s) as Hs.
  { apply Hrun. unfold count_exact.
    destruct out; simpl; rewrite overlay_count_empty; reflexivity. }
  split; [exact Hs|]. split; [apply store_dictsize|].
  intros He. unfold count_exact in Hs. rewrite He, overlay_count_empty in Hs. exact Hs.
Qed.

(** ** What never changes in the world *)

Lemma keeps_apply {S A} (I : S → Prop) (m : M S A) (s : S) :
  keeps I m → I s → I (fst (m s)).
Proof. intros H Hs. exact (H s Hs). Qed.

Ltac keeps_step :=
  first
    [ apply keeps_ret | apply keeps_raise | apply keeps_read_self
    | apply keeps_world_update_self
    | apply keeps_bind; [|intros ?]
    | apply keeps_for_each; intros ?
    | apply keeps_for_acc; intros ? ?
    | match goal with
      | |- keeps _ (if ?b then _ else _) => destruct b
      | |- keeps _ (match ?o with Some _ => _ | None => _ end) => destruct o
      | |- keeps _ (match ?l with [] => _ | _ :: _ => _ end) => destruct l
      end ].

Ltac world_leaf :=
  let w := fresh "w" in
  let Hw := fresh "Hw" in
  intros w Hw;
  unfold random_name, scratch_path, pickle_dump, pickle_load, os_remove,
    arcpy_Raster, arcpy_Exists, arcpy_Delete, run_tool, raster_save,
    arcpy_Copy, modify, raise, ret in *;
  simpl; repeat case_match; simpl; auto.

(** Properties of the world that depend neither on the files nor on how
    many names were drawn before: every step of the program keeps them. *)
Section environment.
Variable I : World → Prop.
Hypothesis I_drawn :
  ∀ w, I w → I (mkWorld (env w) (rasters w) (pickles w) (S (drawn w))).
Hypothesis I_pickles : ∀ w p, I w → I (with_pickles w p).
Hypothesis I_rasters : ∀ w r, I w → I (with_rasters w r).

Lemma random_name_keeps : keeps I random_name.
Proof. world_leaf. Qed.
Lemma scratch_path_keeps n : keeps I (scratch_path n).
Proof. world_leaf. Qed.
Lemma pickle_dump_keeps p d : keeps I (pickle_dump p d).
Proof. world_leaf. Qed.
Lemma pickle_load_keeps p : keeps I (pickle_load p).
Proof. world_leaf. Qed.
Lemma os_remove_keeps p : keeps I (os_remove p).
Proof. world_leaf. Qed.
Lemma arcpy_Raster_keeps p : keeps I (arcpy_Raster p).
Proof. world_leaf. Qed.
Lemma arcpy_Exists_keeps p : keeps I (arcpy_Exists p).
Proof. world_leaf. Qed.
Lemma arcpy_Delete_keeps p : keeps I (arcpy_Delete p).
Proof. world_leaf. Qed.
Lemma raster_save_keeps r p : keeps I (raster_save r p).
Proof. world_leaf. Qed.
Lemma arcpy_Copy_keeps p q : keeps I (arcpy_Copy p q).
Proof. world_leaf. Qed.
Lemma run_tool_id_keeps t : keeps I (run_tool t id).
Proof. world_leaf. Qed.

Lemma open_all_keeps ps : keeps I (open_all ps).
Proof.
  induction ps as [|p ps IH]; simpl; [apply keeps_ret|].
  intros w Hw. destruct (rasters w !! p); [|exact Hw].
  revert w Hw. apply keeps_bind; [exact IH|]. intros; apply keeps_ret.
Qed.

Lemma arcpy_MosaicToNewRaster_keeps ps out pt :
  keeps I (arcpy_MosaicToNewRaster ps out pt).
Proof.
  unfold arcpy_MosaicToNewRaster. apply keeps_bind; [apply open_all_keeps|].
  intros [|first others]; [apply keeps_raise|].
  intros w Hw. destruct (tool_error _ _); [exact Hw|].
  apply raster_save_keeps. exact Hw.
Qed.

Lemma assemble_keeps fl out : keeps I (assemble fl out).
Proof.
  unfold assemble, mosaic_tool.
  repeat first
    [ apply arcpy_Raster_keeps | apply arcpy_Copy_keeps
    | apply arcpy_MosaicToNewRaster_keeps | keeps_step ].
Qed.

Lemma remove_temporaries_keeps fl : keeps I (remove_temporaries fl).
Proof.
  unfold remove_temporaries.
  repeat first [ apply arcpy_Exists_keeps | apply arcpy_Delete_keeps | keeps_step ].
Qed.

Lemma main_keeps args : keeps I (main args).
Proof.
  unfold main.
  repeat first
    [ apply arcpy_Raster_keeps | apply pickle_load_keeps
    | apply raster_save_keeps | keeps_step
    | match goal with
      | |- keeps _ (match ?p with (_, _) => _ end) =>
          destruct p as [? [[]|?]]
      end ].
Qed.

Lemma check_call_keeps args : keeps I (check_call args).
Proof.
  intros w Hw. unfold check_call. destruct (worker_crash _ _ _); [exact Hw|].
  pose proof (main_keeps args w Hw) as Hm.
  destruct (main args w) as [w' [[]|e]]; exact Hm.
Qed.

Lemma save_tiles_keeps s p : keeps I (save_tiles s p).
Proof.
  unfold save_tiles, save_tile.
  repeat first
    [ apply random_name_keeps | apply scratch_path_keeps
    | apply check_call_keeps | keeps_step ].
Qed.

Lemma save_keeps_world : keeps (λ h, I (world h)) save.
Proof.
  unfold save.
  repeat first
    [ apply keeps_world_in_world;
      first [ apply random_name_keeps | apply scratch_path_keeps
            | apply pickle_dump_keeps | apply save_tiles_keeps
            | apply os_remove_keeps | apply arcpy_Exists_keeps
            | apply arcpy_Delete_keeps | apply assemble_keeps
            | apply remove_temporaries_keeps | apply arcpy_Raster_keeps
            | apply run_tool_id_keeps ]
    | keeps_step ].
Qed.

Lemma setValue_keeps_world row col value :
  keeps (λ h, I (world h)) (setValue row col value).
Proof.
  unfold setValue.
  repeat first [ apply save_keeps_world | apply keeps_world_update_self | keeps_step ].
Qed.
End environment.

(** ** The automatic flush *)

Lemma setValue_unfold (row col value : Z) (h : Heap) :
  setValue row col value h
  = let s1 := store (self h) row col value in
    if threshold s1 <? dictsize s1
    then (do_ save; update_self (λ s, set_dict s ∅ 0)) (mkHeap s1 (world h))
    else (mkHeap s1 (world h), Return tt).
Proof.
  unfold setValue, threshold.
  rewrite (bind_Return _ _ h (mkHeap (store (self h) row col value) (world h)) tt)
    by reflexivity.
  rewrite (bind_Return _ _ _ (mkHeap (store (self h) row col value) (world h))
             (store (self h) row col value)) by reflexivity.
  cbv zeta. destruct (_ <? _); reflexivity.
Qed.

Lemma save_draws (h : Heap) : flushed h (fst (save h)).
Proof.
  unfold flushed, save.
  rewrite (bind_Return _ _ h h (self h)) by reflexivity.
  rewrite (bind_Return _ _ h
             (mkHeap (self h)
                (mkWorld (env (world h)) (rasters (world h)) (pickles (world h))
                   (S (drawn (world h)))))
             (urandom_hex (env (world h)) (drawn (world h)))) by reflexivity.
  match goal with
  | |- (_ < drawn (world (fst (?m ?h1))))%nat =>
      apply (keeps_apply (λ h', (S (drawn (world h)) <= drawn (world h'))%nat) m h1)
  end; [|simpl; lia].
  repeat first
    [ apply keeps_world_in_world with (I := λ w, (S (drawn (world h)) <= drawn w)%nat);
      first [ apply random_name_keeps | apply scratch_path_keeps
            | apply pickle_dump_keeps | apply save_tiles_keeps
            | apply os_remove_keeps | apply arcpy_Exists_keeps
            | apply arcpy_Delete_keeps | apply assemble_keeps
            | apply remove_temporaries_keeps | apply arcpy_Raster_keeps
            | apply run_tool_id_keeps ]; simpl; intros; lia
    | apply (keeps_world_update_self (λ w, (S (drawn (world h)) <= drawn w)%nat))
    | keeps_step ].
Qed.

Lemma setValue_keeps_self (P : RasterIOfull → Prop) (row col value : Z) :
  (∀ s, P s → P (store s row col value)) →
  (∀ s ra dt, P s → P (set_raster s ra dt)) →
  (∀ s, P s → P (set_dict s ∅ 0)) →
  keeps (λ h, P (self h)) (setValue row col value).
Proof.
  intros H1 H2 H3. unfold setValue.
  repeat first
    [ apply save_keeps_self; assumption
    | apply keeps_update_self; auto
    | keeps_step ].
Qed.

Lemma setValue_blocksize (row col value : Z) (h : Heap) :
  blocksize (self (fst (setValue row col value h))) = blocksize (self h).
Proof.
  apply (keeps_apply (λ h', blocksize (self h') = blocksize (self h))); [|reflexivity].
  apply setValue_keeps_self with (P := λ s, blocksize s = blocksize (self h)); auto.
Qed.

Lemma setValue_drawn (row col value : Z) (h : Heap) :
  (drawn (world h) <= drawn (world (fst (setValue row col value h))))%nat.
Proof.
  apply (keeps_apply (λ h', (drawn (world h) <= drawn (world h'))%nat)); [|lia].
  apply setValue_keeps_world with (I := λ w, (drawn (world h) <= drawn w)%nat);
    simpl; intros; lia.
Qed.

(** One call: the flush happens exactly above the threshold, and a call
    that returns leaves the counter at or below it. *)
Lemma setValue_trigger (h : Heap) (row col value : Z) :
  let s1 := store (self h) row col value in
  let h' := fst (setValue row col value h) in
  let o := snd (setValue row col value h) in
  (threshold s1 < dictsize s1 ↔ flushed h h')
  ∧ (dictsize s1 <= threshold s1 → h' = mkHeap s1 (world h) ∧ o = Return tt)
  ∧ (threshold s1 < dictsize s1 → o = Return tt →
     dictsize (self h') = 0 ∧ dict (self h') = ∅)
  ∧ (o = Return tt → dictsize (self h') <= threshold (self h')).
Proof.
  intros s1 h' o. subst h' o. rewrite setValue_unfold. fold s1. cbv zeta.
  destruct (Z.ltb_spec (threshold s1) (dictsize s1)) as [Hgt|Hle].
  - pose proof (save_draws (mkHeap s1 (world h))) as Hd. unfold flushed in *.
    simpl in Hd. unfold bind.
    destruct (save (mkHeap s1 (world h))) as [h1 [[]|e]] eqn:Hs; simpl in *.
    + repeat split; auto; try lia. intros _. unfold threshold. simpl.
      apply Z.div_pos; [|lia]. apply Z.square_nonneg.
    + repeat split; auto; try lia; discriminate.
  - clearbody s1. unfold flushed. cbn [fst snd self world].
    repeat split; auto; try lia.
Qed.

Lemma write_all_cons (w : Z * Z * Z) (ws : list (Z * Z * Z)) (h : Heap) :
  write_all (w :: ws) h
  = match setValue (fst (fst w)) (snd (fst w)) (snd w) h with
    | (h1, Return _) => write_all ws h1
    | (h1, Raise e) => (h1, Raise e)
    end.
Proof. reflexivity. Qed.

Lemma write_all_drawn (ws : list (Z * Z * Z)) (h : Heap) :
  (drawn (world h) <= drawn (world (fst (write_all ws h))))%nat.
Proof.
  revert h. induction ws as [|w ws IH]; intros h; [simpl; lia|].
  rewrite write_all_cons.
  pose proof (setValue_drawn (fst (fst w)) (snd (fst w)) (snd w) h) as Hd.
  destruct (setValue _ _ _ h) as [h1 [[]|e]]; simpl in *; [|exact Hd].
  specialize (IH h1). lia.
Qed.

Lemma write_all_bound (ws : list (Z * Z * Z)) (h : Heap) :
  snd (write_all ws h) = Return tt →
  dictsize (self h) <= threshold (self h) →
  dictsize (self (fst (write_all ws h))) <= threshold (self (fst (write_all ws h))).
Proof.
  revert h. induction ws as [|w ws IH]; intros h Hr Hh; [exact Hh|].
  rewrite write_all_cons in *.
  pose proof (setValue_trigger h (fst (fst w)) (snd (fst w)) (snd w)) as (_ & _ & _ & Hb).
  destruct (setValue _ _ _ h) as [h1 [[]|e]]; simpl in *; [|discriminate].
  apply IH; auto.
Qed.

Lemma write_all_without_flush (ws : list (Z * Z * Z)) (h : Heap) :
  NoDup (fst <$> ws) →
  (∀ w, w ∈ ws → overlay_lookup (dict (self h)) (fst (fst w)) (snd (fst w)) = None) →
  snd (write_all ws h) = Return tt →
  drawn (world (fst (write_all ws h))) = drawn (world h) →
  dictsize (self (fst (write_all ws h))) = dictsize (self h) + Z.of_nat (length ws).
Proof.
  revert h. induction ws as [|w ws IH]; intros h Hnd Hfresh Hr Hd; [simpl; lia|].
  rewrite write_all_cons in *.
  pose proof (setValue_trigger h (fst (fst w)) (snd (fst w)) (snd w)) as (Hf & Hno & _).
  pose proof (setValue_drawn (fst (fst w)) (snd (fst w)) (snd w) h) as Hm.
  destruct (setValue _ _ _ h) as [h1 [[]|e]]; cbn [fst snd] in *; [|discriminate].
  pose proof (write_all_drawn ws h1) as Hm'.
  unfold flushed in Hf.
  destruct Hno as [-> _]; [lia|].
  cbn [fmap list_fmap] in Hnd. apply NoDup_cons in Hnd. destruct Hnd as [Hw Hnd].
  rewrite IH; auto.
  - cbn [self length]. rewrite store_dictsize, (Hfresh w) by (left). lia.
  - intros w' Hw'. cbn [self]. rewrite store_lookup.
    destruct (decide _) as [[H1 H2]|_].
    + exfalso. apply Hw. apply list_elem_of_fmap. exists w'. split; [|exact Hw'].
      destruct w as [[r c] v], w' as [[r' c'] v']. simpl in *. congruence.
    + apply Hfresh. by right.
Qed.

(** C4. [setValue] flushes exactly when the counter, after the write,
    exceeds blocksize²/2; when the flush returns, the counter is back to 0
    and the overlay is empty; so a call that returns leaves the counter at
    most at blocksize²/2.  Hence a run of more than blocksize²/2 writes to
    distinct cells, started on an empty overlay and returning, includes a
    flush. *)
Theorem auto_flush_trigger (h : Heap) (row col value : Z) (writes : list (Z * Z * Z)) :
  let s1 := store (self h) row col value in
  let h' := fst (setValue row col value h) in
  let o := snd (setValue row col value h) in
  (blocksize (self h) * blocksize (self h) / 2 < dictsize s1 ↔ flushed h h')
  ∧ (flushed h h' → o = Return tt → dictsize (self h') = 0 ∧ dict (self h') = ∅)
  ∧ (o = Return tt →
     dictsize (self h') <= blocksize (self h) * blocksize (self h) / 2)
  ∧ (dict (self h) = ∅ → dictsize (self h) = 0 →
     NoDup (fst <$> writes) →
     blocksize (self h) * blocksize (self h) / 2 < Z.of_nat (length writes) →
     snd (write_all writes h) = Return tt →
     flushed h (fst (write_all writes h))).
Proof.
  intros s1 h' o.
  pose proof (setValue_trigger h row col value) as (Hf & Hno & Hz & Hb).
  pose proof (setValue_blocksize row col value h) as Hbs.
  fold s1 h' o in Hf, Hno, Hz, Hb. fold h' in Hbs.
  change (blocksize (self h) * blocksize (self h) / 2) with (threshold s1).
  split; [exact Hf|]. split; [intros; apply Hz; tauto|]. split.
  - intros Ho. specialize (Hb Ho). unfold threshold in *. rewrite Hbs in Hb. exact Hb.
  - intros Hd Hn Hnd Hlen Hr. unfold flushed.
    pose proof (write_all_drawn writes h) as Hm.
    destruct (decide (drawn (world (fst (write_all writes h))) = drawn (world h)))
      as [He|Hne]; [|lia].
    exfalso.
    assert (∀ w, w ∈ writes →
              overlay_lookup (dict (self h)) (fst (fst w)) (snd (fst w)) = None)
      as Hfresh by (intros w _; rewrite Hd; reflexivity).
    pose proof (write_all_without_flush writes h Hnd Hfresh Hr He) as Hc.
    pose proof (write_all_bound writes h Hr) as Hwb.
    assert (0 <= threshold (self h)) as Hpos.
    { unfold threshold. apply Z.div_pos; [apply Z.square_nonneg|lia]. }
    assert (threshold (self (fst (write_all writes h))) = threshold (self h)) as Ht.
    { unfold threshold. clear. revert h.
      induction writes as [|w ws IH]; intros h; [reflexivity|].
      rewrite write_all_cons.
      pose proof (setValue_blocksize (fst (fst w)) (snd (fst w)) (snd w) h) as Hb.
      destruct (setValue _ _ _ h) as [h1 [[]|e]]; cbn [fst snd] in *.
      - rewrite IH, Hb. reflexivity.
      - rewrite Hb. reflexivity. }
    rewrite Ht, Hc in Hwb.
    change (threshold s1) with (threshold (self h)) in Hlen. lia.
Qed.

(** ** What a tile worker does to the world *)

Lemma main_effect (args : Args) (w : World) :
  (∃ e, main args w = (w, Raise e))
  ∨ (∃ t, main args w
          = (with_rasters w (<[arg_blockname args := t]> (rasters w)), Return tt)).
Proof.
  unfold main, bind, arcpy_Raster, pickle_load, raster_save, modify, raise, ret.
  repeat case_match; simplify_eq; eauto.
Qed.

Lemma check_call_effect (args : Args) (w : World) :
  check_call args w = (w, Raise CalledProcessError)
  ∨ (∃ t, check_call args w
          = (with_rasters w (<[arg_blockname args := t]> (rasters w)), Return tt)
          ∧ worker_crash (env w) (arg_x args) (arg_y args) = false
          ∧ main args w
            = (with_rasters w (<[arg_blockname args := t]> (rasters w)), Return tt)).
Proof.
  unfold check_call. destruct (worker_crash _ _ _) eqn:Hc; [by left|].
  destruct (main_effect args w) as [[e He]|[t Ht]].
  - left. rewrite He. reflexivity.
  - right. exists t. rewrite Ht. auto.
Qed.

Lemma save_tile_unfold (s : RasterIOfull) (p : string) (x y : Z)
    (fl : list string) (w : World) :
  save_tile s p x y fl w
  = match check_call
            (mkArgs (catalogPath (rasterlike s)) x y (blocksize s)
               (temp_path (env w) (drawn w)) (nodata s) (dtype_name (dtype s)) p
               (catalogPath <$> raster s))
            (draw w) with
    | (w', Return _) => (w', Return (fl ++ [temp_path (env w) (drawn w)]))
    | (w', Raise e) => (w', Raise e)
    end.
Proof. reflexivity. Qed.

Lemma save_tile_effect (s : RasterIOfull) (p : string) (x y : Z)
    (fl : list string) (w : World) :
  save_tile s p x y fl w = (draw w, Raise CalledProcessError)
  ∨ (∃ t, save_tile s p x y fl w
          = (with_rasters (draw w)
               (<[temp_path (env w) (drawn w) := t]> (rasters w)),
             Return (fl ++ [temp_path (env w) (drawn w)]))
          ∧ worker_crash (env w) x y = false).
Proof.
  rewrite save_tile_unfold.
  destruct (check_call_effect
              (mkArgs (catalogPath (rasterlike s)) x y (blocksize s)
                 (temp_path (env w) (drawn w)) (nodata s) (dtype_name (dtype s)) p
                 (catalogPath <$> raster s)) (draw w)) as [->|(t & -> & Hc & _)].
  - by left.
  - right. exists t. auto.
Qed.

(** ** Which exceptions can be raised *)

Section exceptions.
Variable E : exn → Prop.

Lemma raises_only_ret {S A} (a : A) : raises_only E (@ret S A a).
Proof. intros s. exact Logic.I. Qed.

Lemma raises_only_raise {S A} (e : exn) : E e → raises_only E (@raise S A e).
Proof. intros He s. exact He. Qed.

Lemma raises_only_bind {S A B} (m : M S A) (k : A → M S B) :
  raises_only E m → (∀ a, raises_only E (k a)) → raises_only E (bind m k).
Proof.
  intros Hm Hk s. specialize (Hm s). unfold bind.
  destruct (m s) as [s' [a|e]]; simpl in *; [apply Hk|exact Hm].
Qed.

Lemma raises_only_for_each {S A} (l : list A) (body : A → M S unit) :
  (∀ a, raises_only E (body a)) → raises_only E (for_each l body).
Proof.
  intros Hb. induction l as [|a l IH]; simpl.
  - apply raises_only_ret.
  - apply raises_only_bind; auto.
Qed.

Lemma raises_only_for_acc {S A B} (l : list A) (acc : B) (body : A → B → M S B) :
  (∀ a b, raises_only E (body a b)) → raises_only E (for_acc l acc body).
Proof.
  intros Hb. revert acc. induction l as [|a l IH]; intros acc; simpl.
  - apply raises_only_ret.
  - apply raises_only_bind; auto.
Qed.

Lemma raises_only_in_world {A} (m : M World A) :
  raises_only E m → raises_only E (in_world m).
Proof. intros Hm h. rewrite in_world_eq. apply Hm. Qed.

Lemma raises_only_modify {S} (f : S → S) : raises_only E (modify f).
Proof. intros s. exact Logic.I. Qed.
End exceptions.

(** A loop whose body must raise on some element never returns. *)
Lemma for_acc_must_raise {S A B} (I : S → Prop) (bad : A → Prop) (l : list A)
    (body : A → B → M S B) :
  (∀ a b, keeps I (body a b)) →
  (∀ a b s, I s → bad a → ∃ e, snd (body a b s) = Raise e) →
  (∃ a, a ∈ l ∧ bad a) →
  ∀ acc s, I s → ∃ e, snd (for_acc l acc body s) = Raise e.
Proof.
  intros Hk Hbad. induction l as [|a l IH]; intros (a0 & Hin & Ha0) acc s Hs.
  - inversion Hin.
  - simpl. unfold bind. pose proof (Hk a acc s Hs) as Hs'.
    destruct (body a acc s) as [s' [b|e]] eqn:Hb; simpl in *; [|eauto].
    apply elem_of_cons in Hin. destruct Hin as [->|Hin].
    + destruct (Hbad a acc s Hs Ha0) as [e He]. rewrite Hb in He. discriminate.
    + apply IH; eauto.
Qed.

Ltac raises_step :=
  first
    [ apply raises_only_ret | apply raises_only_modify
    | apply raises_only_raise; discriminate
    | apply raises_only_bind; [|intros ?]
    | apply raises_only_for_each; intros ?
    | apply raises_only_for_acc; intros ? ?
    | apply raises_only_in_world
    | match goal with
      | |- raises_only _ (if ?b then _ else _) => destruct b
      | |- raises_only _ (match ?o with Some _ => _ | None => _ end) => destruct o
      | |- raises_only _ (match ?l with [] => _ | _ :: _ => _ end) => destruct l
      end ].

Ltac raises_leaf :=
  let w := fresh "w" in
  intros w;
  unfold random_name, scratch_path, pickle_dump, pickle_load, os_remove,
    arcpy_Raster, arcpy_Exists, arcpy_Delete, run_tool, raster_save,
    arcpy_Copy, modify, raise, ret, read_self, update_self in *;
  simpl; repeat case_match; simpl in *; simplify_eq; try discriminate; auto.

(** Only a worker that did not exit normally makes [save] raise
    [CalledProcessError]. *)
Lemma save_tiles_raises (s : RasterIOfull) (p : string) :
  raises_only (λ e, e = CalledProcessError) (save_tiles s p).
Proof.
  unfold save_tiles. apply raises_only_for_acc. intros x fl.
  apply raises_only_for_acc. intros y fl' w.
  destruct (save_tile_effect s p x y fl' w) as [->|(t & -> & _)]; simpl; auto.
Qed.

Lemma open_all_raises (ps : list string) :
  raises_only (λ e, e ≠ CalledProcessError) (open_all ps).
Proof.
  induction ps as [|p ps IH]; simpl; [apply raises_only_ret|].
  intros w. destruct (rasters w !! p); [|simpl; discriminate].
  revert w. apply raises_only_bind; [exact IH|]. intros; apply raises_only_ret.
Qed.

Lemma assemble_raises (fl : list string) (out : string) :
  raises_only (λ e, e ≠ CalledProcessError) (assemble fl out).
Proof.
  unfold assemble, mosaic_tool, arcpy_MosaicToNewRaster.
  repeat first
    [ apply open_all_raises | raises_step
    | match goal with
      | |- raises_only _ (arcpy_Raster _) => raises_leaf
      | |- raises_only _ (arcpy_Copy _ _) => raises_leaf
      | |- raises_only _ (λ w, if tool_error _ _ then _ else _) => raises_leaf
      end ].
Qed.

Lemma remove_temporaries_raises (fl : list string) :
  raises_only (λ e, e ≠ CalledProcessError) (remove_temporaries fl).
Proof.
  unfold remove_temporaries.
  repeat first [ raises_step | raises_leaf ].
Qed.

(** ** A worker that fails *)

Lemma save_unfold (h : Heap) :
  save h
  = let p := pickle_path (env (world h)) (drawn (world h)) in
    match save_tiles (self h) p (pickled (world h) (dict (self h))) with
    | (w, Return filelist) => save_finish (self h) p filelist (mkHeap (self h) w)
    | (w, Raise e) => (mkHeap (self h) w, Raise e)
    end.
Proof.
  unfold save.
  rewrite (bind_Return _ _ h h (self h)) by reflexivity.
  rewrite (bind_Return _ _ h (mkHeap (self h) (draw (world h)))
             (urandom_hex (env (world h)) (drawn (world h)))) by reflexivity.
  rewrite (bind_Return _ _ _ (mkHeap (self h) (draw (world h)))
             (pickle_path (env (world h)) (drawn (world h)))) by reflexivity.
  rewrite (bind_Return _ _ _
             (mkHeap (self h) (pickled (world h) (dict (self h)))) tt)
    by reflexivity.
  cbv zeta. unfold bind at 1. rewrite in_world_eq. cbn [self world].
  destruct (save_tiles _ _ _) as [w [fl|e]]; reflexivity.
Qed.

Lemma save_finish_raises (s : RasterIOfull) (p : string) (fl : list string) :
  raises_only (λ e, e ≠ CalledProcessError) (save_finish s p fl).
Proof.
  unfold save_finish.
  repeat first
    [ apply raises_only_in_world;
      first [ apply assemble_raises | apply remove_temporaries_raises | raises_leaf ]
    | raises_step | raises_leaf ].
Qed.

(** While the tiles are written, the environment and the pickle files stay
    as they are, and so does any file that is not a temporary tile. *)
Lemma save_tiles_frame (s : RasterIOfull) (p f : string) (e : Env)
    (r0 : option Raster) (p0 : gmap string (gmap Z (gmap Z Z))) :
  never_temporary e f →
  keeps (λ w, env w = e ∧ pickles w = p0 ∧ rasters w !! f = r0) (save_tiles s p).
Proof.
  intros Hf. unfold save_tiles. apply keeps_for_acc. intros x fl.
  apply keeps_for_acc. intros y fl' w (He & Hp & Hr).
  destruct (save_tile_effect s p x y fl' w) as [->|(t & -> & _)]; simpl; auto.
  rewrite lookup_insert_ne; auto. rewrite He. apply Hf.
Qed.

Lemma save_tiles_crash (s : RasterIOfull) (p : string) (w : World) (x y : Z) :
  x ∈ py_range (width (rasterlike s)) (blocksize s) →
  y ∈ py_range (height (rasterlike s)) (blocksize s) →
  worker_crash (env w) x y = true →
  snd (save_tiles s p w) = Raise CalledProcessError.
Proof.
  intros Hx Hy Hc.
  assert (∀ x' y' fl', keeps (λ w', env w' = env w) (save_tile s p x' y' fl')) as Hk.
  { intros x' y' fl' w' He.
    destruct (save_tile_effect s p x' y' fl' w') as [->|(t & -> & _)]; exact He. }
  assert (∃ e, snd (save_tiles s p w) = Raise e) as [e He].
  { unfold save_tiles.
    apply (for_acc_must_raise (λ w', env w' = env w)
             (λ x', ∃ y', y' ∈ py_range (height (rasterlike s)) (blocksize s)
                          ∧ worker_crash (env w) x' y' = true));
      [| |by eauto|reflexivity].
    - intros x' fl. apply keeps_for_acc. intros y' fl'. apply Hk.
    - intros x' fl w' He Hbad.
      apply (for_acc_must_raise (λ w', env w' = env w)
               (λ y', worker_crash (env w) x' y' = true));
        [|
         |exact Hbad|exact He].
      + intros y' fl'. apply Hk.
      + intros y' fl' w'' He' Hcr.
        destruct (save_tile_effect s p x' y' fl' w'') as [->|(t & _ & Hn)]; [eauto|].
        rewrite He' in Hn. congruence. }
  pose proof (save_tiles_raises s p w) as Hr. rewrite He in *. simpl in Hr.
  congruence.
Qed.

(** C5. If the worker of some tile fails, [save] raises
    [CalledProcessError].  Whenever [save] raises it (which only a worker
    that did not exit normally causes), the object is as it was before the
    call and the file at the output path is untouched: it is neither
    deleted nor written. *)
Theorem worker_failure_is_fatal (h : Heap) :
  never_temporary (env (world h)) (fileout (self h)) →
  (some_worker_crashes h → snd (save h) = Raise CalledProcessError)
  ∧ (snd (save h) = Raise CalledProcessError →
     self (fst (save h)) = self h
     ∧ rasters (world (fst (save h))) !! fileout (self h)
       = rasters (world h) !! fileout (self h)).
Proof.
  intros Hfresh. rewrite save_unfold. cbv zeta.
  pose proof (save_tiles_frame (self h) (pickle_path (env (world h)) (drawn (world h)))
                (fileout (self h)) (env (world h))
                (rasters (world h) !! fileout (self h))
                (<[pickle_path (env (world h)) (drawn (world h)) := dict (self h)]>
                   (pickles (world h)))
                Hfresh (pickled (world h) (dict (self h)))) as Hframe.
  split.
  - intros (x & y & Hx & Hy & Hc).
    pose proof (save_tiles_crash (self h)
                  (pickle_path (env (world h)) (drawn (world h)))
                  (pickled (world h) (dict (self h))) x y Hx Hy Hc) as Hr.
    destruct (save_tiles _ _ _) as [w [fl|e]]; simpl in *; [discriminate|congruence].
  - destruct (save_tiles _ _ _) as [w [fl|e]]; simpl in *.
    + intros Hr.
      pose proof (save_finish_raises (self h)
                    (pickle_path (env (world h)) (drawn (world h))) fl
                    (mkHeap (self h) w)) as Hn.
      rewrite Hr in Hn. congruence.
    + intros _. split; [reflexivity|]. apply Hframe. auto.
Qed.

Lemma worker_failure_is_fatal_witness :
  some_worker_crashes crash_heap
  ∧ snd (save crash_heap) = Raise CalledProcessError
  ∧ self (fst (save crash_heap)) = self crash_heap
  ∧ rasters (world (fst (save crash_heap))) !! "C:\out"
    = rasters (world crash_heap) !! "C:\out".
Proof.
  assert (never_temporary (env (world crash_heap)) (fileout (self crash_heap)))
    as Hfresh.
  { intros n. unfold temp_path. cbn. discriminate. }
  assert (some_worker_crashes crash_heap) as Hcrash.
  { exists 4096, 0. split; [|split; [|reflexivity]].
    - change (4096 ∈ [0; 4096; 8192]). set_solver.
    - change (0 ∈ [0; 4096; 8192]). set_solver. }
  destruct (worker_failure_is_fatal crash_heap Hfresh) as [Hraise Hsame].
  split; [exact Hcrash|]. split; [exact (Hraise Hcrash)|].
  exact (Hsame (Hraise Hcrash)).
Defined.

(** ** The tile a worker writes *)

Lemma py_index_in_range (i n : Z) : 0 <= i < n → py_index i n = Some i.
Proof.
  intros H. unfold py_index.
  destruct (Z.leb_spec 0 i); [|lia]. destruct (Z.ltb_spec i n); [|lia]. reflexivity.
Qed.

Lemma write_cell_in_range (a : ndarray) (i j v : Z) :
  0 <= i < fst (shape a) → 0 <= j < snd (shape a) →
  write_cell i j v a
  = (mkArray (shape a) (adtype a)
       (λ r c, if (r =? i) && (c =? j) then v else item a r c), Return tt).
Proof.
  intros Hi Hj. unfold write_cell, ndarray_set.
  rewrite (py_index_in_range _ _ Hi), (py_index_in_range _ _ Hj). reflexivity.
Qed.

(** The inner loop, over the entries of one row. *)
Lemma merge_row (l : list (Z * Z)) (x lx i : Z) (a : ndarray) :
  NoDup (fst <$> l) →
  0 <= i < fst (shape a) → snd (shape a) = lx - x →
  let m := for_each l (λ cv,
             if (fst cv <? lx) && (x <=? fst cv)
             then write_cell i (fst cv - x) (snd cv) else ret tt) in
  snd (m a) = Return tt
  ∧ shape (fst (m a)) = shape a
  ∧ adtype (fst (m a)) = adtype a
  ∧ (∀ r c, 0 <= c < lx - x →
       item (fst (m a)) r c
       = if decide (r = i)
         then default (item a r c) ((list_to_map l : gmap Z Z) !! (x + c))
         else item a r c).
Proof.
  revert a. induction l as [|[k v] l IH]; intros a Hnd Hi Hs m.
  - subst m. simpl. repeat split; auto. intros r c _.
    rewrite lookup_empty. simpl. by destruct (decide _).
  - cbn [fmap list_fmap fst] in Hnd. apply NoDup_cons in Hnd as [Hk Hnd].
    assert ((list_to_map l : gmap Z Z) !! k = None) as Hnone.
    { apply not_elem_of_list_to_map_1. exact Hk. }
    subst m. cbn [for_each fst snd].
    destruct ((k <? lx) && (x <=? k)) eqn:Hin.
    + apply andb_true_iff in Hin as [H1 H2]. apply Z.ltb_lt in H1. apply Z.leb_le in H2.
      rewrite (bind_Return _ _ a _ tt
                 (write_cell_in_range a i (k - x) v Hi ltac:(rewrite Hs; lia))).
      match goal with |- context [for_each l ?b ?a1] =>
        specialize (IH a1 Hnd Hi Hs); cbv zeta in IH; destruct IH as (E1 & E2 & E3 & E4)
      end.
      split; [exact E1|]. split; [exact E2|]. split; [exact E3|].
      intros r c Hc. rewrite E4 by exact Hc. cbn [item list_to_map foldr uncurry fst snd].
      destruct (decide (r = i)) as [->|Hr].
      * rewrite Z.eqb_refl. cbn [andb].
        destruct (Z.eqb_spec c (k - x)) as [->|Hne].
        -- replace (x + (k - x)) with k by lia. rewrite Hnone, lookup_insert_eq. reflexivity.
        -- rewrite lookup_insert_ne by lia. reflexivity.
      * destruct (Z.eqb_spec r i); [contradiction|]. reflexivity.
    + rewrite (bind_Return _ _ a a tt eq_refl).
      specialize (IH a Hnd Hi Hs). cbv zeta in IH. destruct IH as (E1 & E2 & E3 & E4).
      split; [exact E1|]. split; [exact E2|]. split; [exact E3|].
      intros r c Hc. rewrite E4 by exact Hc. cbn [list_to_map foldr uncurry fst snd].
      destruct (decide (r = i)); [|reflexivity].
      rewrite lookup_insert_ne; [reflexivity|].
      intros ->. apply andb_false_iff in Hin as [H|H].
      * apply Z.ltb_ge in H. lia.
      * apply Z.leb_gt in H. lia.
Qed.

Lemma merge_overlay_rows (l : list (Z * gmap Z Z)) (x y lx ly : Z) (a : ndarray) :
  NoDup (fst <$> l) →
  shape a = (ly - y, lx - x) →
  let m := for_each l (λ rc,
    if (fst rc <? ly) && (y <=? fst rc)
    then for_each (map_to_list (snd rc)) (λ cv,
           if (fst cv <? lx) && (x <=? fst cv)
           then write_cell (fst rc - y) (fst cv - x) (snd cv)
           else ret tt)
    else ret tt) in
  snd (m a) = Return tt
  ∧ shape (fst (m a)) = shape a
  ∧ adtype (fst (m a)) = adtype a
  ∧ (∀ r c, 0 <= r < ly - y → 0 <= c < lx - x →
       item (fst (m a)) r c
       = match (list_to_map l : gmap Z (gmap Z Z)) !! (y + r) with
         | Some cols => default (item a r c) (cols !! (x + c))
         | None => item a r c
         end).
Proof.
  revert a. induction l as [|[k cols] l IH]; intros a Hnd Hs m.
  - subst m. simpl. repeat split; auto.
  - cbn [fmap list_fmap fst] in Hnd. apply NoDup_cons in Hnd as [Hk Hnd].
    assert ((list_to_map l : gmap Z (gmap Z Z)) !! k = None) as Hnone.
    { apply not_elem_of_list_to_map_1. exact Hk. }
    subst m. cbn [for_each fst snd].
    destruct ((k <? ly) && (y <=? k)) eqn:Hin.
    + apply andb_true_iff in Hin as [H1 H2]. apply Z.ltb_lt in H1. apply Z.leb_le in H2.
      pose proof (merge_row (map_to_list cols) x lx (k - y) a
                    (NoDup_fst_map_to_list cols)) as Hrow.
      cbv zeta in Hrow. rewrite Hs in Hrow.
      destruct Hrow as (R1 & R2 & R3 & R4); [simpl; lia|reflexivity|].
      match type of R1 with snd (?f a) = _ => destruct (f a) as [a1 o1] eqn:Hrun end.
      cbn [fst snd] in *. subst o1.
      rewrite (bind_Return _ _ a a1 tt Hrun).
      specialize (IH a1 Hnd). cbv zeta in IH.
      destruct IH as (E1 & E2 & E3 & E4); [congruence|].
      split; [exact E1|]. split; [congruence|]. split; [congruence|].
      intros r c Hr Hc. rewrite E4 by assumption.
      cbn [list_to_map foldr uncurry fst snd]. rewrite !R4 by assumption.
      rewrite list_to_map_to_list.
      destruct (decide (r = k - y)) as [->|Hne].
      * replace (y + (k - y)) with k by lia. rewrite Hnone, lookup_insert_eq. reflexivity.
      * rewrite lookup_insert_ne by lia.
        destruct (list_to_map l !! (y + r)); reflexivity.
    + rewrite (bind_Return _ _ a a tt eq_refl).
      specialize (IH a Hnd Hs). cbv zeta in IH. destruct IH as (E1 & E2 & E3 & E4).
      split; [exact E1|]. split; [exact E2|]. split; [exact E3|].
      intros r c Hr Hc. rewrite E4 by assumption.
      cbn [list_to_map foldr uncurry fst snd].
      rewrite lookup_insert_ne; [reflexivity|].
      intros ->. apply andb_false_iff in Hin as [H|H].
      * apply Z.ltb_ge in H. lia.
      * apply Z.leb_gt in H. lia.
Qed.

Lemma merge_overlay_spec (d : gmap Z (gmap Z Z)) (x y lx ly : Z) (a : ndarray) :
  shape a = (ly - y, lx - x) →
  snd (merge_overlay d x y lx ly a) = Return tt
  ∧ shape (fst (merge_overlay d x y lx ly a)) = shape a
  ∧ adtype (fst (merge_overlay d x y lx ly a)) = adtype a
  ∧ (∀ r c, 0 <= r < ly - y → 0 <= c < lx - x →
       item (fst (merge_overlay d x y lx ly a)) r c
       = default (item a r c) (overlay_lookup d (y + r) (x + c))).
Proof.
  intros Hs.
  pose proof (merge_overlay_rows (map_to_list d) x y lx ly a
                (NoDup_fst_map_to_list d) Hs) as H.
  cbv zeta in H. rewrite list_to_map_to_list in H.
  destruct H as (E1 & E2 & E3 & E4). unfold merge_overlay.
  split; [exact E1|]. split; [exact E2|]. split; [exact E3|].
  intros r c Hr Hc. rewrite E4 by assumption. unfold overlay_lookup.
  destruct (d !! (y + r)); reflexivity.
Qed.

Lemma py_max_cases (a b : Q) :
  ((b <= a)%Q ∧ py_max a b = a) ∨ ((a < b)%Q ∧ py_max a b = b).
Proof.
  unfold py_max. destruct (Qle_bool b a) eqn:H.
  - left. split; [|reflexivity]. apply Qle_bool_iff. exact H.
  - right. split; [|reflexivity]. apply Qnot_le_lt. intros Hle.
    apply Qle_bool_iff in Hle. congruence.
Qed.

Lemma py_min_cases (a b : Q) :
  ((a <= b)%Q ∧ py_min a b = a) ∨ ((b < a)%Q ∧ py_min a b = b).
Proof.
  unfold py_min. destruct (Qle_bool a b) eqn:H.
  - left. split; [|reflexivity]. apply Qle_bool_iff. exact H.
  - right. split; [|reflexivity]. apply Qnot_le_lt. intros Hle.
    apply Qle_bool_iff in Hle. congruence.
Qed.

Lemma Qmult_le_pos_r (a b c : Q) : (0 < c)%Q → (a * c <= b * c)%Q ↔ (a <= b)%Q.
Proof. intros Hc. apply Qmult_le_r. exact Hc. Qed.

Lemma window_origin (rl ra : Raster) (bs x y : Z) :
  georef_ok rl → same_grid ra rl →
  nearest ((corner_x rl x - XMin (extent ra)) / meanCellWidth ra) = x
  ∧ height ra
    - nearest ((corner_y rl bs y - YMin (extent ra)) / meanCellHeight ra)
    - (Z.min (y + bs) (height rl) - y) = y.
Proof.
  intros (Hcw & Hch & HX & HY) (Hw & Hh & E1 & E2 & E3 & E4 & E5 & E6).
  split.
  - apply nearest_Z. unfold corner_x. rewrite E1, E5. field. lra.
  - unfold corner_y.
    destruct (py_max_cases (YMin (extent rl))
                (YMax (extent rl) - inject_Z (bs + y) * meanCellHeight rl))
      as [[Hle ->]|[Hlt ->]].
    + rewrite (nearest_Z _ 0).
      * assert (height rl <= bs + y).
        { rewrite Zle_Qle. apply (Qmult_le_pos_r _ _ (meanCellHeight rl) Hch). lra. }
        lia.
      * rewrite E2, E6. field. lra.
    + rewrite (nearest_Z _ (height rl - (bs + y))).
      * assert (bs + y < height rl).
        { rewrite Zlt_Qlt. apply (Qmult_lt_r _ _ (meanCellHeight rl) Hch). lra. }
        lia.
      * rewrite E2, E6, HY. unfold Z.sub. push_inject. field. lra.
Qed.
Lemma base_array_shape (rlf : Raster) (raf : option Raster) (args : Args) :
  shape (base_array rlf raf args)
  = (Z.min (arg_y args + arg_blocksize args) (height rlf) - arg_y args,
     Z.min (arg_x args + arg_blocksize args) (width rlf) - arg_x args).
Proof. unfold base_array. destruct raf; reflexivity. Qed.

Lemma main_success (args : Args) (w : World) (rlf : Raster) (raf : option Raster)
    (d : gmap Z (gmap Z Z)) :
  rasters w !! arg_rasterlike args = Some rlf →
  opened w (arg_raster args) raf →
  pickles w !! arg_pickledict args = Some d →
  (raf = None → arg_dtypename args = "int" ∨ arg_dtypename args = "float") →
  arg_x args <= Z.min (arg_x args + arg_blocksize args) (width rlf) →
  arg_y args <= Z.min (arg_y args + arg_blocksize args) (height rlf) →
  main args w
  = (with_rasters w (<[arg_blockname args := worker_tile rlf raf d args]> (rasters w)),
     Return tt).
Proof.
  intros Hrl Hra Hp Hdt Hx Hy.
  pose proof (merge_overlay_spec d (arg_x args) (arg_y args)
                (Z.min (arg_x args + arg_blocksize args) (width rlf))
                (Z.min (arg_y args + arg_blocksize args) (height rlf))
                (base_array rlf raf args) (base_array_shape rlf raf args))
    as (Hm & _).
  unfold main.
  rewrite (bind_Return _ _ w w rlf) by (unfold arcpy_Raster; rewrite Hrl; reflexivity).
  rewrite (bind_Return _ _ w w raf).
  2:{ unfold opened in Hra. destruct (arg_raster args) as [p|], raf as [ra|]; try done.
      unfold bind, arcpy_Raster. rewrite Hra. reflexivity. }
  cbv zeta.
  rewrite (bind_Return _ _ w w (base_array rlf raf args)).
  2:{ unfold base_array. destruct raf as [ra|]; [reflexivity|].
      destruct (Hdt eq_refl) as [E|E]; rewrite E; cbn [String.eqb Ascii.eqb Bool.eqb];
        unfold bind, ret.
      - destruct (Z.ltb_spec (Z.min (arg_y args + arg_blocksize args) (height rlf) - arg_y args) 0); [lia|].
        destruct (Z.ltb_spec (Z.min (arg_x args + arg_blocksize args) (width rlf) - arg_x args) 0); [lia|].
        reflexivity.
      - destruct (Z.ltb_spec (Z.min (arg_y args + arg_blocksize args) (height rlf) - arg_y args) 0); [lia|].
        destruct (Z.ltb_spec (Z.min (arg_x args + arg_blocksize args) (width rlf) - arg_x args) 0); [lia|].
        reflexivity. }
  rewrite (bind_Return _ _ w w d) by (unfold pickle_load; rewrite Hp; reflexivity).
  unfold worker_tile.
  destruct (merge_overlay _ _ _ _ _ _) as [a [[]|e]]; [reflexivity|discriminate].
Qed.

Lemma worker_tile_fields (rlf : Raster) (raf : option Raster)
    (d : gmap Z (gmap Z Z)) (args : Args) :
  let lx := Z.min (arg_x args + arg_blocksize args) (width rlf) in
  let ly := Z.min (arg_y args + arg_blocksize args) (height rlf) in
  let t := worker_tile rlf raf d args in
  catalogPath t = arg_blockname args
  ∧ width t = lx - arg_x args
  ∧ height t = ly - arg_y args
  ∧ extent t
    = mkExtent (corner_x rlf (arg_x args))
        (corner_y rlf (arg_blocksize args) (arg_y args))
        (corner_x rlf (arg_x args) + inject_Z (lx - arg_x args) * meanCellWidth rlf)
        (corner_y rlf (arg_blocksize args) (arg_y args)
         + inject_Z (ly - arg_y args) * meanCellHeight rlf)
  ∧ meanCellWidth t = meanCellWidth rlf
  ∧ meanCellHeight t = meanCellHeight rlf
  ∧ noDataValue t = arg_nodata args
  ∧ cells t
    = item (fst (merge_overlay d (arg_x args) (arg_y args) lx ly
                   (base_array rlf raf args))).
Proof.
  intros lx ly t. subst t. unfold worker_tile. fold lx ly.
  pose proof (merge_overlay_spec d (arg_x args) (arg_y args) lx ly
                (base_array rlf raf args) (base_array_shape rlf raf args))
    as (_ & Hs & _).
  rewrite base_array_shape in Hs. fold lx ly in Hs.
  unfold NumPyArrayToRaster. rewrite Hs. cbn. repeat split.
Qed.

Lemma base_array_item (rlf : Raster) (raf : option Raster) (args : Args) (i j : Z) :
  georef_ok rlf →
  (∀ ra, raf = Some ra → same_grid ra rlf) →
  item (base_array rlf raf args) i j
  = base_value raf (arg_nodata args) (arg_y args + i) (arg_x args + j).
Proof.
  intros Hg Hsame. unfold base_array, base_value. destruct raf as [ra|]; [|reflexivity].
  destruct (window_origin rlf ra (arg_blocksize args) (arg_x args) (arg_y args) Hg
              (Hsame ra eq_refl)) as [Hc Hr].
  unfold RasterToNumPyArray. cbn [item]. rewrite Hc, Hr. reflexivity.
Qed.

Lemma worker_tile_cells (rlf : Raster) (raf : option Raster)
    (d : gmap Z (gmap Z Z)) (args : Args) (i j : Z) :
  georef_ok rlf →
  (∀ ra, raf = Some ra → same_grid ra rlf) →
  0 <= i < Z.min (arg_y args + arg_blocksize args) (height rlf) - arg_y args →
  0 <= j < Z.min (arg_x args + arg_blocksize args) (width rlf) - arg_x args →
  cells (worker_tile rlf raf d args) i j
  = default (base_value raf (arg_nodata args) (arg_y args + i) (arg_x args + j))
      (overlay_lookup d (arg_y args + i) (arg_x args + j)).
Proof.
  intros Hg Hsame Hi Hj.
  destruct (worker_tile_fields rlf raf d args) as (_ & _ & _ & _ & _ & _ & _ & ->).
  pose proof (merge_overlay_spec d (arg_x args) (arg_y args)
                (Z.min (arg_x args + arg_blocksize args) (width rlf))
                (Z.min (arg_y args + arg_blocksize args) (height rlf))
                (base_array rlf raf args) (base_array_shape rlf raf args))
    as (_ & _ & _ & Hitem).
  rewrite Hitem by assumption. rewrite base_array_item by assumption. reflexivity.
Qed.

(** *** The loops *)

Lemma for_acc_app {S A B} (l1 l2 : list A) (acc : B) (body : A → B → M S B) (s : S) :
  for_acc (l1 ++ l2) acc body s
  = (do acc' <- for_acc l1 acc body; for_acc l2 acc' body) s.
Proof.
  revert acc s. induction l1 as [|a l1 IH]; intros acc s; simpl.
  - reflexivity.
  - unfold bind. destruct (body a acc s) as [s' [b|e]]; [|reflexivity].
    rewrite IH. reflexivity.
Qed.

Lemma for_acc_fmap {S A A' B} (f : A' → A) (l : list A') (acc : B)
    (body : A → B → M S B) (s : S) :
  for_acc (f <$> l) acc body s = for_acc l acc (λ a, body (f a)) s.
Proof.
  revert acc s. induction l as [|a l IH]; intros acc s; simpl; [reflexivity|].
  unfold bind. destruct (body (f a) acc s) as [s' [b|e]]; [|reflexivity]. apply IH.
Qed.

Lemma for_acc_nested {S A A' B} (xs : list A) (ys : list A') (acc : B)
    (body : A → A' → B → M S B) (s : S) :
  for_acc xs acc (λ x b, for_acc ys b (body x)) s
  = for_acc (xs ≫= λ x, (λ y, (x, y)) <$> ys) acc
      (λ xy b, body (fst xy) (snd xy) b) s.
Proof.
  revert acc s. induction xs as [|x xs IH]; intros acc s; [reflexivity|].
  cbn [mbind list_bind for_acc]. rewrite for_acc_app.
  unfold bind. rewrite for_acc_fmap. cbn [fst snd].
  destruct (for_acc ys acc _ s) as [s' [b|e]]; [|reflexivity]. apply IH.
Qed.

Lemma save_tiles_flat (s : RasterIOfull) (p : string) (w : World) :
  save_tiles s p w
  = for_acc (tile_origins s) [] (λ xy fl, save_tile s p (fst xy) (snd xy) fl) w.
Proof. unfold save_tiles, tile_origins. apply for_acc_nested. Qed.

Section tiles.
Variables (s : RasterIOfull) (p : string) (e : Env) (d : gmap Z (gmap Z Z))
  (rlf : Raster) (raf : option Raster).
Hypothesis no_crash : ∀ x y, worker_crash e x y = false.
Hypothesis temp_inj : ∀ n m, temp_path e n = temp_path e m → n = m.
Hypothesis rl_not_temp : never_temporary e (catalogPath (rasterlike s)).
Hypothesis ra_not_temp :
  ∀ ra, raster s = Some ra → never_temporary e (catalogPath ra).
Hypothesis dtype_ok : raf = None → dtype s = py_int ∨ dtype s = py_float.

Lemma ready_world_insert (w : World) (n : nat) (t : Raster) :
  ready_world s p e d rlf raf w →
  ready_world s p e d rlf raf
    (with_rasters (draw w) (<[temp_path e n := t]> (rasters w))).
Proof.
  intros (He & Hp & Hrl & Hra). repeat split; simpl; auto.
  - rewrite lookup_insert_ne; auto.
  - unfold opened in *. destruct (raster s) as [ra|] eqn:Hs, raf as [r|]; simpl in *; auto.
    rewrite lookup_insert_ne; auto. apply (ra_not_temp ra eq_refl).
Qed.

Lemma save_tile_run (xy : Z * Z) (fl : list string) (w : World) :
  ready_world s p e d rlf raf w → tile_fits s rlf xy →
  save_tile s p (fst xy) (snd xy) fl w
  = (with_rasters (draw w)
       (<[temp_path e (drawn w)
          := worker_tile rlf raf d (tile_args s p e (drawn w) xy)]> (rasters w)),
     Return (fl ++ [temp_path e (drawn w)])).
Proof.
  intros (He & Hp & Hrl & Hra) [Hx Hy]. rewrite save_tile_unfold. rewrite He.
  unfold check_call. cbn [arg_x arg_y env draw]. rewrite He, no_crash.
  fold (tile_args s p e (drawn w) xy).
  rewrite (main_success (tile_args s p e (drawn w) xy) (draw w) rlf raf d); auto.
  intros Hnone. unfold tile_args. cbn [arg_dtypename].
  destruct (dtype_ok Hnone) as [-> | ->]; simpl; auto.
Qed.

Lemma save_tiles_run (ts : list (Z * Z)) (fl : list string) (w : World) :
  ready_world s p e d rlf raf w → Forall (tile_fits s rlf) ts →
  ∃ w',
    for_acc ts fl (λ xy fl, save_tile s p (fst xy) (snd xy) fl) w
    = (w', Return (fl ++ (temp_path e <$> seq (drawn w) (length ts))))
    ∧ ready_world s p e d rlf raf w'
    ∧ pickles w' = pickles w
    ∧ drawn w' = (drawn w + length ts)%nat
    ∧ (∀ k xy, ts !! k = Some xy →
         rasters w' !! temp_path e (drawn w + k)
         = Some (worker_tile rlf raf d (tile_args s p e (drawn w + k) xy)))
    ∧ (∀ f, (∀ k, (k < length ts)%nat → f ≠ temp_path e (drawn w + k)) →
         rasters w' !! f = rasters w !! f).
Proof.
  revert fl w. induction ts as [|xy ts IH]; intros fl w Hw Hfits.
  - exists w. simpl. rewrite app_nil_r, Nat.add_0_r.
    repeat split; auto; try apply Hw. intros k xy Hk. inversion Hk.
  - apply Forall_cons in Hfits as [Hxy Hfits].
    cbn [for_acc]. rewrite (bind_Return _ _ _ _ _ (save_tile_run xy fl w Hw Hxy)).
    destruct (IH (fl ++ [temp_path e (drawn w)]) _
                (ready_world_insert w (drawn w)
                   (worker_tile rlf raf d (tile_args s p e (drawn w) xy)) Hw) Hfits)
      as (w' & Hrun & Hw' & Hp' & Hd' & Hk' & Hf').
    cbn [drawn draw with_rasters rasters pickles] in *.
    exists w'. split.
    { rewrite Hrun. cbn [length seq fmap list_fmap]. rewrite <- app_assoc. reflexivity. }
    split; [exact Hw'|]. split; [exact Hp'|]. split; [simpl; lia|]. split.
    + intros [|k] xy' Hlk.
      * simpl in Hlk. injection Hlk as <-. rewrite Nat.add_0_r.
        rewrite Hf'; [apply lookup_insert_eq|].
        intros k _ Heq. apply temp_inj in Heq. lia.
      * simpl in Hlk. replace (drawn w + S k)%nat with (S (drawn w) + k)%nat by lia.
        apply Hk'. exact Hlk.
    + intros f Hf. rewrite Hf'.
      * rewrite lookup_insert_ne; [reflexivity|].
        intros Heq. apply (Hf 0%nat); [simpl; lia|]. rewrite Nat.add_0_r. auto.
      * intros k Hlt. replace (S (drawn w) + k)%nat with (drawn w + S k)%nat by lia.
        apply Hf. simpl. lia.
Qed.
End tiles.
(** *** The range of the loops *)

Lemma py_range_length (stop step : Z) :
  0 < step → 0 <= stop →
  Z.of_nat (length (py_range stop step)) = (stop + step - 1) / step.
Proof.
  intros Hs Hp. unfold py_range. destruct (Z.ltb_spec 0 step); [|lia].
  rewrite length_fmap, length_seq. apply Z2Nat.id.
  apply Z.div_pos; lia.
Qed.

Lemma elem_of_py_range (stop step x : Z) :
  0 < step →
  x ∈ py_range stop step ↔ 0 <= x < stop ∧ x mod step = 0.
Proof.
  intros Hs. unfold py_range. destruct (Z.ltb_spec 0 step); [|lia].
  rewrite list_elem_of_fmap. split.
  - intros (i & -> & Hi). apply elem_of_seq in Hi.
    assert (Z.of_nat i < (stop + step - 1) / step) as Hlt by lia.
    split; [|apply Z.mod_mul; lia].
    assert (Z.of_nat i + 1 <= (stop + step - 1) / step) as Hle by lia.
    apply (Z.mul_le_mono_nonneg_r _ _ step) in Hle; [|lia].
    pose proof (Z.mul_div_le (stop + step - 1) step Hs). nia.
  - intros ([Hx0 Hx] & Hm). exists (Z.to_nat (x / step)).
    assert (x = x / step * step) as Hx'.
    { rewrite (Z.div_mod x step) at 1 by lia. rewrite Hm. lia. }
    assert (0 <= x / step) by (apply Z.div_pos; lia).
    split; [rewrite Z2Nat.id by lia; exact Hx'|].
    apply elem_of_seq. split; [lia|]. simpl.
    apply Nat2Z.inj_lt. rewrite !Z2Nat.id; try lia.
    + apply Z.div_lt_upper_bound; [lia|].
      assert (x / step * step + step <= step * ((stop + step - 1) / step)); [|lia].
      pose proof (Z.mod_pos_bound (stop + step - 1) step Hs).
      pose proof (Z.div_mod (stop + step - 1) step ltac:(lia)).
      assert (x / step < (stop + step - 1) / step); [|nia].
      apply Z.div_lt_upper_bound; [lia|]. nia.
    + apply Z.div_pos; lia.
Qed.

Lemma py_range_head (stop step : Z) :
  0 < step → 0 < stop → py_range stop step !! 0%nat = Some 0.
Proof.
  intros Hs Hp. unfold py_range. destruct (Z.ltb_spec 0 step); [|lia].
  assert (0 < (stop + step - 1) / step) as Hn.
  { apply Z.div_str_pos. lia. }
  destruct (Z.to_nat ((stop + step - 1) / step)) as [|n] eqn:E; [lia|].
  reflexivity.
Qed.

Lemma elem_of_tile_origins (s : RasterIOfull) (x y : Z) :
  (x, y) ∈ tile_origins s
  ↔ x ∈ py_range (width (rasterlike s)) (blocksize s)
    ∧ y ∈ py_range (height (rasterlike s)) (blocksize s).
Proof.
  unfold tile_origins. rewrite list_elem_of_bind. split.
  - intros (x' & Hy & Hx). apply list_elem_of_fmap in Hy as (y' & [= -> ->] & Hy). auto.
  - intros [Hx Hy]. exists x. split; [|exact Hx].
    apply list_elem_of_fmap. eauto.
Qed.

Lemma tile_origins_length (s : RasterIOfull) :
  length (tile_origins s)
  = (length (py_range (width (rasterlike s)) (blocksize s))
     * length (py_range (height (rasterlike s)) (blocksize s)))%nat.
Proof.
  unfold tile_origins.
  induction (py_range (width (rasterlike s)) (blocksize s)) as [|x xs IH];
    [reflexivity|].
  change ((x :: xs) ≫= ?f) with (f x ++ (xs ≫= f)).
  rewrite length_app, length_fmap, IH. reflexivity.
Qed.

Lemma tile_origins_head (s : RasterIOfull) :
  0 < blocksize s → 0 < width (rasterlike s) → 0 < height (rasterlike s) →
  ∃ rest, tile_origins s = (0, 0) :: rest.
Proof.
  intros Hb Hw Hh. unfold tile_origins.
  pose proof (py_range_head _ _ Hb Hw) as Hx. pose proof (py_range_head _ _ Hb Hh) as Hy.
  destruct (py_range (width (rasterlike s)) (blocksize s)) as [|x xs]; [discriminate|].
  destruct (py_range (height (rasterlike s)) (blocksize s)) as [|y ys]; [discriminate|].
  injection Hx as ->. injection Hy as ->. cbn. eauto.
Qed.

(** The tile that holds a cell of the grid. *)
Lemma tile_origins_cover (s : RasterIOfull) (row col : Z) :
  0 < blocksize s → in_grid s row col →
  ∃ x y, (x, y) ∈ tile_origins s
         ∧ x <= col < x + blocksize s ∧ y <= row < y + blocksize s.
Proof.
  intros Hb [Hr Hc].
  exists (blocksize s * (col / blocksize s)), (blocksize s * (row / blocksize s)).
  pose proof (Z.mod_pos_bound col _ Hb). pose proof (Z.mod_pos_bound row _ Hb).
  pose proof (Z.div_mod col (blocksize s) ltac:(lia)).
  pose proof (Z.div_mod row (blocksize s) ltac:(lia)).
  assert (0 <= col / blocksize s) by (apply Z.div_pos; lia).
  assert (0 <= row / blocksize s) by (apply Z.div_pos; lia).
  split; [|lia]. apply elem_of_tile_origins.
  rewrite !elem_of_py_range by exact Hb.
  split; (split; [nia|]); rewrite Z.mul_comm; apply Z.mod_mul; lia.
Qed.

(** *** Bounding boxes *)

Lemma py_min_le_l (a b : Q) : (py_min a b <= a)%Q.
Proof. destruct (py_min_cases a b) as [[H ->]|[H ->]]; lra. Qed.
Lemma py_min_le_r (a b : Q) : (py_min a b <= b)%Q.
Proof. destruct (py_min_cases a b) as [[H ->]|[H ->]]; lra. Qed.
Lemma py_min_glb (a b c : Q) : (c <= a)%Q → (c <= b)%Q → (c <= py_min a b)%Q.
Proof. intros. destruct (py_min_cases a b) as [[H1 ->]|[H1 ->]]; lra. Qed.
Lemma py_max_ge_l (a b : Q) : (a <= py_max a b)%Q.
Proof. destruct (py_max_cases a b) as [[H ->]|[H ->]]; lra. Qed.
Lemma py_max_ge_r (a b : Q) : (b <= py_max a b)%Q.
Proof. destruct (py_max_cases a b) as [[H ->]|[H ->]]; lra. Qed.
Lemma py_max_lub (a b c : Q) : (a <= c)%Q → (b <= c)%Q → (py_max a b <= c)%Q.
Proof. intros. destruct (py_max_cases a b) as [[H1 ->]|[H1 ->]]; lra. Qed.

Section folds.
Context {A : Type} (f : A → Q).

Lemma fold_min_le_init (q : Q) (l : list A) :
  (foldl (λ q t, py_min q (f t)) q l <= q)%Q.
Proof.
  revert q. induction l as [|a l IH]; intros q; simpl; [lra|].
  pose proof (IH (py_min q (f a))). pose proof (py_min_le_l q (f a)). lra.
Qed.

Lemma fold_min_le_elem (q : Q) (l : list A) (t : A) :
  t ∈ l → (foldl (λ q t, py_min q (f t)) q l <= f t)%Q.
Proof.
  revert q. induction l as [|a l IH]; intros q Ht; [inversion Ht|].
  apply elem_of_cons in Ht as [->|Ht]; simpl.
  - pose proof (fold_min_le_init (py_min q (f a)) l).
    pose proof (py_min_le_r q (f a)). lra.
  - apply IH. exact Ht.
Qed.

Lemma fold_min_ge (q b : Q) (l : list A) :
  (b <= q)%Q → (∀ t, t ∈ l → (b <= f t)%Q) →
  (b <= foldl (λ q t, py_min q (f t)) q l)%Q.
Proof.
  revert q. induction l as [|a l IH]; intros q Hq Hl; simpl; [exact Hq|].
  apply IH.
  - apply py_min_glb; [exact Hq|]. apply Hl. by left.
  - intros t Ht. apply Hl. by right.
Qed.

Lemma fold_max_ge_init (q : Q) (l : list A) :
  (q <= foldl (λ q t, py_max q (f t)) q l)%Q.
Proof.
  revert q. induction l as [|a l IH]; intros q; simpl; [lra|].
  pose proof (IH (py_max q (f a))). pose proof (py_max_ge_l q (f a)). lra.
Qed.

Lemma fold_max_ge_elem (q : Q) (l : list A) (t : A) :
  t ∈ l → (f t <= foldl (λ q t, py_max q (f t)) q l)%Q.
Proof.
  revert q. induction l as [|a l IH]; intros q Ht; [inversion Ht|].
  apply elem_of_cons in Ht as [->|Ht]; simpl.
  - pose proof (fold_max_ge_init (py_max q (f a)) l).
    pose proof (py_max_ge_r q (f a)). lra.
  - apply IH. exact Ht.
Qed.

Lemma fold_max_le (q b : Q) (l : list A) :
  (q <= b)%Q → (∀ t, t ∈ l → (f t <= b)%Q) →
  (foldl (λ q t, py_max q (f t)) q l <= b)%Q.
Proof.
  revert q. induction l as [|a l IH]; intros q Hq Hl; simpl; [exact Hq|].
  apply IH.
  - apply py_max_lub; [exact Hq|]. apply Hl. by left.
  - intros t Ht. apply Hl. by right.
Qed.
End folds.

Lemma bounding_box_fields (first : Raster) (others : list Raster) :
  XMin (bounding_box first others)
  = foldl (λ q t, py_min q (XMin (extent t))) (XMin (extent first)) others
  ∧ YMin (bounding_box first others)
    = foldl (λ q t, py_min q (YMin (extent t))) (YMin (extent first)) others
  ∧ XMax (bounding_box first others)
    = foldl (λ q t, py_max q (XMax (extent t))) (XMax (extent first)) others
  ∧ YMax (bounding_box first others)
    = foldl (λ q t, py_max q (YMax (extent t))) (YMax (extent first)) others.
Proof.
  unfold bounding_box. generalize (extent first) as e.
  induction others as [|t l IH]; intros e; simpl; [auto|].
  destruct (IH (extent_union e (extent t))) as (-> & -> & -> & ->). auto.
Qed.
(** *** Where the tiles sit *)

Lemma Qmult_inject_le (a b : Z) (q : Q) :
  a <= b → (0 < q)%Q → (inject_Z a * q <= inject_Z b * q)%Q.
Proof.
  intros Hab Hq. apply Qmult_le_compat_r; [|lra]. rewrite <- Zle_Qle. exact Hab.
Qed.

Lemma worker_tile_placed (rlf : Raster) (raf : option Raster)
    (d : gmap Z (gmap Z Z)) (args : Args) :
  georef_ok rlf → 0 < arg_blocksize args →
  0 <= arg_x args < width rlf → 0 <= arg_y args < height rlf →
  placed rlf (worker_tile rlf raf d args) (arg_x args) (arg_y args).
Proof.
  intros (Hcw & Hch & HX & HY) Hb Hx Hy.
  destruct (worker_tile_fields rlf raf d args)
    as (_ & Hw & Hh & He & Ecw & Ech & _). cbv zeta in *.
  unfold placed. rewrite Hw, Hh, He, Ecw, Ech. cbn [XMin YMin XMax YMax].
  assert (corner_y rlf (arg_blocksize args) (arg_y args)
          == YMax (extent rlf)
             - inject_Z (Z.min (arg_y args + arg_blocksize args) (height rlf))
               * meanCellHeight rlf)%Q as Hcy.
  { unfold corner_y.
    destruct (py_max_cases (YMin (extent rlf))
                (YMax (extent rlf)
                 - inject_Z (arg_blocksize args + arg_y args) * meanCellHeight rlf))
      as [[Hle ->]|[Hlt ->]].
    - assert (height rlf <= arg_blocksize args + arg_y args).
      { rewrite Zle_Qle. apply (Qmult_le_pos_r _ _ (meanCellHeight rlf) Hch). lra. }
      rewrite Z.min_r by lia. lra.
    - assert (arg_blocksize args + arg_y args < height rlf).
      { rewrite Zlt_Qlt. apply (Qmult_lt_r _ _ (meanCellHeight rlf) Hch). lra. }
      rewrite Z.min_l by lia. rewrite (Z.add_comm (arg_y args)). lra. }
  repeat split; try lia; try reflexivity.
  - rewrite Hcy. unfold Z.sub. push_inject. ring.
  - unfold corner_x. replace (arg_x args + (Z.min (arg_x args + arg_blocksize args) (width rlf) - arg_x args))
      with (Z.min (arg_x args + arg_blocksize args) (width rlf)) by lia.
    unfold Z.sub. push_inject. ring.
  - rewrite Hcy.
    replace (arg_y args + (Z.min (arg_y args + arg_blocksize args) (height rlf) - arg_y args))
      with (Z.min (arg_y args + arg_blocksize args) (height rlf)) by lia.
    reflexivity.
Qed.

Section mosaic.
Variables (rl : Raster) (p0 : Z * Z * Raster) (ps : list (Z * Z * Raster)).
Hypothesis rl_ok : georef_ok rl.
Hypothesis all_placed :
  Forall (λ xt, placed rl (snd xt) (fst (fst xt)) (snd (fst xt))) (p0 :: ps).
Hypothesis first_origin : fst p0 = (0, 0).
Hypothesis reaches_end :
  ∃ xt, xt ∈ p0 :: ps
        ∧ fst (fst xt) + width (snd xt) = width rl
        ∧ snd (fst xt) + height (snd xt) = height rl.

Lemma mosaic_box :
  let E := bounding_box (snd p0) (snd <$> ps) in
  (XMin E == XMin (extent rl))%Q ∧ (YMin E == YMin (extent rl))%Q
  ∧ (XMax E == XMax (extent rl))%Q ∧ (YMax E == YMax (extent rl))%Q.
Proof.
  destruct rl_ok as (Hcw & Hch & HX & HY).
  destruct (bounding_box_fields (snd p0) (snd <$> ps)) as (E1 & E2 & E3 & E4).
  cbv zeta. rewrite E1, E2, E3, E4. clear E1 E2 E3 E4.
  pose proof all_placed as Hall. rewrite Forall_forall in Hall.
  assert (∀ t, t ∈ snd <$> ps → ∃ xt, xt ∈ p0 :: ps ∧ snd xt = t) as Hin.
  { intros t Ht. apply list_elem_of_fmap in Ht as (xt & -> & Hxt).
    exists xt. split; [by right|reflexivity]. }
  assert (∀ xt, xt ∈ p0 :: ps →
            (XMin (extent rl) <= XMin (extent (snd xt)))%Q
            ∧ (YMin (extent rl) <= YMin (extent (snd xt)))%Q
            ∧ (XMax (extent (snd xt)) <= XMax (extent rl))%Q
            ∧ (YMax (extent (snd xt)) <= YMax (extent rl))%Q) as Hbound.
  { intros xt Hxt.
    destruct (Hall xt Hxt) as (P1 & P2 & P3 & P4 & _ & _ & G1 & G2 & G3 & G4 & G5 & G6).
    pose proof (Qmult_inject_le 0 _ _ G1 Hcw).
    pose proof (Qmult_inject_le 0 _ _ G2 Hch).
    pose proof (Qmult_inject_le _ _ _ G5 Hcw).
    pose proof (Qmult_inject_le _ _ _ G6 Hch).
    change (inject_Z 0) with 0%Q in *. split; [|split; [|split]]; lra. }
  destruct (Hall p0 ltac:(by left)) as (P1 & P2 & _). rewrite first_origin in P1, P2.
  cbn [fst snd] in P1, P2. change (inject_Z 0) with 0%Q in *.
  destruct reaches_end as (xe & Hxe & Hex & Hey).
  destruct (Hall xe Hxe) as (_ & _ & P3 & P4 & _). rewrite Hex in P3. rewrite Hey in P4.
  split; [|split; [|split]].
  - apply Qle_antisym.
    + pose proof (fold_min_le_init (λ t, XMin (extent t)) (XMin (extent (snd p0)))
                    (snd <$> ps)) as Hf. cbv beta in Hf. lra.
    + apply fold_min_ge.
      * apply (Hbound p0). by left.
      * intros t Ht. destruct (Hin t Ht) as (xt & Hxt & <-). apply (Hbound xt Hxt).
  - apply Qle_antisym.
    + apply elem_of_cons in Hxe as [->|Hxe].
      * pose proof (fold_min_le_init (λ t, YMin (extent t)) (YMin (extent (snd p0)))
                      (snd <$> ps)) as Hf. cbv beta in Hf. lra.
      * pose proof (fold_min_le_elem (λ t, YMin (extent t)) (YMin (extent (snd p0)))
                      (snd <$> ps) (snd xe)) as Hle.
        cbv beta in Hle.
        assert (snd xe ∈ snd <$> ps) as Hmem by (apply list_elem_of_fmap; eauto).
        specialize (Hle Hmem). lra.
    + apply fold_min_ge.
      * apply (Hbound p0). by left.
      * intros t Ht. destruct (Hin t Ht) as (xt & Hxt & <-). apply (Hbound xt Hxt).
  - apply Qle_antisym.
    + apply fold_max_le.
      * apply (Hbound p0). by left.
      * intros t Ht. destruct (Hin t Ht) as (xt & Hxt & <-). apply (Hbound xt Hxt).
    + apply elem_of_cons in Hxe as [->|Hxe].
      * pose proof (fold_max_ge_init (λ t, XMax (extent t)) (XMax (extent (snd p0)))
                      (snd <$> ps)) as Hf. cbv beta in Hf. lra.
      * pose proof (fold_max_ge_elem (λ t, XMax (extent t)) (XMax (extent (snd p0)))
                      (snd <$> ps) (snd xe)) as Hle.
        cbv beta in Hle.
        assert (snd xe ∈ snd <$> ps) as Hmem by (apply list_elem_of_fmap; eauto).
        specialize (Hle Hmem). lra.
  - apply Qle_antisym.
    + apply fold_max_le.
      * apply (Hbound p0). by left.
      * intros t Ht. destruct (Hin t Ht) as (xt & Hxt & <-). apply (Hbound xt Hxt).
    + pose proof (fold_max_ge_init (λ t, YMax (extent t)) (YMax (extent (snd p0)))
                    (snd <$> ps)) as Hf. cbv beta in Hf. lra.
Qed.
Lemma mosaic_size (pt : PixelType) :
  let m := mosaic_of (snd p0) (snd <$> ps) pt in
  width m = width rl ∧ height m = height rl ∧ same_grid m rl
  ∧ noDataValue m = noDataValue (snd p0) ∧ pixelType m = pt.
Proof.
  destruct rl_ok as (Hcw & Hch & HX & HY).
  destruct mosaic_box as (B1 & B2 & B3 & B4).
  pose proof all_placed as Hall. rewrite Forall_forall in Hall.
  destruct (Hall p0 ltac:(by left)) as (_ & _ & _ & _ & Ecw & Ech & _).
  cbv zeta. unfold mosaic_of. cbn [width height noDataValue pixelType].
  fold (bounding_box (snd p0) (snd <$> ps)).
  assert (nearest ((XMax (bounding_box (snd p0) (snd <$> ps))
                    - XMin (bounding_box (snd p0) (snd <$> ps)))
                   / meanCellWidth (snd p0)) = width rl) as Hw.
  { apply nearest_Z. rewrite B1, B3, Ecw, HX. field. lra. }
  assert (nearest ((YMax (bounding_box (snd p0) (snd <$> ps))
                    - YMin (bounding_box (snd p0) (snd <$> ps)))
                   / meanCellHeight (snd p0)) = height rl) as Hh.
  { apply nearest_Z. rewrite B2, B4, Ech, HY. field. lra. }
  split; [exact Hw|]. split; [exact Hh|]. split; [|split; reflexivity].
  unfold same_grid. cbn [width height extent meanCellWidth meanCellHeight].
  fold (bounding_box (snd p0) (snd <$> ps)).
  repeat split; assumption.
Qed.

Lemma mosaic_offsets (xt : Z * Z * Raster) :
  xt ∈ p0 :: ps →
  mosaic_col0 (bounding_box (snd p0) (snd <$> ps)) (snd xt) = fst (fst xt)
  ∧ mosaic_row0 (bounding_box (snd p0) (snd <$> ps)) (snd xt) = snd (fst xt).
Proof.
  intros Hxt. destruct rl_ok as (Hcw & Hch & HX & HY).
  destruct mosaic_box as (B1 & B2 & B3 & B4).
  pose proof all_placed as Hall. rewrite Forall_forall in Hall.
  destruct (Hall xt Hxt) as (P1 & P2 & _ & _ & Ecw & Ech & _).
  unfold mosaic_col0, mosaic_row0. split; apply nearest_Z.
  - rewrite P1, B1, Ecw. field. lra.
  - rewrite P2, B4, Ech. field. lra.
Qed.

Lemma mosaic_cells (pt : PixelType) (row col v : Z) :
  (∀ xt, xt ∈ p0 :: ps →
     inside (snd xt) (row - snd (fst xt)) (col - fst (fst xt)) = true →
     cells (snd xt) (row - snd (fst xt)) (col - fst (fst xt)) = v) →
  (∃ xt, xt ∈ p0 :: ps
         ∧ inside (snd xt) (row - snd (fst xt)) (col - fst (fst xt)) = true) →
  cells (mosaic_of (snd p0) (snd <$> ps) pt) row col = v.
Proof.
  intros Hval (xc & Hxc & Hcov).
  unfold mosaic_of. cbn [cells]. fold (bounding_box (snd p0) (snd <$> ps)).
  assert (∀ t, In t (rev (snd p0 :: (snd <$> ps))) →
            ∃ xt, xt ∈ p0 :: ps ∧ snd xt = t) as Hin.
  { intros t Ht. apply in_rev in Ht. apply list_elem_of_In in Ht.
    change (snd p0 :: (snd <$> ps)) with (snd <$> (p0 :: ps)) in Ht.
    apply list_elem_of_fmap in Ht as (xt & -> & Hxt). eauto. }
  destruct (find _ _) as [t|] eqn:Hfind.
  - apply find_some in Hfind as [Ht Hc].
    destruct (Hin t Ht) as (xt & Hxt & <-).
    unfold mosaic_covers in Hc.
    destruct (mosaic_offsets xt Hxt) as [Hc0 Hr0]. rewrite Hc0, Hr0 in Hc |- *.
    apply Hval; assumption.
  - exfalso.
    pose proof (find_none _ _ Hfind (snd xc)) as Hn. cbv beta in Hn.
    unfold mosaic_covers in Hn.
    destruct (mosaic_offsets xc Hxc) as [Hc0 Hr0]. rewrite Hc0, Hr0 in Hn.
    rewrite Hcov in Hn. discriminate Hn.
    apply in_rev. rewrite rev_involutive. apply list_elem_of_In.
    change (snd p0 :: (snd <$> ps)) with (snd <$> (p0 :: ps)).
    apply list_elem_of_fmap. eauto.
Qed.
End mosaic.
(** *** After the loops *)

Lemma pixel_of_label_rastertype (pt : PixelType) :
  pixel_of_label (rastertype pt) = Some pt.
Proof. destruct pt; reflexivity. Qed.

Lemma open_all_found (fl : list string) (tiles : list Raster) (w : World) :
  Forall2 (λ f t, rasters w !! f = Some t) fl tiles →
  open_all fl w = (w, Return tiles).
Proof.
  induction 1 as [|f t fl tiles Hf _ IH]; [reflexivity|].
  cbn [open_all]. rewrite Hf. rewrite (bind_Return _ _ _ _ _ IH). reflexivity.
Qed.

Lemma remove_temporaries_cons (f : string) (fl : list string) (w : World) :
  remove_temporaries (f :: fl) w
  = if bool_decide (is_Some (rasters w !! f))
    then if tool_error (env w) Delete_management
         then (w, Raise ExecuteError)
         else remove_temporaries fl (with_rasters w (delete f (rasters w)))
    else remove_temporaries fl w.
Proof.
  unfold remove_temporaries. cbn [for_each].
  unfold bind, arcpy_Exists, arcpy_Delete, run_tool, ret.
  destruct (bool_decide _); [|reflexivity].
  destruct (tool_error _ _); reflexivity.
Qed.

Lemma remove_temporaries_effect (fl : list string) (w : World) :
  let w' := fst (remove_temporaries fl w) in
  let o := snd (remove_temporaries fl w) in
  env w' = env w ∧ pickles w' = pickles w ∧ drawn w' = drawn w
  ∧ (∀ f, f ∉ fl → rasters w' !! f = rasters w !! f)
  ∧ (o = Return tt → ∀ f, f ∈ fl → rasters w' !! f = None)
  ∧ (tool_error (env w) Delete_management = false → o = Return tt).
Proof.
  revert w. induction fl as [|f fl IH]; intros w.
  - cbn. repeat split; auto. intros _ f Hf. inversion Hf.
  - rewrite remove_temporaries_cons.
    destruct (bool_decide (is_Some (rasters w !! f))) eqn:Hex.
    + destruct (tool_error (env w) Delete_management) eqn:Hte.
      * cbn. repeat split; auto; intros; congruence.
      * specialize (IH (with_rasters w (delete f (rasters w)))).
        cbv zeta in IH |- *. cbn [env with_rasters pickles drawn rasters] in IH.
        destruct IH as (I1 & I2 & I3 & I4 & I5 & I6).
        split; [exact I1|]. split; [exact I2|]. split; [exact I3|]. split; [|split].
        -- intros g Hg. apply not_elem_of_cons in Hg as [Hgf Hg].
           rewrite I4 by exact Hg. apply lookup_delete_ne. auto.
        -- intros Ho g Hg. destruct (decide (g ∈ fl)) as [Hin|Hnin]; [auto|].
           apply elem_of_cons in Hg as [->|Hg]; [|contradiction].
           rewrite I4 by exact Hnin. apply lookup_delete_eq.
        -- auto.
    + specialize (IH w). cbv zeta in IH |- *.
      destruct IH as (I1 & I2 & I3 & I4 & I5 & I6).
      split; [exact I1|]. split; [exact I2|]. split; [exact I3|]. split; [|split].
      * intros g Hg. apply not_elem_of_cons in Hg as [Hgf Hg]. auto.
      * intros Ho g Hg. destruct (decide (g ∈ fl)) as [Hin|Hnin]; [auto|].
        apply elem_of_cons in Hg as [->|Hg]; [|contradiction].
        rewrite I4 by exact Hnin.
        apply bool_decide_eq_false in Hex. rewrite <- not_eq_None_Some in Hex.
        destruct (rasters w !! f); [exfalso; apply Hex; discriminate|reflexivity].
      * exact I6.
Qed.

Lemma in_world_Return {A} (m : M World A) (h : Heap) (w' : World) (a : A) :
  m (world h) = (w', Return a) → in_world m h = (mkHeap (self h) w', Return a).
Proof. intros H. rewrite in_world_eq, H. reflexivity. Qed.

Lemma assemble_run (fl : list string) (t0 : Raster) (rest : list Raster)
    (out : string) (w : World) :
  Forall2 (λ f t, rasters w !! f = Some t) fl (t0 :: rest) →
  tool_error (env w) MosaicToNewRaster_management = false →
  tool_error (env w) Copy_management = false →
  assemble fl out w
  = (with_rasters w (<[out := set_path (output_of t0 rest) out]> (rasters w)),
     Return tt).
Proof.
  intros Hfl Hm Hc. pose proof (Forall2_length _ _ _ Hfl) as Hlen.
  pose proof (open_all_found _ _ _ Hfl) as Hopen.
  destruct fl as [|f0 fl]; [discriminate|].
  apply Forall2_cons in Hfl as [Hf0 Hfl]. unfold assemble.
  destruct rest as [|t1 rest].
  - destruct fl; [|discriminate].
    change (1 <? Z.of_nat (length [f0])) with false. cbv iota.
    unfold arcpy_Copy. rewrite Hf0, Hc. reflexivity.
  - destruct fl as [|f1 fl]; [discriminate|].
    replace (1 <? Z.of_nat (length (f0 :: f1 :: fl))) with true
      by (symmetry; apply Z.ltb_lt; simpl length; lia).
    rewrite (bind_Return _ _ w w t0) by (unfold arcpy_Raster; rewrite Hf0; reflexivity).
    unfold mosaic_tool. rewrite pixel_of_label_rastertype.
    unfold arcpy_MosaicToNewRaster. rewrite (bind_Return _ _ _ _ _ Hopen).
    rewrite Hm. reflexivity.
Qed.

Lemma save_finish_run (s : RasterIOfull) (p : string) (fl : list string)
    (t0 : Raster) (rest : list Raster) (w : World) :
  (∀ t, tool_error (env w) t = false) →
  is_Some (pickles w !! p) →
  Forall2 (λ f t, rasters w !! f = Some t) fl (t0 :: rest) →
  Forall (λ f, f ≠ fileout s) fl →
  let out := set_path (output_of t0 rest) (fileout s) in
  ∃ w',
    save_finish s p fl (mkHeap s w)
    = (mkHeap (set_raster s out (dtype_of_pixelType (pixelType out))) w', Return tt)
    ∧ env w' = env w ∧ drawn w' = drawn w
    ∧ pickles w' = delete p (pickles w)
    ∧ rasters w' !! fileout s = Some out
    ∧ (∀ f, f ∈ fl → rasters w' !! f = None)
    ∧ (∀ f, f ∉ fl → f ≠ fileout s → rasters w' !! f = rasters w !! f).
Proof.
  intros Hte [d' Hp] Hfl Hne out.
  set (w1 := with_pickles w (delete p (pickles w))).
  set (w2 := with_rasters w1 (delete (fileout s) (rasters w))).
  set (w3 := with_rasters w2 (<[fileout s := out]> (rasters w2))).
  assert (Forall2 (λ f t, rasters w2 !! f = Some t) fl (t0 :: rest)) as Hfl2.
  { clear -Hfl Hne. induction Hfl as [|f t fl ts Hf Hfl IH]; [constructor|].
    apply Forall_cons in Hne as [Hn Hne]. constructor; [|auto].
    subst w2 w1. cbn [rasters with_rasters]. rewrite lookup_delete_ne by auto. exact Hf. }
  pose proof (remove_temporaries_effect fl w3) as (R1 & R2 & R3 & R4 & R5 & R6).
  cbv zeta in *.
  destruct (remove_temporaries fl w3) as [w4 o4] eqn:Hrm. cbn [fst snd] in *.
  rewrite (R6 (Hte _)) in *. specialize (R5 eq_refl).
  assert (rasters w4 !! fileout s = Some out) as Hout.
  { rewrite R4; [subst w3; cbn; apply lookup_insert_eq|].
    intros Hin. rewrite Forall_forall in Hne. by apply (Hne _ Hin). }
  exists w4. split.
  - unfold save_finish.
    rewrite (bind_Return _ _ _ (mkHeap s w1) tt).
    2:{ apply in_world_Return. cbn [world]. unfold os_remove. rewrite Hp. reflexivity. }
    rewrite (bind_Return _ _ _ (mkHeap s w1)
               (bool_decide (is_Some (rasters w !! fileout s)))).
    2:{ apply in_world_Return. reflexivity. }
    rewrite (bind_Return _ _ _ (mkHeap s w2) tt).
    2:{ destruct (bool_decide (is_Some (rasters w !! fileout s))) eqn:Hex.
        - apply in_world_Return. cbn [world]. unfold arcpy_Delete, run_tool.
          subst w1. cbn [env with_pickles]. rewrite Hte. reflexivity.
        - apply bool_decide_eq_false in Hex. rewrite <- not_eq_None_Some in Hex.
          subst w2. assert (rasters w !! fileout s = None) as Hn
            by (destruct (rasters w !! fileout s); [exfalso; apply Hex; discriminate|reflexivity]).
          rewrite (delete_id _ _ Hn). reflexivity. }
    rewrite (bind_Return _ _ _ (mkHeap s w3) tt).
    2:{ apply in_world_Return. cbn [world].
        apply assemble_run; [exact Hfl2|apply Hte|apply Hte]. }
    rewrite (bind_Return _ _ _ (mkHeap s w4) tt).
    2:{ apply in_world_Return. exact Hrm. }
    rewrite (bind_Return _ _ _ (mkHeap s w4) out).
    2:{ apply in_world_Return. cbn [world]. unfold arcpy_Raster. rewrite Hout. reflexivity. }
    rewrite (bind_Return _ _ _
               (mkHeap (set_raster s out (dtype_of_pixelType (pixelType out))) w4) tt)
      by reflexivity.
    rewrite in_world_eq. cbn [world self]. unfold run_tool. rewrite R1.
    subst w3 w2 w1. cbn [env with_rasters with_pickles]. rewrite Hte. reflexivity.
  - split; [rewrite R1; reflexivity|]. split; [rewrite R3; reflexivity|].
    split; [rewrite R2; reflexivity|]. split; [exact Hout|]. split; [exact R5|].
    intros f Hf Hfo. rewrite R4 by exact Hf. subst w3 w2 w1.
    cbn [rasters with_rasters with_pickles].
    rewrite lookup_insert_ne by auto. apply lookup_delete_ne. auto.
Qed.
(** *** The output raster *)

Section output.
Variables (rl : Raster) (p0 : Z * Z * Raster) (ps : list (Z * Z * Raster)).
Hypothesis rl_ok : georef_ok rl.
Hypothesis all_placed :
  Forall (λ xt, placed rl (snd xt) (fst (fst xt)) (snd (fst xt))) (p0 :: ps).
Hypothesis first_origin : fst p0 = (0, 0).
Hypothesis reaches_end :
  ∃ xt, xt ∈ p0 :: ps
        ∧ fst (fst xt) + width (snd xt) = width rl
        ∧ snd (fst xt) + height (snd xt) = height rl.

Lemma output_size :
  width (output_of (snd p0) (snd <$> ps)) = width rl
  ∧ height (output_of (snd p0) (snd <$> ps)) = height rl
  ∧ same_grid (output_of (snd p0) (snd <$> ps)) rl
  ∧ noDataValue (output_of (snd p0) (snd <$> ps)) = noDataValue (snd p0).
Proof.
  destruct ps as [|p1 ps'] eqn:Hps.
  - cbn [fmap list_fmap output_of].
    destruct reaches_end as (xt & Hxt & Hw & Hh).
    apply list_elem_of_singleton in Hxt. subst xt.
    rewrite first_origin in Hw, Hh. cbn [fst snd] in Hw, Hh.
    apply Forall_cons in all_placed as [(P1 & P2 & P3 & P4 & P5 & P6 & _) _].
    rewrite first_origin in P1, P2, P3, P4. cbn [fst snd] in P1, P2, P3, P4.
    destruct rl_ok as (Hcw & Hch & HX & HY).
    replace (0 + width (snd p0)) with (width rl) in P3 by lia.
    replace (0 + height (snd p0)) with (height rl) in P4 by lia.
    change (inject_Z 0) with 0%Q in *.
    split; [lia|]. split; [lia|]. split; [|reflexivity].
    unfold same_grid. repeat split; try lia; try assumption; lra.
  - rewrite <- Hps in *.
    assert (output_of (snd p0) (snd <$> ps)
            = mosaic_of (snd p0) (snd <$> ps) (pixelType (snd p0))) as ->
      by (rewrite Hps; reflexivity).
    destruct (mosaic_size rl p0 ps rl_ok all_placed first_origin reaches_end
                (pixelType (snd p0))) as (H1 & H2 & H3 & H4 & _).
    auto.
Qed.

Lemma output_cells (row col v : Z) :
  (∀ xt, xt ∈ p0 :: ps →
     inside (snd xt) (row - snd (fst xt)) (col - fst (fst xt)) = true →
     cells (snd xt) (row - snd (fst xt)) (col - fst (fst xt)) = v) →
  (∃ xt, xt ∈ p0 :: ps
         ∧ inside (snd xt) (row - snd (fst xt)) (col - fst (fst xt)) = true) →
  cells (output_of (snd p0) (snd <$> ps)) row col = v.
Proof.
  intros Hval Hcov. destruct ps as [|p1 ps'] eqn:Hps.
  - cbn [fmap list_fmap output_of]. destruct Hcov as (xt & Hxt & Hin).
    apply list_elem_of_singleton in Hxt. subst xt.
    specialize (Hval p0 ltac:(by left) Hin).
    rewrite first_origin in Hval. cbn [fst snd] in Hval.
    rewrite !Z.sub_0_r in Hval. exact Hval.
  - rewrite <- Hps in *.
    assert (output_of (snd p0) (snd <$> ps)
            = mosaic_of (snd p0) (snd <$> ps) (pixelType (snd p0))) as ->
      by (rewrite Hps; reflexivity).
    apply (mosaic_cells rl p0 ps rl_ok all_placed first_origin reaches_end); assumption.
Qed.
End output.
(** *** The tiles of a flush *)

Section flush_tiles.
Variables (s : RasterIOfull) (p : string) (e : Env) (d0 : nat)
  (rlf : Raster) (raf : option Raster).
Hypothesis bs_pos : 0 < blocksize s.
Hypothesis rlf_ok : georef_ok rlf.
Hypothesis rlf_width : width rlf = width (rasterlike s).
Hypothesis rlf_height : height rlf = height (rasterlike s).
Hypothesis raf_grid : ∀ ra, raf = Some ra → same_grid ra rlf.

Lemma flush_tiles_lookup (k : nat) (xt : Z * Z * Raster) :
  flush_tiles s p e d0 rlf raf !! k = Some xt →
  tile_origins s !! k = Some (fst xt)
  ∧ snd xt = worker_tile rlf raf (dict s) (tile_args s p e (d0 + k) (fst xt)).
Proof.
  unfold flush_tiles. rewrite list_lookup_imap.
  destruct (tile_origins s !! k) as [xy|]; [|discriminate].
  intros [= <-]. auto.
Qed.

Lemma flush_tiles_elem (xt : Z * Z * Raster) :
  xt ∈ flush_tiles s p e d0 rlf raf →
  ∃ k, (fst xt) ∈ tile_origins s
       ∧ snd xt = worker_tile rlf raf (dict s) (tile_args s p e k (fst xt)).
Proof.
  intros Hin. apply list_elem_of_lookup in Hin as [k Hk].
  apply flush_tiles_lookup in Hk as [Ho Ht].
  exists (d0 + k)%nat. split; [|exact Ht]. apply list_elem_of_lookup. eauto.
Qed.

Lemma tile_origin_bounds (xy : Z * Z) :
  xy ∈ tile_origins s →
  0 <= fst xy < width rlf ∧ 0 <= snd xy < height rlf.
Proof.
  destruct xy as [x y]. rewrite elem_of_tile_origins.
  rewrite !elem_of_py_range by exact bs_pos. cbn [fst snd]. lia.
Qed.

Lemma flush_tiles_placed :
  Forall (λ xt, placed rlf (snd xt) (fst (fst xt)) (snd (fst xt)))
    (flush_tiles s p e d0 rlf raf).
Proof.
  apply Forall_forall. intros xt Hxt.
  destruct (flush_tiles_elem xt Hxt) as (k & Ho & ->).
  destruct (tile_origin_bounds _ Ho) as [Hx Hy].
  apply (worker_tile_placed rlf raf (dict s) (tile_args s p e k (fst xt))); auto.
Qed.

Lemma flush_tiles_size (xt : Z * Z * Raster) :
  xt ∈ flush_tiles s p e d0 rlf raf →
  width (snd xt) = Z.min (fst (fst xt) + blocksize s) (width rlf) - fst (fst xt)
  ∧ height (snd xt) = Z.min (snd (fst xt) + blocksize s) (height rlf) - snd (fst xt).
Proof.
  intros Hxt. destruct (flush_tiles_elem xt Hxt) as (k & Ho & ->).
  destruct (worker_tile_fields rlf raf (dict s) (tile_args s p e k (fst xt)))
    as (_ & Hw & Hh & _). auto.
Qed.

Lemma flush_tiles_cover (row col : Z) :
  in_grid s row col →
  ∃ xt, xt ∈ flush_tiles s p e d0 rlf raf
        ∧ inside (snd xt) (row - snd (fst xt)) (col - fst (fst xt)) = true.
Proof.
  intros Hg. pose proof Hg as [Hr Hc].
  destruct (tile_origins_cover s row col bs_pos Hg) as (x & y & Ho & Hx & Hy).
  apply list_elem_of_lookup in Ho as [k Hk].
  exists ((x, y), worker_tile rlf raf (dict s) (tile_args s p e (d0 + k) (x, y))).
  assert (((x, y), worker_tile rlf raf (dict s) (tile_args s p e (d0 + k) (x, y)))
          ∈ flush_tiles s p e d0 rlf raf) as Hin.
  { apply list_elem_of_lookup. exists k. unfold flush_tiles.
    rewrite list_lookup_imap, Hk. reflexivity. }
  split; [exact Hin|].
  destruct (flush_tiles_size _ Hin) as [Hw Hh]. cbn [fst snd] in *.
  unfold inside. rewrite Hw, Hh.
  rewrite !andb_true_iff, !Z.leb_le, !Z.ltb_lt. lia.
Qed.

Lemma flush_tiles_cells (row col : Z) (xt : Z * Z * Raster) :
  xt ∈ flush_tiles s p e d0 rlf raf →
  inside (snd xt) (row - snd (fst xt)) (col - fst (fst xt)) = true →
  cells (snd xt) (row - snd (fst xt)) (col - fst (fst xt))
  = flush_value raf s row col.
Proof.
  intros Hxt Hin. destruct (flush_tiles_size _ Hxt) as [Hw Hh].
  unfold inside in Hin. rewrite Hw, Hh in Hin.
  rewrite !andb_true_iff, !Z.leb_le, !Z.ltb_lt in Hin.
  destruct (flush_tiles_elem xt Hxt) as (k & Ho & Ht). rewrite Ht.
  rewrite worker_tile_cells; auto; cbn [tile_args arg_x arg_y arg_blocksize arg_nodata];
    try lia.
  unfold flush_value.
  replace (snd (fst xt) + (row - snd (fst xt))) with row by lia.
  replace (fst (fst xt) + (col - fst (fst xt))) with col by lia.
  reflexivity.
Qed.

Lemma flush_tiles_reach :
  0 < width (rasterlike s) → 0 < height (rasterlike s) →
  ∃ xt, xt ∈ flush_tiles s p e d0 rlf raf
        ∧ fst (fst xt) + width (snd xt) = width rlf
        ∧ snd (fst xt) + height (snd xt) = height rlf.
Proof.
  intros Hw Hh.
  destruct (flush_tiles_cover (height (rasterlike s) - 1) (width (rasterlike s) - 1))
    as (xt & Hxt & Hin); [unfold in_grid; lia|].
  exists xt. split; [exact Hxt|].
  destruct (flush_tiles_size _ Hxt) as [Ew Eh].
  unfold inside in Hin. rewrite Ew, Eh in Hin.
  rewrite !andb_true_iff, !Z.leb_le, !Z.ltb_lt in Hin. lia.
Qed.

Lemma flush_tiles_head :
  0 < width (rasterlike s) → 0 < height (rasterlike s) →
  ∃ p0 ps, flush_tiles s p e d0 rlf raf = p0 :: ps ∧ fst p0 = (0, 0).
Proof.
  intros Hw Hh. destruct (tile_origins_head s bs_pos Hw Hh) as (rest & Hrest).
  unfold flush_tiles. rewrite Hrest. cbn [imap]. eauto.
Qed.
End flush_tiles.
(** ** A flush that succeeds *)

Lemma save_spec (h : Heap) (rlf : Raster) (raf : option Raster) :
  flush_ready h rlf raf →
  ∃ out w',
    save h
    = (mkHeap (set_raster (self h) out (dtype_of_pixelType (pixelType out))) w',
       Return tt)
    ∧ env w' = env (world h)
    ∧ drawn w' = (S (drawn (world h)) + length (tile_origins (self h)))%nat
    ∧ rasters w' !! fileout (self h) = Some out
    ∧ catalogPath out = fileout (self h)
    ∧ width out = width (rasterlike (self h))
    ∧ height out = height (rasterlike (self h))
    ∧ same_grid out rlf
    ∧ (∀ row col, in_grid (self h) row col →
         cells out row col = flush_value raf (self h) row col)
    ∧ pickles w' !! pickle_path (env (world h)) (drawn (world h)) = None
    ∧ (∀ k, (drawn (world h) < k < drawn w')%nat →
         rasters w' !! temp_path (env (world h)) k = None)
    ∧ (∀ f, (∀ k, f ≠ temp_path (env (world h)) k) → f ≠ fileout (self h) →
         rasters w' !! f = rasters (world h) !! f).
Proof.
  intros (Hbs & Hw & Hh & [Hnc Hnt] & Hinj & Hrl & Hfo & Hra & Hrlf & Hok & Ew & Eh
          & Hop & Hgrid & Hdt).
  set (s := self h) in *. set (w := world h) in *. set (e := env w) in *.
  set (p := pickle_path e (drawn w)).
  rewrite save_unfold. cbv zeta. fold s w e p.
  assert (ready_world s p e (dict s) rlf raf (pickled w (dict s))) as Hready.
  { repeat split; auto. unfold pickled. cbn [pickles with_pickles]. fold e p.
    apply lookup_insert_eq. }
  assert (Forall (tile_fits s rlf) (tile_origins s)) as Hfits.
  { apply Forall_forall. intros xy Hxy.
    destruct (tile_origin_bounds s rlf) with (xy := xy); auto. unfold tile_fits. lia. }
  rewrite save_tiles_flat.
  destruct (save_tiles_run s p e (dict s) rlf raf Hnc Hinj Hrl Hra Hdt
              (tile_origins s) [] (pickled w (dict s)) Hready Hfits)
    as (w3 & -> & Hready3 & Hp3 & Hd3 & Hk3 & Hf3).
  cbn [app drawn pickled with_pickles draw] in *.
  destruct Hready3 as (He3 & Hpk3 & _).
  destruct (flush_tiles_head s p e (S (drawn w)) rlf raf) as (p0 & ps & Hpts & Hp0); auto.
  assert (Forall2 (λ f t, rasters w3 !! f = Some t)
            (temp_path e <$> seq (S (drawn w)) (length (tile_origins s)))
            (snd p0 :: (snd <$> ps))) as Hfl.
  { change (snd p0 :: (snd <$> ps)) with (snd <$> (p0 :: ps)). rewrite <- Hpts.
    apply Forall2_same_length_lookup. split.
    - unfold flush_tiles. rewrite !length_fmap, length_seq, length_imap. reflexivity.
    - intros i f t Hf Ht. rewrite list_lookup_fmap in Hf. rewrite list_lookup_fmap in Ht.
      destruct (flush_tiles s p e (S (drawn w)) rlf raf !! i) as [xt|] eqn:Hxt;
        [|discriminate].
      injection Ht as <-.
      apply flush_tiles_lookup in Hxt as [Ho ->].
      destruct (seq (S (drawn w)) (length (tile_origins s)) !! i) as [n|] eqn:Hn;
        [|discriminate].
      injection Hf as <-. apply lookup_seq in Hn as [-> _].
      apply Hk3. exact Ho. }
  assert (Forall (λ f, f ≠ fileout s)
            (temp_path e <$> seq (S (drawn w)) (length (tile_origins s)))) as Hne.
  { apply Forall_forall. intros f Hf. apply list_elem_of_fmap in Hf as (n & -> & _).
    apply Hfo. }
  destruct (save_finish_run s p _ (snd p0) (snd <$> ps) w3
              ltac:(rewrite He3; exact Hnt) ltac:(eauto) Hfl Hne)
    as (w' & Hrun & E1 & E2 & E3 & E4 & E5 & E6).
  assert (Hplaced := flush_tiles_placed s p e (S (drawn w)) rlf raf).
  assert (Hreach := flush_tiles_reach s p e (S (drawn w)) rlf raf).
  repeat match type of Hplaced with _ → _ => specialize (Hplaced ltac:(assumption)) end.
  repeat match type of Hreach with _ → _ => specialize (Hreach ltac:(assumption)) end.
  rewrite Hpts in Hplaced, Hreach.
  destruct (output_size rlf p0 ps Hok Hplaced Hp0 Hreach) as (Ow & Oh & Og & _).
  exists (set_path (output_of (snd p0) (snd <$> ps)) (fileout s)), w'.
  split; [exact Hrun|]. split; [congruence|]. split; [lia|].
  split; [exact E4|]. split; [reflexivity|].
  split; [cbn; lia|]. split; [cbn; lia|]. split; [exact Og|]. split; [|split; [|split]].
  - intros row col Hin. cbn [cells set_path].
    apply (output_cells rlf p0 ps Hok Hplaced Hp0 Hreach).
    + intros xt Hxt. rewrite <- Hpts in Hxt.
      apply flush_tiles_cells with (p := p) (e := e) (d0 := S (drawn w)) (rlf := rlf); auto.
    + rewrite <- Hpts.
      apply flush_tiles_cover; auto.
  - rewrite E3. apply lookup_delete_eq.
  - intros k Hk. apply E5. apply list_elem_of_fmap. exists k. split; [reflexivity|].
    apply elem_of_seq. lia.
  - intros f Hf Hfo'. rewrite E6; [|clear E6|exact Hfo'].
    + apply Hf3. intros k _. apply Hf.
    + intros Hin. apply list_elem_of_fmap in Hin as (n & -> & _). by apply (Hf n).
Qed.
(** ** Flush completeness *)

Lemma flush_ready_store (h : Heap) (rlf : Raster) (raf : option Raster)
    (row col value : Z) :
  flush_ready h rlf raf →
  flush_ready (mkHeap (store (self h) row col value) (world h)) rlf raf.
Proof. intros H. exact H. Qed.


Lemma pretty_temp_inj (ws : string) (n m : nat) :
  ws +:+ "\" +:+ pretty n = ws +:+ "\" +:+ pretty m → n = m.
Proof.
  intros H. induction ws as [|a ws IH]; cbn in H.
  - injection H as H. exact (inj (pretty : nat → string) n m H).
  - injection H as H. auto.
Qed.

Lemma quiet_env_never_temporary (f : string) :
  (∀ rest, f ≠ "C:\scratch\" +:+ rest) → never_temporary quiet_env f.
Proof. intros H n Heq. apply (H (pretty n)). symmetry. exact Heq. Qed.

Lemma flat_raster_georef_ok (path : string) (w h v : Z) :
  georef_ok (flat_raster path w h v).
Proof.
  unfold georef_ok, flat_raster. cbn. repeat split; try reflexivity; ring.
Qed.

Lemma scenario_ready :
  flush_ready scenario_heap (flat_raster "C:\dem" 10000 10000 0) None.
Proof.
  assert (env (world scenario_heap) = quiet_env) as He by reflexivity.
  unfold flush_ready. rewrite He.
  split; [reflexivity|]. split; [reflexivity|]. split; [reflexivity|].
  split; [split; reflexivity|].
  split; [intros n m; apply pretty_temp_inj|].
  split; [apply quiet_env_never_temporary; intros rest; discriminate|].
  split; [apply quiet_env_never_temporary; intros rest; discriminate|].
  split; [intros ra Hra; discriminate Hra|].
  split; [reflexivity|].
  split; [apply flat_raster_georef_ok|].
  split; [reflexivity|]. split; [reflexivity|].
  split; [exact Logic.I|].
  split; [intros ra Hra; discriminate Hra|].
  intros _. left. reflexivity.
Qed.


(** ** Tiling *)

Lemma ceil_div_spec (a b k : Z) :
  0 < b → ceil_div a b = k ↔ (k - 1) * b < a <= k * b.
Proof.
  intros Hb. unfold ceil_div. split.
  - intros <-. pose proof (Z.div_mod (a + b - 1) b ltac:(lia)).
    pose proof (Z.mod_pos_bound (a + b - 1) b Hb). nia.
  - intros [Hlo Hhi]. symmetry. apply (Z.div_unique _ _ _ (a + b - 1 - b * k)). 
    + left. nia.
    + lia.
Qed.

Lemma tile_origins_count (s : RasterIOfull) :
  0 < blocksize s → 0 <= width (rasterlike s) → 0 <= height (rasterlike s) →
  Z.of_nat (length (tile_origins s))
  = ceil_div (width (rasterlike s)) (blocksize s)
    * ceil_div (height (rasterlike s)) (blocksize s).
Proof.
  intros Hb Hw Hh. rewrite tile_origins_length, Nat2Z.inj_mul.
  rewrite !py_range_length by assumption. reflexivity.
Qed.


(** ** Cleaning up *)

Lemma hoare_bind_keeps {S A B} (I : S → Prop) (Q : S → outcome B → Prop)
    (m : M S A) (k : A → M S B) :
  keeps I m → (∀ s e, I s → Q s (Raise e)) → (∀ a, hoare I (k a) Q) →
  hoare I (bind m k) Q.
Proof.
  intros Hm Hq Hk. apply hoare_bind with (R := λ _, I); [|exact Hk].
  intros s Hs. specialize (Hm s Hs). destruct (m s) as [s' [a|e]]; simpl in *; auto.
Qed.

(** The names of the tiles are the random names drawn by the loops. *)
Lemma save_tiles_names (s : RasterIOfull) (p : string) (w : World) :
  let w3 := fst (save_tiles s p w) in
  env w3 = env w ∧ pickles w3 = pickles w ∧ (drawn w <= drawn w3)%nat
  ∧ ∀ fl, snd (save_tiles s p w) = Return fl →
      fl = temp_path (env w) <$> seq (drawn w) (drawn w3 - drawn w).
Proof.
  cbv zeta. rewrite save_tiles_flat.
  assert (∀ ts fl0 w,
            let r := for_acc ts fl0 (λ xy fl, save_tile s p (fst xy) (snd xy) fl) w in
            env (fst r) = env w ∧ pickles (fst r) = pickles w
            ∧ (drawn w <= drawn (fst r))%nat
            ∧ ∀ fl, snd r = Return fl →
                fl = fl0 ++ (temp_path (env w) <$> seq (drawn w) (drawn (fst r) - drawn w)))
    as Hgen.
  { clear w. induction ts as [|xy ts IH]; intros fl0 w; cbv zeta.
    - cbn. rewrite Nat.sub_diag. repeat split; auto.
      intros fl [= <-]. cbn. rewrite app_nil_r. reflexivity.
    - cbn [for_acc]. unfold bind.
      destruct (save_tile_effect s p (fst xy) (snd xy) fl0 w) as [->|(t & -> & _)].
      + cbn. repeat split; auto. intros fl Hfl. discriminate Hfl.
      + specialize (IH (fl0 ++ [temp_path (env w) (drawn w)])
                      (with_rasters (draw w)
                         (<[temp_path (env w) (drawn w) := t]> (rasters w)))).
        cbv zeta in IH. cbn [env pickles drawn with_rasters draw] in IH.
        destruct IH as (I1 & I2 & I3 & I4).
        split; [exact I1|]. split; [exact I2|]. split; [lia|].
        intros fl Hfl. rewrite (I4 fl Hfl), <- app_assoc. f_equal.
        match goal with |- context [(drawn ?r - drawn w)%nat] =>
          replace (drawn r - drawn w)%nat with (S (drawn r - S (drawn w))) by lia
        end.
        reflexivity. }
  apply (Hgen (tile_origins s) [] w).
Qed.

Lemma save_finish_effect (s : RasterIOfull) (p : string) (fl : list string) (h : Heap) :
  let h' := fst (save_finish s p fl h) in
  env (world h') = env (world h) ∧ drawn (world h') = drawn (world h)
  ∧ pickles (world h') !! p = None
  ∧ (snd (save_finish s p fl h) = Return tt →
     ∀ f, f ∈ fl → rasters (world h') !! f = None).
Proof.
  set (J := λ w : World, env w = env (world h) ∧ drawn w = drawn (world h)
                         ∧ pickles w !! p = None).
  assert (∀ w r, J w → J (with_rasters w r)) as Jr by (intros w r Hw; exact Hw).
  set (C := λ h' : Heap, ∀ f, f ∈ fl → rasters (world h') !! f = None).
  assert (hoare (λ h1, env (world h1) = env (world h) ∧ drawn (world h1) = drawn (world h))
            (save_finish s p fl)
            (λ h' o, J (world h') ∧ (o = Return tt → C h'))) as Hh.
  { unfold save_finish. intros h1 [He Hd].
    destruct (pickles (world h1) !! p) as [d'|] eqn:Hp.
    2:{ rewrite (bind_Raise _ _ h1 (mkHeap (self h1) (world h1)) OSError)
          by (rewrite in_world_eq; unfold os_remove; rewrite Hp; reflexivity).
        cbn [fst snd world]. split; [repeat split; auto|discriminate]. }
    rewrite (bind_Return _ _ h1
               (mkHeap (self h1) (with_pickles (world h1) (delete p (pickles (world h1)))))
               tt)
      by (rewrite in_world_eq; unfold os_remove; rewrite Hp; reflexivity).
    match goal with |- context [?rest (mkHeap (self h1) ?w1)] =>
      cut (hoare (λ h2, J (world h2)) rest
             (λ h' o, J (world h') ∧ (o = Return tt → C h')))
    end.
    { intros Hc. apply Hc. repeat split; cbn; auto. apply lookup_delete_eq. }
    apply hoare_bind_keeps;
      [apply keeps_world_in_world, arcpy_Exists_keeps
      |intros ? ? ?; split; [assumption|discriminate]|intros found].
    apply hoare_bind_keeps;
      [destruct found; [apply keeps_world_in_world, arcpy_Delete_keeps; exact Jr
                       |apply keeps_ret]
      |intros ? ? ?; split; [assumption|discriminate]|intros _].
    apply hoare_bind_keeps;
      [apply keeps_world_in_world, assemble_keeps; exact Jr
      |intros ? ? ?; split; [assumption|discriminate]|intros _].
    apply hoare_bind with (R := λ _ h', J (world h') ∧ C h').
    { intros h2 H2. rewrite in_world_eq. cbn [fst snd world].
      pose proof (remove_temporaries_keeps J Jr fl (world h2) H2) as Hk.
      destruct (remove_temporaries_effect fl (world h2)) as (_ & _ & _ & _ & Hc & _).
      destruct (remove_temporaries fl (world h2)) as [w3 [[]|e3]]; cbn [fst snd] in *.
      - split; [exact Hk|]. exact (Hc eq_refl).
      - split; [exact Hk|discriminate]. }
    intros _.
    assert (∀ m : M Heap unit,
              keeps (λ h', J (world h') ∧ C h') m →
              hoare (λ h', J (world h') ∧ C h') m
                (λ h' o, J (world h') ∧ (o = Return tt → C h'))) as Hfin.
    { intros m Hm h2 H2. destruct (Hm h2 H2). auto. }
    apply Hfin.
    apply keeps_bind;
      [intros h2 H2; rewrite in_world_eq; unfold arcpy_Raster;
       destruct (rasters (world h2) !! fileout s); exact H2|intros ra].
    apply keeps_bind; [intros h2 H2; exact H2|intros _].
    intros h2 H2. rewrite in_world_eq. unfold run_tool.
    destruct (tool_error _ _); exact H2. }
  specialize (Hh h (conj eq_refl eq_refl)). cbv beta in Hh.
  destruct Hh as [(J1 & J2 & J3) Hc]. cbv zeta. auto.
Qed.


(** ** Reading back a write *)

Lemma getValue_unfold (row col : Z) (s : RasterIOfull) (w : World) :
  getValue row col (mkHeap s w)
  = if (row <? 0) || (col <? 0) || (height (rasterlike s) <=? row)
       || (width (rasterlike s) <=? col)
    then (mkHeap s w, Return (nodata s))
    else
      match overlay_lookup (dict s) row col with
      | Some v => (mkHeap s w, Return v)
      | None =>
          match raster s with
          | None => (mkHeap s w, Return (nodata s))
          | Some ra =>
              let s' := if outside_block s row col
                        then load_block s ra row col else s in
              (mkHeap s' w,
               match block s' ≫= (λ b, ndarray_get b (row - yblock s') (col - xblock s')) with
               | None => Raise IndexError
               | Some value =>
                   Return (if value =? noDataValue ra then nodata s' else value)
               end)
          end
      end.
Proof.
  unfold getValue, overlay_lookup, bind, read_self, update_self, modify, ret, raise.
  cbn [self world].
  destruct (_ || _); [reflexivity|].
  destruct (dict s !! row ≫= _); [reflexivity|].
  destruct (raster s) as [ra|]; [|reflexivity].
  destruct (outside_block s row col); cbn [self world fst snd].
  - destruct (block (load_block s ra row col) ≫= _) as [v|]; [|reflexivity].
    destruct (v =? noDataValue ra); reflexivity.
  - destruct (block s ≫= _) as [v|]; [|reflexivity].
    destruct (v =? noDataValue ra); reflexivity.
Qed.

Lemma keeps_True {S A} (m : M S A) : keeps (λ _, True) m.
Proof. intros s _. exact Logic.I. Qed.

Lemma save_finish_sets_raster (s : RasterIOfull) (p : string) (fl : list string)
    (h : Heap) :
  snd (save_finish s p fl h) = Return tt →
  is_Some (raster (self (fst (save_finish s p fl h)))).
Proof.
  assert (hoare (λ _, True) (save_finish s p fl)
            (λ h' o, o = Return tt → is_Some (raster (self h')))) as Hh.
  { unfold save_finish.
    do 6 (apply hoare_bind_keeps;
          [apply keeps_True|intros ? ? _; discriminate|intros ?]).
    intros h1 _ _.
    rewrite (bind_Return _ _ h1 (mkHeap (set_raster (self h1) a4
                                            (dtype_of_pixelType (pixelType a4)))
                                   (world h1)) tt) by reflexivity.
    rewrite in_world_eq. cbn [fst self set_raster raster]. eauto. }
  exact (Hh h Logic.I).
Qed.

(** Neither [save] nor the reset of the overlay touches the window. *)
Lemma save_keeps_window (h : Heap) :
  block (self (fst (save h))) = block (self h)
  ∧ xblock (self (fst (save h))) = xblock (self h)
  ∧ yblock (self (fst (save h))) = yblock (self h)
  ∧ blocksize (self (fst (save h))) = blocksize (self h)
  ∧ rasterlike (self (fst (save h))) = rasterlike (self h)
  ∧ nodata (self (fst (save h))) = nodata (self h).
Proof.
  apply (keeps_apply
           (λ h', block (self h') = block (self h)
                  ∧ xblock (self h') = xblock (self h)
                  ∧ yblock (self h') = yblock (self h)
                  ∧ blocksize (self h') = blocksize (self h)
                  ∧ rasterlike (self h') = rasterlike (self h)
                  ∧ nodata (self h') = nodata (self h)));
    [|repeat split].
  apply (save_keeps_self
           (λ s, block s = block (self h) ∧ xblock s = xblock (self h)
                 ∧ yblock s = yblock (self h) ∧ blocksize s = blocksize (self h)
                 ∧ rasterlike s = rasterlike (self h) ∧ nodata s = nodata (self h))).
  intros s ra dt Hs. exact Hs.
Qed.

(** C2 fails after an automatic flush when the window loaded by an
    earlier read covers the cell: [save] refreshes [self.raster] but leaves
    [self.block] as it was, so the read that follows the write returns what
    the window held before, whatever was written. *)
Theorem stale_window_after_flush (h : Heap) (row col value : Z) :
  in_grid (self h) row col →
  outside_block (self h) row col = false →
  threshold (self h) < dictsize (store (self h) row col value) →
  snd (setValue row col value h) = Return tt →
  let h1 := fst (setValue row col value h) in
  ∃ ra,
    raster (self h1) = Some ra
    ∧ getValue row col h1
      = (h1,
         match block (self h)
               ≫= (λ b, ndarray_get b (row - yblock (self h)) (col - xblock (self h))) with
         | Some old =>
             Return (if old =? noDataValue ra then nodata (self h) else old)
         | None => Raise IndexError
         end).
Proof.
  intros [Hr Hc] Hout Hgt. rewrite setValue_unfold. cbv zeta.
  destruct (Z.ltb_spec (threshold (store (self h) row col value))
              (dictsize (store (self h) row col value))) as [_|Hle];
    [|change (threshold (store (self h) row col value)) with (threshold (self h)) in Hle;
      lia].
  pose proof (save_keeps_window (mkHeap (store (self h) row col value) (world h)))
    as (Kb & Kx & Ky & Kbs & Krl & Knd).
  destruct (save (mkHeap (store (self h) row col value) (world h)))
    as [h2 [[]|e]] eqn:Hsave;
    [rewrite (bind_Return _ _ _ _ _ Hsave)
    |rewrite (bind_Raise _ _ _ _ _ Hsave); intros Hd; discriminate Hd].
  cbn [fst snd self world] in *.
  assert (is_Some (raster (self h2))) as [ra Hra].
  { pose proof Hsave as Hsu. rewrite save_unfold in Hsu. cbv zeta in Hsu.
    destruct (save_tiles _ _ _) as [w3 [fl|e]]; [|discriminate].
    match type of Hsu with
    | save_finish ?s ?p ?fl ?h0 = _ =>
        pose proof (save_finish_sets_raster s p fl h0) as Hs
    end.
    rewrite Hsu in Hs. exact (Hs eq_refl). }
  intros _. cbv zeta. unfold update_self, modify. cbn [fst snd self world].
  exists ra. cbn [set_dict raster].
  split; [exact Hra|].
  change (block (store (self h) row col value)) with (block (self h)) in Kb.
  change (xblock (store (self h) row col value)) with (xblock (self h)) in Kx.
  change (yblock (store (self h) row col value)) with (yblock (self h)) in Ky.
  change (blocksize (store (self h) row col value)) with (blocksize (self h)) in Kbs.
  change (rasterlike (store (self h) row col value)) with (rasterlike (self h)) in Krl.
  change (nodata (store (self h) row col value)) with (nodata (self h)) in Knd.
  rewrite getValue_unfold.
  cbn [set_dict rasterlike dict raster nodata block xblock yblock].
  rewrite Krl.
  replace ((row <? 0) || (col <? 0) || (height (rasterlike (self h)) <=? row)
           || (width (rasterlike (self h)) <=? col)) with false.
  2:{ symmetry. rewrite !orb_false_iff, !Z.ltb_ge, !Z.leb_gt. lia. }
  unfold overlay_lookup at 1. rewrite lookup_empty. cbn [mbind option_bind].
  rewrite Hra.
  assert (outside_block (set_dict h2.(self) ∅ 0) row col = false) as ->.
  { unfold outside_block in *. cbn [block xblock yblock blocksize set_dict].
    rewrite Kb, Kx, Ky, Kbs. exact Hout. }
  cbv zeta. cbn [block xblock yblock nodata set_dict].
  rewrite Kb, Kx, Ky, Knd. reflexivity.
Qed.

Lemma stale_window_after_flush_witness :
  let h1 := fst (setValue 0 0 5 stale_heap) in
  snd (setValue 0 0 5 stale_heap) = Return tt
  ∧ (∃ out, rasters (world h1) !! "C:\dem" = Some out ∧ cells out 0 0 = 5)
  ∧ snd (getValue 0 0 h1) = Return 0.
Proof.
  intros h1.
  assert (snd (setValue 0 0 5 stale_heap) = Return tt) as Hret
    by (vm_compute; reflexivity).
  destruct (stale_window_after_flush stale_heap 0 0 5) as (ra & Hra & Hget);
    [change (0 <= 0 < 4 ∧ 0 <= 0 < 4); lia
    |vm_compute; reflexivity|vm_compute; reflexivity|exact Hret|].
  split; [exact Hret|]. split.
  - assert ((λ r, cells r 0 0) <$> rasters (world h1) !! "C:\dem" = Some 5) as Hc
      by (vm_compute; reflexivity).
    destruct (rasters (world h1) !! "C:\dem") as [out|]; [|discriminate Hc].
    exists out. split; [reflexivity|]. injection Hc as Hc. exact Hc.
  - fold h1 in Hget. rewrite Hget. cbn [snd].
    assert (noDataValue ra = -9999) as ->.
    { assert (noDataValue <$> raster (self h1) = Some (-9999)) as Hn
        by (vm_compute; reflexivity).
      fold h1 in Hra. rewrite Hra in Hn. injection Hn as Hn. exact Hn. }
    vm_compute. reflexivity.
Defined.

(** While an entry is in the overlay, a read inside the grid returns it:
    this covers the read that follows a buffered write, and the read that
    follows an explicit [save], which keeps the overlay. *)
Lemma getValue_from_overlay (h : Heap) (row col v : Z) :
  in_grid (self h) row col →
  overlay_lookup (dict (self h)) row col = Some v →
  getValue row col h = (h, Return v).
Proof.
  intros [Hr Hc] Hv. destruct h as [s w]. rewrite getValue_unfold.
  cbn [self] in *.
  replace ((row <? 0) || (col <? 0) || (height (rasterlike s) <=? row)
           || (width (rasterlike s) <=? col)) with false.
  2:{ symmetry. rewrite !orb_false_iff, !Z.ltb_ge, !Z.leb_gt. lia. }
  rewrite Hv. reflexivity.
Qed.

Lemma buffered_write_reads_back (h : Heap) (row col value : Z) :
  in_grid (self h) row col →
  dictsize (store (self h) row col value) <= threshold (self h) →
  getValue row col (fst (setValue row col value h))
  = (fst (setValue row col value h), Return value).
Proof.
  intros Hin Hle.
  destruct (setValue_trigger h row col value) as (_ & Hno & _).
  destruct (Hno Hle) as [-> _].
  apply getValue_from_overlay; [exact Hin|].
  cbn [self]. rewrite store_lookup. rewrite decide_True by auto. reflexivity.
Qed.

Lemma saved_write_reads_back (h : Heap) (row col v : Z) :
  in_grid (self h) row col →
  overlay_lookup (dict (self h)) row col = Some v →
  getValue row col (fst (save h)) = (fst (save h), Return v).
Proof.
  intros Hin Hv.
  assert (dict (self (fst (save h))) = dict (self h)
          ∧ rasterlike (self (fst (save h))) = rasterlike (self h)) as [Hd Hrl].
  { apply (keeps_apply (λ h', dict (self h') = dict (self h)
                              ∧ rasterlike (self h') = rasterlike (self h)));
      [|split; reflexivity].
    apply (save_keeps_self (λ s, dict s = dict (self h)
                                 ∧ rasterlike s = rasterlike (self h))).
    intros s ra dt Hs. exact Hs. }
  apply getValue_from_overlay.
  - unfold in_grid in *. rewrite Hrl. exact Hin.
  - rewrite Hd. exact Hv.
Qed.

(** * Further properties *)

(** ** The facade: matching and addressing *)

Lemma descriptors_differ_dec (a b : Raster) :
  descriptors_differ a b ∨ ¬ descriptors_differ a b.
Proof.
  unfold descriptors_differ.
  destruct (decide (width a = width b)); [|tauto].
  destruct (decide (height a = height b)); [|tauto].
  destruct (decide (thousandths (XMin (extent a)) = thousandths (XMin (extent b)))); [|tauto].
  destruct (decide (thousandths (YMin (extent a)) = thousandths (YMin (extent b)))); [|tauto].
  destruct (decide (thousandths (XMax (extent a)) = thousandths (XMax (extent b)))); [|tauto].
  destruct (decide (thousandths (YMax (extent a)) = thousandths (YMax (extent b)))); tauto.
Qed.

Lemma checkMatch_returns (s1 s2 : RasterIOfull) :
  checkMatch s1 s2 = Return tt ↔
  ∃ a b, raster s1 = Some a ∧ raster s2 = Some b ∧ ¬ descriptors_differ a b.
Proof.
  split.
  - intros H. destruct (raster s1) as [a|] eqn:Ha;
      [|unfold checkMatch in H; rewrite Ha in H; discriminate].
    destruct (raster s2) as [b|] eqn:Hb;
      [|unfold checkMatch in H; rewrite Ha, Hb in H; discriminate].
    exists a, b. split; [reflexivity|]. split; [reflexivity|].
    destruct (checkMatch_spec s1 s2 a b Ha Hb) as [Hd _].
    intros Hdd. rewrite (Hd Hdd) in H. discriminate.
  - intros (a & b & Ha & Hb & Hn). apply (checkMatch_spec s1 s2 a b Ha Hb). exact Hn.
Qed.

(** X1. Matching is an equivalence on instances that have a raster: an
    instance that has a raster matches itself, the outcome of the check does
    not depend on the order of the two instances, and two instances that
    each match a third one match each other. *)
Theorem checkMatch_equivalence (s1 s2 s3 : RasterIOfull) :
  (is_Some (raster s1) → checkMatch s1 s1 = Return tt)
  ∧ checkMatch s1 s2 = checkMatch s2 s1
  ∧ (checkMatch s1 s2 = Return tt → checkMatch s2 s3 = Return tt →
     checkMatch s1 s3 = Return tt).
Proof.
  split; [|split].
  - intros [a Ha]. apply checkMatch_returns. exists a, a.
    unfold descriptors_differ. tauto.
  - destruct (raster s1) as [a|] eqn:Ha, (raster s2) as [b|] eqn:Hb;
      try (unfold checkMatch; rewrite Ha, Hb; reflexivity).
    destruct (checkMatch_spec s1 s2 a b Ha Hb) as [Hd Hn].
    destruct (checkMatch_spec s2 s1 b a Hb Ha) as [Hd' Hn'].
    assert (descriptors_differ a b ↔ descriptors_differ b a) as Hsym.
    { unfold descriptors_differ. intuition congruence. }
    destruct (descriptors_differ_dec a b) as [H|H].
    + rewrite (Hd H), (Hd' (proj1 Hsym H)). reflexivity.
    + rewrite (Hn H), Hn'; [reflexivity|]. intros H'. apply H, Hsym, H'.
  - intros H12 H23.
    apply checkMatch_returns in H12 as (a & b & Ha & Hb & Hab).
    apply checkMatch_returns in H23 as (b' & c & Hb' & Hc & Hbc).
    rewrite Hb in Hb'. injection Hb' as <-.
    apply checkMatch_returns. exists a, c. split; [exact Ha|]. split; [exact Hc|].
    unfold descriptors_differ in *.
    destruct (decide (width a = width b)); [|tauto].
    destruct (decide (height a = height b)); [|tauto].
    destruct (decide (thousandths (XMin (extent a)) = thousandths (XMin (extent b)))); [|tauto].
    destruct (decide (thousandths (YMin (extent a)) = thousandths (YMin (extent b)))); [|tauto].
    destruct (decide (thousandths (XMax (extent a)) = thousandths (XMax (extent b)))); [|tauto].
    destruct (decide (thousandths (YMax (extent a)) = thousandths (YMax (extent b)))); [|tauto].
    intros Hac. apply Hbc. intuition congruence.
Qed.

(** X2. An instance created for a new output has no raster until its first
    flush, so a check that involves it, on either side, raises
    [AttributeError], whatever the other instance is. *)
Theorem checkMatch_before_first_save (bs : Z) (ra : Raster) (f : string)
    (dt : Dtype) (default : Z) (other : RasterIOfull) :
  checkMatch (init bs ra (Some f) dt default) other = Raise AttributeError
  ∧ checkMatch other (init bs ra (Some f) dt default) = Raise AttributeError.
Proof.
  unfold checkMatch. cbn [init raster]. destruct (raster other); split; reflexivity.
Qed.

Lemma Qfloor_bounds (q : Q) (n : Z) :
  (Qfloor q = n) ↔ (inject_Z n <= q < inject_Z n + 1)%Q.
Proof.
  split.
  - intros <-. split; [apply Qfloor_le|].
    pose proof (Qlt_floor q) as H. rewrite inject_Z_plus in H. exact H.
  - intros [H1 H2]. apply Qfloor_unique; assumption.
Qed.





(** ** Reads *)

Lemma in_grid_test (s : RasterIOfull) (row col : Z) :
  in_grid s row col →
  (row <? 0) || (col <? 0) || (height (rasterlike s) <=? row)
  || (width (rasterlike s) <=? col) = false.
Proof.
  intros [Hr Hc]. rewrite !orb_false_iff, !Z.ltb_ge, !Z.leb_gt. lia.
Qed.

Lemma getValue_no_raster (h : Heap) (row col : Z) :
  raster (self h) = None → in_grid (self h) row col →
  getValue row col h
  = (h, Return (default (nodata (self h))
                  (overlay_lookup (dict (self h)) row col))).
Proof.
  intros Hra Hin. destruct h as [s w]. cbn [self] in *.
  rewrite getValue_unfold, (in_grid_test s row col Hin), Hra.
  destruct (overlay_lookup (dict s) row col); reflexivity.
Qed.

(** X5. As long as the instance has no raster (a new output that has not
    been flushed yet), a read inside the grid returns the overlay entry of
    the cell, or the default value when there is none, and changes
    nothing. *)
Theorem getValue_without_raster (h : Heap) (row col : Z) :
  raster (self h) = None → in_grid (self h) row col →
  getValue row col h
  = (h, Return (default (nodata (self h))
                  (overlay_lookup (dict (self h)) row col))).
Proof. apply getValue_no_raster. Qed.

Lemma getValue_without_raster_witness :
  getValue 3 4 scenario_start = (scenario_start, Return (-255)).
Proof.
  apply (getValue_without_raster scenario_start 3 4); [reflexivity|].
  change (0 <= 3 < 10000 ∧ 0 <= 4 < 10000). lia.
Defined.

Lemma same_grid_refl (r : Raster) : same_grid r r.
Proof. unfold same_grid. repeat split; reflexivity. Qed.

Lemma base_value_translated (ra : Raster) (nd row col : Z) :
  (if base_value (Some ra) nd row col =? noDataValue ra
   then nd else base_value (Some ra) nd row col)
  = base_value (Some ra) nd row col.
Proof.
  unfold base_value. destruct (inside ra row col).
  - destruct (Z.eqb_spec (cells ra row col) (noDataValue ra)) as [He|Hne].
    + destruct (nd =? noDataValue ra); reflexivity.
    + destruct (Z.eqb_spec (cells ra row col) (noDataValue ra)); [contradiction|reflexivity].
  - destruct (nd =? noDataValue ra); reflexivity.
Qed.

(** What a fresh window holds for a cell of the grid it covers. *)
Lemma window_read (s : RasterIOfull) (ra : Raster) (row col : Z) :
  raster s = Some ra → georef_ok ra →
  width ra = width (rasterlike s) → height ra = height (rasterlike s) →
  window_fresh s → in_grid s row col → outside_block s row col = false →
  block s ≫= (λ b, ndarray_get b (row - yblock s) (col - xblock s))
  = Some (base_value (Some ra) (nodata s) row col).
Proof.
  intros Hra Hok Hw Hh Hfresh [Hr Hc] Hout.
  unfold outside_block, window_fresh in *. rewrite Hra in Hfresh.
  destruct (block s) as [b|]; [|discriminate].
  rewrite !orb_false_iff, !Z.ltb_ge, !Z.leb_gt in Hout.
  destruct Hout as [[[Hx1 Hx2] Hy1] Hy2].
  destruct Hfresh as (Hxb & Hyb & ->).
  destruct (window_origin ra ra (blocksize s) (xblock s) (yblock s) Hok
              (same_grid_refl ra)) as [Hc0 Hr0].
  cbn [mbind option_bind]. unfold ndarray_get, RasterToNumPyArray.
  cbn [shape item fst snd].
  rewrite !py_index_in_range by lia. rewrite Hc0, Hr0.
  replace (yblock s + (row - yblock s)) with row by lia.
  replace (xblock s + (col - xblock s)) with col by lia.
  reflexivity.
Qed.

Lemma load_block_fresh (s : RasterIOfull) (ra : Raster) (row col : Z) :
  raster s = Some ra → window_fresh (load_block s ra row col).
Proof.
  intros Hra. unfold window_fresh, load_block.
  cbn [set_window block raster xblock yblock blocksize nodata]. rewrite Hra.
  split; [apply Z.le_max_l|]. split; [apply Z.le_max_l|]. reflexivity.
Qed.

Lemma load_block_covers (s : RasterIOfull) (ra : Raster) (row col : Z) :
  0 < blocksize s → 0 <= row → 0 <= col →
  outside_block (load_block s ra row col) row col = false.
Proof.
  intros Hbs Hr Hc. unfold outside_block, load_block.
  cbn [set_window block xblock yblock blocksize].
  pose proof (Z.div_lt (blocksize s) 2 Hbs ltac:(lia)).
  pose proof (Z.div_pos (blocksize s) 2 ltac:(lia) ltac:(lia)).
  rewrite !orb_false_iff, !Z.ltb_ge, !Z.leb_gt. lia.
Qed.

(** A read of a cell that has no overlay entry, on an instance that has a
    raster of the size of the grid. *)
Lemma getValue_through_window (s : RasterIOfull) (w : World) (ra : Raster)
    (row col : Z) :
  raster s = Some ra → georef_ok ra →
  width ra = width (rasterlike s) → height ra = height (rasterlike s) →
  0 < blocksize s → window_fresh s ∨ outside_block s row col = true →
  in_grid s row col → overlay_lookup (dict s) row col = None →
  let s' := if outside_block s row col then load_block s ra row col else s in
  getValue row col (mkHeap s w)
  = (mkHeap s' w, Return (base_value (Some ra) (nodata s) row col))
  ∧ window_fresh s' ∧ outside_block s' row col = false.
Proof.
  intros Hra Hok Hw Hh Hbs Hfresh Hin Hov s'.
  assert (raster s' = Some ra ∧ rasterlike s' = rasterlike s
          ∧ nodata s' = nodata s) as (Hra' & Hrl' & Hnd').
  { subst s'. destruct (outside_block s row col); auto. }
  assert (window_fresh s' ∧ outside_block s' row col = false) as [Hf' Ho'].
  { subst s'. destruct (outside_block s row col) eqn:Ho.
    - split; [apply load_block_fresh; exact Hra|].
      destruct Hin. apply load_block_covers; lia.
    - split; [|exact Ho]. destruct Hfresh as [?|?]; [assumption|discriminate]. }
  split; [|split; assumption].
  rewrite getValue_unfold, (in_grid_test s row col Hin), Hov, Hra. cbv zeta.
  fold s'.
  rewrite (window_read s' ra row col Hra' Hok); try assumption.
  - rewrite Hnd', base_value_translated. reflexivity.
  - rewrite Hrl'. exact Hw.
  - rewrite Hrl'. exact Hh.
  - unfold in_grid. rewrite Hrl'. exact Hin.
Qed.

(** X6. On an instance whose raster is consistently georeferenced and has
    the size of the grid, and whose window, if any, was loaded from that
    raster, a read of a cell of the grid that has no overlay entry returns
    the value of the cell in the raster, NoData being read as the instance's
    [nodata].  It never raises: the window it reads from, loaded by this
    call if the one in place did not cover the cell, covers the cell and is
    again one loaded from the raster. *)
Theorem getValue_reads_raster (s : RasterIOfull) (w : World) (ra : Raster)
    (row col : Z) :
  raster s = Some ra → georef_ok ra →
  width ra = width (rasterlike s) → height ra = height (rasterlike s) →
  0 < blocksize s → window_fresh s →
  in_grid s row col → overlay_lookup (dict s) row col = None →
  let s' := if outside_block s row col then load_block s ra row col else s in
  getValue row col (mkHeap s w)
  = (mkHeap s' w, Return (base_value (Some ra) (nodata s) row col))
  ∧ window_fresh s' ∧ outside_block s' row col = false.
Proof.
  intros Hra Hok Hw Hh Hbs Hfresh. apply getValue_through_window; auto.
Qed.

Lemma getValue_reads_raster_witness :
  let dem := flat_raster "C:\dem" 10 10 3 in
  let s := init default_blocksize dem None py_int 0 in
  let w := world_with quiet_env [dem] in
  let s' := if outside_block s 2 5 then load_block s dem 2 5 else s in
  getValue 2 5 (mkHeap s w)
  = (mkHeap s' w, Return (base_value (Some dem) (nodata s) 2 5))
  ∧ window_fresh s' ∧ outside_block s' 2 5 = false.
Proof.
  intros dem s w.
  apply (getValue_reads_raster s w dem 2 5);
    [reflexivity|apply flat_raster_georef_ok|reflexivity|reflexivity|reflexivity
    |exact Logic.I|change (0 <= 2 < 10 ∧ 0 <= 5 < 10); lia|reflexivity].
Defined.

Lemma getValue_frame (h : Heap) (row col : Z) :
  let h' := fst (getValue row col h) in
  world h' = world h
  ∧ dict (self h') = dict (self h) ∧ dictsize (self h') = dictsize (self h)
  ∧ raster (self h') = raster (self h) ∧ rasterlike (self h') = rasterlike (self h)
  ∧ nodata (self h') = nodata (self h) ∧ fileout (self h') = fileout (self h)
  ∧ dtype (self h') = dtype (self h) ∧ blocksize (self h') = blocksize (self h).
Proof.
  destruct h as [s w]. cbv zeta. rewrite getValue_unfold.
  destruct (_ || _); [repeat split|].
  destruct (overlay_lookup (dict s) row col); [repeat split|].
  destruct (raster s) as [ra|] eqn:Hra; [|cbn [fst self world]; rewrite Hra; repeat split].
  cbv zeta. cbn [fst self world].
  destruct (outside_block s row col); cbn; rewrite ?Hra; repeat split.
Qed.

(** X7. A read changes nothing but the window: the world, the overlay and
    its counter, the raster and the other attributes of the instance are
    after the call what they were before, whatever the call returns or
    raises. *)
Theorem getValue_only_moves_window (h : Heap) (row col : Z) :
  let h' := fst (getValue row col h) in
  world h' = world h
  ∧ dict (self h') = dict (self h) ∧ dictsize (self h') = dictsize (self h)
  ∧ raster (self h') = raster (self h) ∧ rasterlike (self h') = rasterlike (self h)
  ∧ nodata (self h') = nodata (self h) ∧ fileout (self h') = fileout (self h)
  ∧ dtype (self h') = dtype (self h) ∧ blocksize (self h') = blocksize (self h).
Proof. exact (getValue_frame h row col). Qed.

(** ** Flushes *)

Lemma flush_ready_workers (h : Heap) (rlf : Raster) (raf : option Raster) :
  flush_ready h rlf raf →
  workers_ready h rlf raf ∧ ∀ t, tool_error (env (world h)) t = false.
Proof.
  intros (H1 & H2 & H3 & [H4 H4'] & H5). split; [|exact H4'].
  unfold workers_ready. auto.
Qed.

(** The loops of a flush whose workers all succeed. *)
Lemma workers_run (h : Heap) (rlf : Raster) (raf : option Raster) :
  workers_ready h rlf raf →
  let s := self h in
  let w := world h in
  let e := env w in
  let p := pickle_path e (drawn w) in
  let fl := temp_path e <$> seq (S (drawn w)) (length (tile_origins s)) in
  ∃ w3 p0 ps,
    save_tiles s p (pickled w (dict s)) = (w3, Return fl)
    ∧ flush_tiles s p e (S (drawn w)) rlf raf = p0 :: ps
    ∧ fst p0 = (0, 0)
    ∧ Forall2 (λ f t, rasters w3 !! f = Some t) fl (snd p0 :: (snd <$> ps))
    ∧ Forall (λ f, f ≠ fileout s) fl
    ∧ env w3 = e
    ∧ pickles w3 = <[p := dict s]> (pickles w)
    ∧ drawn w3 = (S (drawn w) + length (tile_origins s))%nat
    ∧ (∀ f, (∀ k, f ≠ temp_path e k) → rasters w3 !! f = rasters w !! f).
Proof.
  intros (Hbs & Hw & Hh & Hnc & Hinj & Hrl & Hfo & Hra & Hrlf & Hok & Ew & Eh
          & Hop & Hgrid & Hdt).
  cbv zeta.
  set (s := self h) in *. set (w := world h) in *. set (e := env w) in *.
  set (p := pickle_path e (drawn w)).
  assert (ready_world s p e (dict s) rlf raf (pickled w (dict s))) as Hready.
  { repeat split; auto. unfold pickled. cbn [pickles with_pickles]. fold e p.
    apply lookup_insert_eq. }
  assert (Forall (tile_fits s rlf) (tile_origins s)) as Hfits.
  { apply Forall_forall. intros xy Hxy.
    destruct (tile_origin_bounds s rlf) with (xy := xy); auto. unfold tile_fits. lia. }
  rewrite save_tiles_flat.
  destruct (save_tiles_run s p e (dict s) rlf raf Hnc Hinj Hrl Hra Hdt
              (tile_origins s) [] (pickled w (dict s)) Hready Hfits)
    as (w3 & -> & Hready3 & Hp3 & Hd3 & Hk3 & Hf3).
  cbn [app drawn pickled with_pickles draw pickles] in *.
  destruct Hready3 as (He3 & Hpk3 & _).
  destruct (flush_tiles_head s p e (S (drawn w)) rlf raf) as (p0 & ps & Hpts & Hp0); auto.
  exists w3, p0, ps. split; [reflexivity|]. split; [exact Hpts|]. split; [exact Hp0|].
  split; [|split; [|split; [|split; [|split]]]].
  - change (snd p0 :: (snd <$> ps)) with (snd <$> (p0 :: ps)). rewrite <- Hpts.
    apply Forall2_same_length_lookup. split.
    + unfold flush_tiles. rewrite !length_fmap, length_seq, length_imap. reflexivity.
    + intros i f t Hf Ht. rewrite list_lookup_fmap in Hf. rewrite list_lookup_fmap in Ht.
      destruct (flush_tiles s p e (S (drawn w)) rlf raf !! i) as [xt|] eqn:Hxt;
        [|discriminate].
      injection Ht as <-.
      apply flush_tiles_lookup in Hxt as [Ho ->].
      destruct (seq (S (drawn w)) (length (tile_origins s)) !! i) as [n|] eqn:Hn;
        [|discriminate].
      injection Hf as <-. apply lookup_seq in Hn as [-> _].
      apply Hk3. exact Ho.
  - apply Forall_forall. intros f Hf. apply list_elem_of_fmap in Hf as (n & -> & _).
    apply Hfo.
  - exact He3.
  - exact Hp3.
  - lia.
  - intros f Hf. apply Hf3. intros k _. apply Hf.
Qed.

Lemma georef_ok_same_grid (a b : Raster) :
  same_grid a b → georef_ok b → georef_ok a.
Proof.
  intros (Hw & Hh & E1 & E2 & E3 & E4 & E5 & E6) (Hcw & Hch & HX & HY).
  unfold georef_ok. rewrite Hw, Hh.
  split; [lra|]. split; [lra|].
  split; [rewrite E3, E1, E5; exact HX|rewrite E4, E2, E6; exact HY].
Qed.

(** A flush that succeeds, with the raster it leaves at the output path. *)
Lemma save_output (h : Heap) (rlf : Raster) (raf : option Raster) :
  flush_ready h rlf raf →
  ∃ out w',
    save h
    = (mkHeap (set_raster (self h) out (dtype_of_pixelType (pixelType out))) w',
       Return tt)
    ∧ env w' = env (world h)
    ∧ rasters w' !! fileout (self h) = Some out
    ∧ catalogPath out = fileout (self h)
    ∧ width out = width (rasterlike (self h))
    ∧ height out = height (rasterlike (self h))
    ∧ same_grid out rlf
    ∧ georef_ok out
    ∧ noDataValue out = nodata (self h)
    ∧ (∀ row col, in_grid (self h) row col →
         cells out row col = flush_value raf (self h) row col)
    ∧ (∀ f, (∀ k, f ≠ temp_path (env (world h)) k) → f ≠ fileout (self h) →
         rasters w' !! f = rasters (world h) !! f).
Proof.
  intros Hready.
  destruct (flush_ready_workers h rlf raf Hready) as [Hwr Hte].
  pose proof Hwr as (Hbs & Hw & Hh & Hnc & Hinj & Hrl & Hfo & Hra & Hrlf & Hok & Ew & Eh
          & Hop & Hgrid & Hdt).
  destruct (workers_run h rlf raf Hwr) as (w3 & p0 & ps & Hrun3 & Hpts & Hp0 & Hfl & Hne
          & He3 & Hp3 & Hd3 & Hf3).
  set (s := self h) in *. set (w := world h) in *. set (e := env w) in *.
  set (p := pickle_path e (drawn w)) in *.
  rewrite save_unfold. cbv zeta. fold s w e p. rewrite Hrun3.
  destruct (save_finish_run s p _ (snd p0) (snd <$> ps) w3
              ltac:(rewrite He3; exact Hte)
              ltac:(rewrite Hp3, lookup_insert_eq; eauto) Hfl Hne)
    as (w' & Hrun & E1 & E2 & E3 & E4 & E5 & E6).
  assert (Hplaced := flush_tiles_placed s p e (S (drawn w)) rlf raf).
  assert (Hreach := flush_tiles_reach s p e (S (drawn w)) rlf raf).
  repeat match type of Hplaced with _ → _ => specialize (Hplaced ltac:(assumption)) end.
  repeat match type of Hreach with _ → _ => specialize (Hreach ltac:(assumption)) end.
  rewrite Hpts in Hplaced, Hreach.
  destruct (output_size rlf p0 ps Hok Hplaced Hp0 Hreach) as (Ow & Oh & Og & On).
  assert (noDataValue (snd p0) = nodata s) as Hnd.
  { assert (p0 ∈ flush_tiles s p e (S (drawn w)) rlf raf) as Hin
      by (rewrite Hpts; left).
    apply flush_tiles_elem in Hin as (k & _ & ->).
    destruct (worker_tile_fields rlf raf (dict s) (tile_args s p e k (fst p0)))
      as (_ & _ & _ & _ & _ & _ & -> & _). reflexivity. }
  exists (set_path (output_of (snd p0) (snd <$> ps)) (fileout s)), w'.
  split; [exact Hrun|]. split; [congruence|].
  split; [exact E4|]. split; [reflexivity|].
  split; [cbn; lia|]. split; [cbn; lia|]. split; [exact Og|].
  split; [exact (georef_ok_same_grid _ rlf Og Hok)|].
  split; [cbn [noDataValue set_path]; congruence|]. split.
  - intros row col Hin. cbn [cells set_path].
    apply (output_cells rlf p0 ps Hok Hplaced Hp0 Hreach).
    + intros xt Hxt. rewrite <- Hpts in Hxt.
      apply flush_tiles_cells with (p := p) (e := e) (d0 := S (drawn w)) (rlf := rlf); auto.
    + rewrite <- Hpts.
      apply flush_tiles_cover; auto.
  - intros f Hf Hfo'. rewrite E6; [|clear E6|exact Hfo'].
    + apply Hf3. exact Hf.
    + intros Hin. apply list_elem_of_fmap in Hin as (n & -> & _). by apply (Hf n).
Qed.

(** ** What a flush builds on *)

Lemma base_value_own (ra : Raster) (nd row col : Z) :
  noDataValue ra = nd → inside ra row col = true →
  base_value (Some ra) nd row col = cells ra row col.
Proof.
  intros Hnd Hin. unfold base_value. rewrite Hin.
  destruct (Z.eqb_spec (cells ra row col) (noDataValue ra)); congruence.
Qed.

Lemma in_grid_inside (s : RasterIOfull) (ra : Raster) (row col : Z) :
  width ra = width (rasterlike s) → height ra = height (rasterlike s) →
  in_grid s row col → inside ra row col = true.
Proof.
  intros Hw Hh [Hr Hc]. unfold inside.
  rewrite !andb_true_iff, !Z.leb_le, !Z.ltb_lt. lia.
Qed.

(** After a flush that succeeded, the instance, whatever its overlay is
    made to be, is fit for the next flush, which starts from the file just
    written. *)
Lemma save_then_ready (h : Heap) (rlf : Raster) (raf : option Raster) :
  flush_ready h rlf raf →
  ∃ out w' rlf',
    save h
    = (mkHeap (set_raster (self h) out (dtype_of_pixelType (pixelType out))) w',
       Return tt)
    ∧ rasters w' !! fileout (self h) = Some out
    ∧ width out = width (rasterlike (self h))
    ∧ height out = height (rasterlike (self h))
    ∧ georef_ok out
    ∧ noDataValue out = nodata (self h)
    ∧ (∀ row col, in_grid (self h) row col →
         cells out row col = flush_value raf (self h) row col)
    ∧ ∀ d' n',
        flush_ready
          (mkHeap (set_dict (set_raster (self h) out
                               (dtype_of_pixelType (pixelType out))) d' n') w')
          rlf' (Some out).
Proof.
  intros Hready.
  destruct (save_output h rlf raf Hready)
    as (out & w' & Hrun & He & Hout & Hpath & Ow & Oh & Og & Ook & Ond & Hcells & Hframe).
  destruct Hready as (Hbs & Hw & Hh & Hnf & Hinj & Hrl & Hfo & Hra & Hrlf & Hok & Ew & Eh
          & Hop & Hgrid & Hdt).
  exists out, w',
    (if decide (catalogPath (rasterlike (self h)) = fileout (self h)) then out else rlf).
  split; [exact Hrun|]. split; [exact Hout|]. split; [exact Ow|]. split; [exact Oh|].
  split; [exact Ook|]. split; [exact Ond|]. split; [exact Hcells|].
  intros d' n'. unfold flush_ready.
  cbn [self world set_dict set_raster blocksize rasterlike fileout raster dtype].
  rewrite He.
  split; [exact Hbs|]. split; [exact Hw|]. split; [exact Hh|]. split; [exact Hnf|].
  split; [exact Hinj|]. split; [exact Hrl|]. split; [exact Hfo|].
  split; [intros ra [= <-]; rewrite Hpath; exact Hfo|].
  destruct (decide (catalogPath (rasterlike (self h)) = fileout (self h))) as [Heq|Hne].
  - split; [rewrite Heq; exact Hout|]. split; [exact Ook|].
    split; [exact Ow|]. split; [exact Oh|].
    split; [cbn [fmap option_fmap option_map opened]; rewrite Hpath; exact Hout|].
    split; [intros ra [= <-]; apply same_grid_refl|].
    intros Hnone. discriminate Hnone.
  - split; [rewrite Hframe; [exact Hrlf|intros k Hk; exact (Hrl k (eq_sym Hk))|exact Hne]|].
    split; [exact Hok|]. split; [exact Ew|]. split; [exact Eh|].
    split; [cbn [fmap option_fmap option_map opened]; rewrite Hpath; exact Hout|].
    split; [intros ra [= <-]; exact Og|].
    intros Hnone. discriminate Hnone.
Qed.




Lemma unread_ready : flush_ready unread_heap (flat_raster "C:\dem" 4 4 0)
                       (Some (flat_raster "C:\dem" 4 4 0)).
Proof.
  assert (env (world unread_heap) = quiet_env) as He by reflexivity.
  unfold flush_ready. rewrite He.
  split; [reflexivity|]. split; [reflexivity|]. split; [reflexivity|].
  split; [split; reflexivity|].
  split; [intros n m; apply pretty_temp_inj|].
  split; [apply quiet_env_never_temporary; intros rest; discriminate|].
  split; [apply quiet_env_never_temporary; intros rest; discriminate|].
  split; [intros ra [= <-]; apply quiet_env_never_temporary; intros rest; discriminate|].
  split; [reflexivity|].
  split; [apply flat_raster_georef_ok|].
  split; [reflexivity|]. split; [reflexivity|].
  split; [reflexivity|].
  split; [intros ra [= <-]; apply same_grid_refl|].
  intros Hnone. discriminate Hnone.
Qed.




(** ** What a flush leaves alone *)

Lemma open_all_world (ps : list string) (w : World) : fst (open_all ps w) = w.
Proof.
  induction ps as [|p ps IH]; [reflexivity|]. cbn [open_all].
  destruct (rasters w !! p) as [r|]; [|reflexivity]. unfold bind.
  destruct (open_all ps w) as [w1 [rs|e]]; exact IH.
Qed.

Lemma assemble_frame (fl : list string) (out f : string) :
  f ≠ out →
  ∀ r0, keeps (λ w, rasters w !! f = r0) (assemble fl out).
Proof.
  intros Hne r0 w Hw. unfold assemble.
  destruct (1 <? Z.of_nat (length fl)); destruct fl as [|f0 fl']; try exact Hw.
  - unfold bind, arcpy_Raster. destruct (rasters w !! f0) as [t0|]; [|exact Hw].
    unfold mosaic_tool. destruct (pixel_of_label _) as [pt|]; [|exact Hw].
    unfold arcpy_MosaicToNewRaster, bind.
    pose proof (open_all_world (f0 :: fl') w) as Ho.
    destruct (open_all (f0 :: fl') w) as [w1 [rs|e]]; cbn [fst] in Ho; subst w1;
      [|exact Hw].
    destruct rs as [|first others]; [exact Hw|].
    destruct (tool_error (env w) MosaicToNewRaster_management); [exact Hw|].
    cbn. rewrite lookup_insert_ne by auto. exact Hw.
  - unfold arcpy_Copy. destruct (rasters w !! f0) as [t0|]; [|exact Hw].
    destruct (tool_error (env w) Copy_management); [exact Hw|].
    cbn. rewrite lookup_insert_ne by auto. exact Hw.
Qed.

Lemma save_finish_frame (s : RasterIOfull) (p : string) (fl : list string)
    (f : string) (r0 : option Raster) :
  f ∉ fl → f ≠ fileout s →
  keeps (λ h, rasters (world h) !! f = r0) (save_finish s p fl).
Proof.
  intros Hfl Hne. unfold save_finish.
  apply keeps_bind.
  { apply keeps_world_in_world with (I := λ w, rasters w !! f = r0).
    intros w Hw. unfold os_remove. destruct (pickles w !! p); exact Hw. }
  intros _. apply keeps_bind.
  { apply keeps_world_in_world with (I := λ w, rasters w !! f = r0).
    intros w Hw. exact Hw. }
  intros found. apply keeps_bind.
  { destruct found; [|apply keeps_ret].
    apply keeps_world_in_world with (I := λ w, rasters w !! f = r0).
    intros w Hw. unfold arcpy_Delete, run_tool.
    destruct (tool_error _ _); [exact Hw|]. cbn.
    rewrite lookup_delete_ne by auto. exact Hw. }
  intros _. apply keeps_bind.
  { apply keeps_world_in_world with (I := λ w, rasters w !! f = r0).
    apply assemble_frame. exact Hne. }
  intros _. apply keeps_bind.
  { apply keeps_world_in_world with (I := λ w, rasters w !! f = r0).
    intros w Hw.
    destruct (remove_temporaries_effect fl w) as (_ & _ & _ & Hk & _).
    rewrite (Hk f Hfl). exact Hw. }
  intros _. apply keeps_bind.
  { apply keeps_world_in_world with (I := λ w, rasters w !! f = r0).
    intros w Hw. unfold arcpy_Raster. destruct (rasters w !! fileout s); exact Hw. }
  intros ra. apply keeps_bind.
  { intros h Hh. exact Hh. }
  intros _.
  apply keeps_world_in_world with (I := λ w, rasters w !! f = r0).
  intros w Hw. unfold run_tool. destruct (tool_error _ _); exact Hw.
Qed.

(** X11. Whatever its outcome, [save] neither writes, replaces nor deletes
    a raster file other than the output file and the temporary tiles: every
    other path holds after the call what it held before. *)
Theorem save_leaves_other_files (h : Heap) (f : string) :
  never_temporary (env (world h)) f → f ≠ fileout (self h) →
  rasters (world (fst (save h))) !! f = rasters (world h) !! f.
Proof.
  intros Htemp Hne. rewrite save_unfold. cbv zeta.
  set (p := pickle_path (env (world h)) (drawn (world h))).
  pose proof (save_tiles_frame (self h) p f (env (world h))
                (rasters (world h) !! f)
                (<[p := dict (self h)]> (pickles (world h)))
                Htemp (pickled (world h) (dict (self h)))
                ltac:(repeat split)) as (He & _ & Hf).
  pose proof (save_tiles_names (self h) p (pickled (world h) (dict (self h))))
    as (_ & _ & _ & Hnames).
  destruct (save_tiles _ _ _) as [w3 [fl|e]]; cbn [fst snd] in *; [|exact Hf].
  apply (keeps_apply _ _ (mkHeap (self h) w3)
           (save_finish_frame (self h) p fl f (rasters (world h) !! f)
              ltac:(rewrite (Hnames fl eq_refl); intros Hin;
                    apply list_elem_of_fmap in Hin as (n & -> & _);
                    exact (Htemp n eq_refl)) Hne)).
  exact Hf.
Qed.

Lemma save_leaves_other_files_witness :
  rasters (world (fst (save scenario_heap))) !! "C:\dem"
  = rasters (world scenario_heap) !! "C:\dem".
Proof.
  apply (save_leaves_other_files scenario_heap "C:\dem").
  - apply quiet_env_never_temporary. intros rest. discriminate.
  - discriminate.
Defined.

(** ** A flush whose tiles cannot be assembled *)

Lemma assemble_fails (fl : list string) (t0 : Raster) (rest : list Raster)
    (out : string) (w : World) :
  Forall2 (λ f t, rasters w !! f = Some t) fl (t0 :: rest) →
  tool_error (env w)
    (if 1 <? Z.of_nat (length fl)
     then MosaicToNewRaster_management else Copy_management) = true →
  assemble fl out w = (w, Raise ExecuteError).
Proof.
  intros Hfl Hte. unfold assemble.
  pose proof (open_all_found _ _ _ Hfl) as Hopen.
  destruct fl as [|f0 fl']; [inversion Hfl|].
  apply Forall2_cons in Hfl as [Hf0 Hfl].
  destruct (1 <? Z.of_nat (length (f0 :: fl'))).
  - rewrite (bind_Return _ _ w w t0) by (unfold arcpy_Raster; rewrite Hf0; reflexivity).
    unfold mosaic_tool. rewrite pixel_of_label_rastertype.
    unfold arcpy_MosaicToNewRaster. rewrite (bind_Return _ _ _ _ _ Hopen).
    rewrite Hte. reflexivity.
  - unfold arcpy_Copy. rewrite Hf0, Hte. reflexivity.
Qed.



(** ** The tile worker *)

(** X13. A worker changes nothing but the file of its tile: the
    environment, the pickle files and every other raster file are after the
    run what they were before, and a worker that fails has written
    nothing. *)
Theorem worker_writes_one_file (args : Args) (w : World) :
  let w' := fst (main args w) in
  env w' = env w ∧ pickles w' = pickles w ∧ drawn w' = drawn w
  ∧ (∀ f, f ≠ arg_blockname args → rasters w' !! f = rasters w !! f)
  ∧ (∀ e, snd (main args w) = Raise e → w' = w).
Proof.
  cbv zeta. destruct (main_effect args w) as [[e ->]|[t ->]]; cbn [fst snd].
  - repeat split; reflexivity.
  - split; [reflexivity|]. split; [reflexivity|]. split; [reflexivity|].
    split; [|intros e He; discriminate He].
    intros f Hf. cbn. apply lookup_insert_ne. auto.
Qed.

(** X14. What makes a worker fail, in the order it meets it: a model
    raster that cannot be opened ([RuntimeError]); a backing raster that
    cannot be opened ([RuntimeError]); with no backing raster, a data type
    that is neither ["int"] nor ["float"] ([NameError], the variable [dtype]
    being unbound); a pickle file that cannot be read ([IOError]). *)
Theorem worker_failures (args : Args) (w : World) (rlf : Raster) :
  (rasters w !! arg_rasterlike args = None → main args w = (w, Raise RuntimeError))
  ∧ (rasters w !! arg_rasterlike args = Some rlf →
     (∀ p, arg_raster args = Some p → rasters w !! p = None →
        main args w = (w, Raise RuntimeError))
     ∧ (arg_raster args = None →
        arg_dtypename args ≠ "int" → arg_dtypename args ≠ "float" →
        main args w = (w, Raise NameError))
     ∧ (opened w (arg_raster args) None ∨ (∃ ra, opened w (arg_raster args) (Some ra)) →
        (arg_raster args = None →
         arg_dtypename args = "int" ∨ arg_dtypename args = "float") →
        arg_x args <= Z.min (arg_x args + arg_blocksize args) (width rlf) →
        arg_y args <= Z.min (arg_y args + arg_blocksize args) (height rlf) →
        pickles w !! arg_pickledict args = None →
        main args w = (w, Raise IOError))).
Proof.
  split; [|intros Hrl; split; [|split]].
  - intros Hrl. unfold main, bind, arcpy_Raster. rewrite Hrl. reflexivity.
  - intros p Hp Hnone. unfold main.
    rewrite (bind_Return _ _ w w rlf) by (unfold arcpy_Raster; rewrite Hrl; reflexivity).
    rewrite Hp. unfold bind, arcpy_Raster. rewrite Hnone. reflexivity.
  - intros Hra Hint Hfloat. unfold main.
    rewrite (bind_Return _ _ w w rlf) by (unfold arcpy_Raster; rewrite Hrl; reflexivity).
    rewrite Hra. rewrite (bind_Return _ _ w w None) by reflexivity. cbv zeta.
    apply String.eqb_neq in Hint, Hfloat. rewrite Hint, Hfloat. reflexivity.
  - intros Hop Hdt Hx Hy Hpk. unfold main.
    rewrite (bind_Return _ _ w w rlf) by (unfold arcpy_Raster; rewrite Hrl; reflexivity).
    assert (∃ raf, opened w (arg_raster args) raf) as [raf Hraf]
      by (destruct Hop as [?|[ra ?]]; eauto).
    rewrite (bind_Return _ _ w w raf).
    2:{ unfold opened in Hraf. destruct (arg_raster args) as [p|], raf as [ra|]; try done.
        unfold bind, arcpy_Raster. rewrite Hraf. reflexivity. }
    cbv zeta.
    rewrite (bind_Return _ _ w w (base_array rlf raf args)).
    2:{ unfold base_array. destruct raf as [ra|]; [reflexivity|].
        assert (arg_raster args = None) as Hnone
          by (unfold opened in Hraf; destruct (arg_raster args); [contradiction|reflexivity]).
        destruct (Hdt Hnone) as [E|E]; rewrite E; cbn [String.eqb Ascii.eqb Bool.eqb];
          unfold bind, ret.
        - destruct (Z.ltb_spec (Z.min (arg_y args + arg_blocksize args) (height rlf) - arg_y args) 0); [lia|].
          destruct (Z.ltb_spec (Z.min (arg_x args + arg_blocksize args) (width rlf) - arg_x args) 0); [lia|].
          reflexivity.
        - destruct (Z.ltb_spec (Z.min (arg_y args + arg_blocksize args) (height rlf) - arg_y args) 0); [lia|].
          destruct (Z.ltb_spec (Z.min (arg_x args + arg_blocksize args) (width rlf) - arg_x args) 0); [lia|].
          reflexivity. }
    unfold bind, pickle_load. rewrite Hpk. reflexivity.
Qed.



(** ** A data type the worker does not know *)

Lemma main_unknown_dtype (args : Args) (w : World) :
  arg_raster args = None →
  arg_dtypename args ≠ "int" → arg_dtypename args ≠ "float" →
  ∃ e, main args w = (w, Raise e).
Proof.
  intros Hra Hint Hfloat. unfold main, bind at 1, arcpy_Raster.
  destruct (rasters w !! arg_rasterlike args) as [rlf|]; [|eauto].
  rewrite Hra. rewrite (bind_Return _ _ w w None) by reflexivity. cbv zeta.
  apply String.eqb_neq in Hint, Hfloat. rewrite Hint, Hfloat. eauto.
Qed.

(** X16. An output created with a data type other than [int] and [float]
    cannot be flushed.  On such an instance, still without raster, with a
    grid that is not empty, [save] raises [CalledProcessError] at the first
    tile: the instance stays as it was, and no file other than a temporary
    tile, the output in particular, is touched. *)
Theorem unknown_dtype_cannot_flush (h : Heap) :
  raster (self h) = None → dtype (self h) = py_bool →
  0 < blocksize (self h) →
  0 < width (rasterlike (self h)) → 0 < height (rasterlike (self h)) →
  snd (save h) = Raise CalledProcessError
  ∧ self (fst (save h)) = self h
  ∧ (never_temporary (env (world h)) (fileout (self h)) →
     rasters (world (fst (save h))) !! fileout (self h)
     = rasters (world h) !! fileout (self h)).
Proof.
  intros Hra Hdt Hbs Hw Hh. rewrite save_unfold. cbv zeta.
  set (p := pickle_path (env (world h)) (drawn (world h))).
  set (w0 := pickled (world h) (dict (self h))).
  assert (snd (save_tiles (self h) p w0) = Raise CalledProcessError) as Hraise.
  { rewrite save_tiles_flat.
    destruct (tile_origins_head (self h) Hbs Hw Hh) as (rest & ->).
    cbn [for_acc fst snd]. unfold bind. rewrite save_tile_unfold.
    match goal with |- context [check_call ?a ?w1] =>
      destruct (check_call_effect a w1) as [->|(t & _ & _ & Hmain)];
        [reflexivity|exfalso];
      destruct (main_unknown_dtype a w1) as [e He]
    end.
    - cbn [arg_raster]. rewrite Hra. reflexivity.
    - cbn [arg_dtypename]. rewrite Hdt. discriminate.
    - cbn [arg_dtypename]. rewrite Hdt. discriminate.
    - rewrite He in Hmain. discriminate Hmain. }
  destruct (save_tiles (self h) p w0) as [w3 [fl|e]] eqn:Htiles; cbn [snd] in Hraise;
    [discriminate Hraise|]. injection Hraise as ->.
  cbn [fst snd self world]. split; [reflexivity|]. split; [reflexivity|].
  intros Hfresh.
  pose proof (save_tiles_frame (self h) p (fileout (self h)) (env (world h))
                (rasters (world h) !! fileout (self h))
                (<[p := dict (self h)]> (pickles (world h)))
                Hfresh w0 ltac:(repeat split)) as (_ & _ & Hf).
  rewrite Htiles in Hf. exact Hf.
Qed.

Lemma unknown_dtype_cannot_flush_witness :
  snd (save bool_output_heap) = Raise CalledProcessError
  ∧ self (fst (save bool_output_heap)) = self bool_output_heap
  ∧ (never_temporary (env (world bool_output_heap)) (fileout (self bool_output_heap)) →
     rasters (world (fst (save bool_output_heap))) !! fileout (self bool_output_heap)
     = rasters (world bool_output_heap) !! fileout (self bool_output_heap)).
Proof.
  apply (unknown_dtype_cannot_flush bool_output_heap); reflexivity.
Defined.

(** ** The tiles of the grid *)

Lemma py_range_NoDup (stop step : Z) : NoDup (py_range stop step).
Proof.
  unfold py_range. destruct (Z.ltb_spec 0 step) as [Hs|]; [|constructor].
  apply NoDup_fmap_2; [|apply NoDup_seq].
  intros i j Hij. nia.
Qed.

(** X17. The loops of [save] cut the grid into tiles that do not overlap:
    no tile is visited twice, and each cell of the grid lies in exactly one
    of them. *)
Theorem tiles_partition (s : RasterIOfull) (row col : Z) :
  0 < blocksize s → in_grid s row col →
  NoDup (tile_origins s)
  ∧ ∃ xy, xy ∈ tile_origins s ∧ in_tile s xy row col
          ∧ ∀ xy', xy' ∈ tile_origins s → in_tile s xy' row col → xy' = xy.
Proof.
  intros Hbs Hin. split.
  - unfold tile_origins. apply NoDup_bind.
    + intros x1 x2 xy _ _ H1 H2.
      apply list_elem_of_fmap in H1 as (y1 & -> & _).
      apply list_elem_of_fmap in H2 as (y2 & [= -> _] & _). reflexivity.
    + intros x _. apply NoDup_fmap_2; [|apply py_range_NoDup].
      intros y1 y2 [= ->]. reflexivity.
    + apply py_range_NoDup.
  - destruct (tile_origins_cover s row col Hbs Hin) as (x & y & Ho & Hx & Hy).
    exists (x, y). split; [exact Ho|]. split; [split; assumption|].
    intros [x' y'] Ho' [Hx' Hy']. cbn [fst snd] in *.
    apply elem_of_tile_origins in Ho as [Ex Ey].
    apply elem_of_tile_origins in Ho' as [Ex' Ey'].
    rewrite elem_of_py_range in Ex, Ey, Ex', Ey' by exact Hbs.
    destruct Ex as [_ Mx], Ey as [_ My], Ex' as [_ Mx'], Ey' as [_ My'].
    apply Z.mod_divide in Mx as [a ->], My as [b ->], Mx' as [a' ->], My' as [b' ->];
      try lia.
    assert (a' = a) by nia. assert (b' = b) by nia. subst. reflexivity.
Qed.

Lemma tiles_partition_witness :
  let s := self scenario_heap in
  NoDup (tile_origins s)
  ∧ ∃ xy, xy ∈ tile_origins s ∧ in_tile s xy 5000 9000
          ∧ ∀ xy', xy' ∈ tile_origins s → in_tile s xy' 5000 9000 → xy' = xy.
Proof.
  intros s. apply (tiles_partition s 5000 9000); [reflexivity|].
  change (0 <= 5000 < 10000 ∧ 0 <= 9000 < 10000). lia.
Defined.

(** ** The manager [RasterIOlight] *)

Lemma light_getValue_unfold (row col : Z) (h : RasterIOlight.Heap) :
  RasterIOlight.getValue row col h
  = (h, match ndarray_get (RasterIOlight.block (RasterIOlight.self h)) row col with
        | Some v => Return v
        | None => Raise IndexError
        end).
Proof.
  unfold RasterIOlight.getValue, bind, RasterIOlight.read_self.
  destruct (ndarray_get _ _ _); reflexivity.
Qed.

Lemma light_setValue_unfold (row col value : Z) (h : RasterIOlight.Heap) :
  RasterIOlight.setValue row col value h
  = match ndarray_set (RasterIOlight.block (RasterIOlight.self h)) row col value with
    | Some b =>
        (RasterIOlight.mkHeap (RasterIOlight.set_block (RasterIOlight.self h) b)
           (RasterIOlight.world h), Return tt)
    | None => (h, Raise IndexError)
    end.
Proof.
  unfold RasterIOlight.setValue, bind, RasterIOlight.read_self.
  destruct (ndarray_set _ _ _ _); reflexivity.
Qed.

Lemma py_index_wraps (i n row : Z) :
  0 <= i < n → row = i ∨ row = i - n → py_index row n = Some i.
Proof.
  intros Hi [-> | ->]; unfold py_index.
  - destruct (Z.leb_spec 0 i), (Z.ltb_spec i n); try lia. reflexivity.
  - destruct (Z.leb_spec 0 (i - n)); [lia|]. cbn [andb].
    destruct (Z.leb_spec (- n) (i - n)), (Z.ltb_spec (i - n) 0); try lia.
    cbn [andb]. f_equal. lia.
Qed.

Lemma py_index_out (n row : Z) : row < - n ∨ n <= row → py_index row n = None.
Proof.
  intros H. unfold py_index.
  destruct (Z.leb_spec 0 row), (Z.ltb_spec row n), (Z.leb_spec (- n) row),
    (Z.ltb_spec row 0); cbn [andb]; try reflexivity; lia.
Qed.



(** X19. In [RasterIOlight] a read or a write at an index beyond the array
    on either side (at or above the length of the axis, or below its
    negation) raises [IndexError] and changes nothing. *)
Theorem light_index_error (h : RasterIOlight.Heap) (row col value : Z) :
  let b := RasterIOlight.block (RasterIOlight.self h) in
  row < - fst (shape b) ∨ fst (shape b) <= row
  ∨ col < - snd (shape b) ∨ snd (shape b) <= col →
  RasterIOlight.getValue row col h = (h, Raise IndexError)
  ∧ RasterIOlight.setValue row col value h = (h, Raise IndexError).
Proof.
  intros b Hout.
  rewrite light_getValue_unfold, light_setValue_unfold. fold b.
  unfold ndarray_get, ndarray_set. fold b.
  assert (py_index row (fst (shape b)) = None ∨ py_index col (snd (shape b)) = None)
    as [Hp|Hp].
  { destruct Hout as [H|[H|[H|H]]];
      [left|left|right|right]; apply py_index_out; auto. }
  - rewrite Hp. split; reflexivity.
  - rewrite Hp. destruct (py_index row (fst (shape b))); split; reflexivity.
Qed.

Lemma light_index_error_witness :
  RasterIOlight.getValue 10 0 light_example = (light_example, Raise IndexError)
  ∧ RasterIOlight.setValue 10 0 7 light_example = (light_example, Raise IndexError).
Proof.
  apply (light_index_error light_example 10 0 7).
  right. left. change (10 <= 10). lia.
Defined.

(** X20. A [RasterIOlight] instance opened on an existing raster cannot be
    saved: its [__init__] sets no [fileout], so [save] raises
    [AttributeError], and neither the instance nor any file is changed. *)
Theorem light_cannot_save_existing (ra : Raster) (dt : Dtype) (default : Z)
    (w : World) :
  ∃ s,
    RasterIOlight.init ra None dt default = Return s
    ∧ RasterIOlight.save (RasterIOlight.mkHeap s w)
      = (RasterIOlight.mkHeap s w, Raise AttributeError).
Proof. eexists. split; reflexivity. Qed.

Lemma light_save_run (h : RasterIOlight.Heap) (f : string) :
  let s := RasterIOlight.self h in
  let w := RasterIOlight.world h in
  RasterIOlight.fileout s = Some f →
  shape (RasterIOlight.block s)
  = (height (RasterIOlight.rasterlike s), width (RasterIOlight.rasterlike s)) →
  georef_ok (RasterIOlight.rasterlike s) →
  rasters w !! f = None →
  let h' := fst (RasterIOlight.save h) in
  ∃ out,
    rasters (RasterIOlight.world h') !! f = Some out
    ∧ RasterIOlight.raster (RasterIOlight.self h') = Some out
    ∧ catalogPath out = f
    ∧ same_grid out (RasterIOlight.rasterlike s)
    ∧ noDataValue out = RasterIOlight.nodata s
    ∧ cells out = item (RasterIOlight.block s)
    ∧ (∀ g, g ≠ f → rasters (RasterIOlight.world h') !! g = rasters w !! g)
    ∧ snd (RasterIOlight.save h)
      = (if tool_error (env w) DefineProjection_management
         then Raise ExecuteError else Return tt).
Proof.
  intros s w Hf Hshape (Hcw & Hch & HX & HY) Hnone. destruct h as [s0 w0].
  cbn [RasterIOlight.self RasterIOlight.world] in s, w. subst s w. cbv zeta.
  unfold RasterIOlight.save.
  rewrite (bind_Return _ _ _ (RasterIOlight.mkHeap s0 w0) s0) by reflexivity.
  rewrite Hf. unfold NumPyArrayToRaster. rewrite Hshape.
  set (out :=
         set_path
           (mkRaster "" (width (RasterIOlight.rasterlike s0))
              (height (RasterIOlight.rasterlike s0))
              (mkExtent (XMin (extent (RasterIOlight.rasterlike s0)))
                 (YMin (extent (RasterIOlight.rasterlike s0)))
                 (XMin (extent (RasterIOlight.rasterlike s0))
                  + inject_Z (width (RasterIOlight.rasterlike s0))
                    * meanCellWidth (RasterIOlight.rasterlike s0))
                 (YMin (extent (RasterIOlight.rasterlike s0))
                  + inject_Z (height (RasterIOlight.rasterlike s0))
                    * meanCellHeight (RasterIOlight.rasterlike s0)))
              (meanCellWidth (RasterIOlight.rasterlike s0))
              (meanCellHeight (RasterIOlight.rasterlike s0))
              (RasterIOlight.nodata s0) (adtype (RasterIOlight.block s0))
              (item (RasterIOlight.block s0))) f).
  set (w1 := with_rasters w0 (<[f := out]> (rasters w0))).
  rewrite (bind_Return _ _ _ (RasterIOlight.mkHeap s0 w1) tt) by reflexivity.
  rewrite (bind_Return _ _ _ (RasterIOlight.mkHeap s0 w1) out).
  2:{ unfold RasterIOlight.in_world, arcpy_Raster. cbn [RasterIOlight.world].
      subst w1. cbn [rasters with_rasters]. rewrite lookup_insert_eq. reflexivity. }
  rewrite (bind_Return _ _ _
             (RasterIOlight.mkHeap (RasterIOlight.set_raster s0 out) w1) tt)
    by reflexivity.
  unfold RasterIOlight.in_world, run_tool.
  cbn [RasterIOlight.world RasterIOlight.self].
  assert (env w1 = env w0) as -> by reflexivity.
  exists out.
  assert (same_grid out (RasterIOlight.rasterlike s0)) as Hgrid.
  { unfold same_grid. subst out. cbn.
    split; [reflexivity|]. split; [reflexivity|]. split; [reflexivity|].
    split; [reflexivity|]. split; [symmetry; exact HX|].
    split; [symmetry; exact HY|]. split; reflexivity. }
  destruct (tool_error (env w0) DefineProjection_management);
    cbn [fst snd RasterIOlight.world RasterIOlight.self RasterIOlight.set_raster
         RasterIOlight.raster id];
    (split; [subst w1; cbn; apply lookup_insert_eq|]);
    (split; [reflexivity|]); (split; [reflexivity|]); (split; [exact Hgrid|]);
    (split; [reflexivity|]); (split; [reflexivity|]);
    (split; [|reflexivity]);
    intros g Hg; subst w1; cbn; apply lookup_insert_ne; auto.
Qed.

(** X21. For a [RasterIOlight] instance created for a new output, whose
    array has the size of the grid of a consistently georeferenced model
    raster, [save] writes the array at the output path: the file has the
    grid of the model raster, the default value as NoData value, and the
    array's value in every cell; it is the instance's raster afterwards, and
    no other file is touched.  The call returns unless the projection tool
    reports an error, which happens after the file is written. *)
Theorem light_save_writes_array (h : RasterIOlight.Heap) (f : string) :
  let s := RasterIOlight.self h in
  let w := RasterIOlight.world h in
  RasterIOlight.fileout s = Some f →
  shape (RasterIOlight.block s)
  = (height (RasterIOlight.rasterlike s), width (RasterIOlight.rasterlike s)) →
  georef_ok (RasterIOlight.rasterlike s) →
  rasters w !! f = None →
  let h' := fst (RasterIOlight.save h) in
  ∃ out,
    rasters (RasterIOlight.world h') !! f = Some out
    ∧ RasterIOlight.raster (RasterIOlight.self h') = Some out
    ∧ catalogPath out = f
    ∧ same_grid out (RasterIOlight.rasterlike s)
    ∧ noDataValue out = RasterIOlight.nodata s
    ∧ cells out = item (RasterIOlight.block s)
    ∧ (∀ g, g ≠ f → rasters (RasterIOlight.world h') !! g = rasters w !! g)
    ∧ snd (RasterIOlight.save h)
      = (if tool_error (env w) DefineProjection_management
         then Raise ExecuteError else Return tt).
Proof. exact (light_save_run h f). Qed.

Lemma light_save_writes_array_witness :
  let h' := fst (RasterIOlight.save light_example) in
  ∃ out,
    rasters (RasterIOlight.world h') !! "C:\out" = Some out
    ∧ RasterIOlight.raster (RasterIOlight.self h') = Some out
    ∧ catalogPath out = "C:\out"
    ∧ same_grid out (flat_raster "C:\dem" 10 10 0)
    ∧ noDataValue out = -255
    ∧ cells out = item (numpy_full 10 10 S32 (-255))
    ∧ (∀ g, g ≠ "C:\out" →
         rasters (RasterIOlight.world h') !! g
         = rasters (RasterIOlight.world light_example) !! g)
    ∧ snd (RasterIOlight.save light_example) = Return tt.
Proof.
  apply (light_save_writes_array light_example "C:\out");
    [reflexivity|reflexivity|apply flat_raster_georef_ok|reflexivity].
Defined.

(** ** The two managers side by side *)

Lemma find_snoc {A} (P : A → bool) (l : list A) (x : A) :
  find P (l ++ [x])
  = match find P l with
    | Some y => Some y
    | None => if P x then Some x else None
    end.
Proof.
  induction l as [|a l IH]; cbn [app find]; [reflexivity|].
  destruct (P a); [reflexivity|exact IH].
Qed.

Lemma last_write_cons (w : Z * Z * Z) (ws : list (Z * Z * Z)) (r c : Z) :
  last_write (w :: ws) r c
  = match last_write ws r c with
    | Some v => Some v
    | None => if bool_decide (fst w = (r, c)) then Some (snd w) else None
    end.
Proof.
  unfold last_write. cbn [rev]. rewrite find_snoc.
  destruct (find _ (rev ws)); [reflexivity|].
  destruct (bool_decide _); reflexivity.
Qed.

Lemma store_all_lookup (ws : list (Z * Z * Z)) (s : RasterIOfull) (r c : Z) :
  overlay_lookup
    (dict (foldl (λ s w, store s (fst (fst w)) (snd (fst w)) (snd w)) s ws)) r c
  = match last_write ws r c with
    | Some v => Some v
    | None => overlay_lookup (dict s) r c
    end.
Proof.
  revert s. induction ws as [|w ws IH]; intros s; [reflexivity|].
  cbn [foldl]. rewrite IH, last_write_cons.
  destruct (last_write ws r c); [reflexivity|].
  rewrite store_lookup. destruct w as [[r' c'] v]. cbn [fst snd].
  destruct (decide (r = r' ∧ c = c')) as [[-> ->]|Hne].
  - rewrite bool_decide_eq_true_2 by reflexivity. reflexivity.
  - rewrite bool_decide_eq_false_2; [reflexivity|]. intros Heq. apply Hne. inversion Heq. auto.
Qed.

Lemma write_all_buffered (ws : list (Z * Z * Z)) (h : Heap) :
  dictsize (self h) + Z.of_nat (length ws) <= threshold (self h) →
  write_all ws h
  = (mkHeap (foldl (λ s w, store s (fst (fst w)) (snd (fst w)) (snd w)) (self h) ws)
       (world h), Return tt).
Proof.
  revert h. induction ws as [|w ws IH]; intros h Hle.
  - destruct h. reflexivity.
  - rewrite write_all_cons.
    destruct (setValue_trigger h (fst (fst w)) (snd (fst w)) (snd w)) as (_ & Hno & _).
    assert (dictsize (store (self h) (fst (fst w)) (snd (fst w)) (snd w))
            <= dictsize (self h) + 1) as Hd
      by (rewrite store_dictsize; destruct (overlay_lookup _ _ _); lia).
    change (threshold (store (self h) (fst (fst w)) (snd (fst w)) (snd w)))
      with (threshold (self h)) in Hno.
    cbn [length] in Hle.
    destruct Hno as [Hh' Ho]; [lia|].
    destruct (setValue _ _ _ h) as [h1 o]. cbn [fst snd] in *. subst h1 o.
    rewrite IH; [reflexivity|]. cbn [self].
    change (threshold (store (self h) (fst (fst w)) (snd (fst w)) (snd w)))
      with (threshold (self h)). lia.
Qed.

Lemma store_all_ready (ws : list (Z * Z * Z)) (s : RasterIOfull) (w : World)
    (rlf : Raster) (raf : option Raster) :
  flush_ready (mkHeap s w) rlf raf →
  flush_ready
    (mkHeap (foldl (λ s w, store s (fst (fst w)) (snd (fst w)) (snd w)) s ws) w)
    rlf raf.
Proof.
  revert s. induction ws as [|x ws IH]; intros s Hs; [exact Hs|].
  cbn [foldl]. apply IH.
  exact (flush_ready_store (mkHeap s w) rlf raf _ _ _ Hs).
Qed.

Lemma store_all_fields (ws : list (Z * Z * Z)) (s : RasterIOfull) :
  let s' := foldl (λ s w, store s (fst (fst w)) (snd (fst w)) (snd w)) s ws in
  rasterlike s' = rasterlike s ∧ raster s' = raster s ∧ nodata s' = nodata s
  ∧ fileout s' = fileout s.
Proof.
  revert s. induction ws as [|x ws IH]; intros s; [repeat split|].
  cbn [foldl]. destruct (IH (store s (fst (fst x)) (snd (fst x)) (snd x)))
    as (-> & -> & -> & ->). repeat split.
Qed.

Lemma light_write_all_run (ws : list (Z * Z * Z)) (s : RasterIOlight.t) (w : World) :
  Forall (λ x, 0 <= fst (fst x) < fst (shape (RasterIOlight.block s))
               ∧ 0 <= snd (fst x) < snd (shape (RasterIOlight.block s))) ws →
  ∃ b',
    RasterIOlight.write_all ws (RasterIOlight.mkHeap s w)
    = (RasterIOlight.mkHeap (RasterIOlight.set_block s b') w, Return tt)
    ∧ shape b' = shape (RasterIOlight.block s)
    ∧ ∀ r c, item b' r c
             = default (item (RasterIOlight.block s) r c) (last_write ws r c).
Proof.
  revert s. induction ws as [|x ws IH]; intros s Hin.
  - exists (RasterIOlight.block s). destruct s. repeat split.
  - apply Forall_cons in Hin as [[Hr Hc] Hin].
    unfold RasterIOlight.write_all. cbn [for_each].
    fold (RasterIOlight.write_all ws).
    unfold bind at 1. rewrite light_setValue_unfold.
    cbn [RasterIOlight.self RasterIOlight.world].
    unfold ndarray_set.
    rewrite (py_index_in_range _ _ Hr), (py_index_in_range _ _ Hc).
    match goal with |- context [RasterIOlight.set_block s ?b] => set (b1 := b) end.
    destruct (IH (RasterIOlight.set_block s b1)) as (b' & Hrun & Hshape & Hitem);
      [exact Hin|].
    exists b'. split; [rewrite Hrun; reflexivity|]. split; [exact Hshape|].
    intros r c. rewrite Hitem, last_write_cons.
    destruct (last_write ws r c); [reflexivity|].
    cbn [RasterIOlight.block RasterIOlight.set_block default item b1].
    destruct x as [[r' c'] v]. cbn [fst snd].
    destruct (Z.eqb_spec r r') as [->|Hr'], (Z.eqb_spec c c') as [->|Hc']; cbn [andb].
    + rewrite bool_decide_eq_true_2 by reflexivity. reflexivity.
    + rewrite bool_decide_eq_false_2; [reflexivity|]. intros Heq. inversion Heq. congruence.
    + rewrite bool_decide_eq_false_2; [reflexivity|]. intros Heq. inversion Heq. congruence.
    + rewrite bool_decide_eq_false_2; [reflexivity|]. intros Heq. inversion Heq. congruence.
Qed.

Lemma light_init_output (ra : Raster) (f : string) (dt : Dtype) (dflt : Z)
    (sL : RasterIOlight.t) :
  RasterIOlight.init ra (Some f) dt dflt = Return sL →
  sL = RasterIOlight.mk ra None dflt (Some f) (Some dt)
         (numpy_full (height ra) (width ra) (numpy_dtype dt) dflt).
Proof.
  unfold RasterIOlight.init. destruct (_ || _); [discriminate|].
  intros [= <-]. reflexivity.
Qed.



Lemma same_grid_common (a b c : Raster) : same_grid a c → same_grid b c → same_grid a b.
Proof.
  intros (A1 & A2 & A3 & A4 & A5 & A6 & A7 & A8) (B1 & B2 & B3 & B4 & B5 & B6 & B7 & B8).
  unfold same_grid.
  split; [congruence|]. split; [congruence|].
  split; [rewrite A3, B3; reflexivity|]. split; [rewrite A4, B4; reflexivity|].
  split; [rewrite A5, B5; reflexivity|]. split; [rewrite A6, B6; reflexivity|].
  split; [rewrite A7, B7; reflexivity|rewrite A8, B8; reflexivity].
Qed.


Lemma small_ready : flush_ready (mkHeap small_output small_world)
                      (flat_raster "C:\dem" 10 10 0) None.
Proof.
  unfold flush_ready. cbn [world self small_world world_with env].
  split; [reflexivity|]. split; [reflexivity|]. split; [reflexivity|].
  split; [split; reflexivity|].
  split; [intros n m; apply pretty_temp_inj|].
  split; [apply quiet_env_never_temporary; intros rest; discriminate|].
  split; [apply quiet_env_never_temporary; intros rest; discriminate|].
  split; [intros ra Hra; discriminate Hra|].
  split; [reflexivity|].
  split; [apply flat_raster_georef_ok|].
  split; [reflexivity|]. split; [reflexivity|].
  split; [exact Logic.I|].
  split; [intros ra Hra; discriminate Hra|].
  intros _. left. reflexivity.
Qed.


(** ** Reads and writes on an existing raster *)

Lemma last_write_snoc (ws : list (Z * Z * Z)) (w : Z * Z * Z) (r c : Z) :
  last_write (ws ++ [w]) r c
  = if bool_decide (fst w = (r, c)) then Some (snd w) else last_write ws r c.
Proof.
  unfold last_write. rewrite rev_unit. cbn [find].
  destruct (bool_decide _); reflexivity.
Qed.

Lemma getValue_keeps_fresh (h : Heap) (row col : Z) :
  window_fresh (self h) → window_fresh (self (fst (getValue row col h))).
Proof.
  intros Hf. destruct h as [s w]. cbn [self] in *. rewrite getValue_unfold.
  destruct (_ || _); [exact Hf|].
  destruct (overlay_lookup (dict s) row col); [exact Hf|].
  destruct (raster s) as [ra|] eqn:Hra; [|exact Hf].
  cbv zeta. cbn [fst self].
  destruct (outside_block s row col); [|exact Hf].
  apply load_block_fresh. exact Hra.
Qed.

Lemma perform_getValue_fst (row col : Z) (h : Heap) :
  fst (perform (call_getValue row col) h) = fst (getValue row col h).
Proof.
  cbn [perform]. unfold bind. destruct (getValue row col h) as [h' [v|e]]; reflexivity.
Qed.

Lemma writes_of_snoc (calls : list call) (c : call) :
  writes_of (calls ++ [c])
  = writes_of calls
    ++ match c with
       | call_setValue row col value => [(row, col, value)]
       | _ => []
       end.
Proof.
  unfold writes_of. rewrite omap_app. f_equal. destruct c; reflexivity.
Qed.

(** What a run of reads and writes that does not flush leaves behind. *)
Lemma run_buffered (bs : Z) (ra : Raster) (dt : Dtype) (dflt : Z) (w : World)
    (calls : list call) :
  Forall (λ c, c ≠ call_save) calls →
  Z.of_nat (length (writes_of calls)) <= bs * bs / 2 →
  let h := run calls (mkHeap (init bs ra None dt dflt) w) in
  world h = w ∧ raster (self h) = Some ra ∧ rasterlike (self h) = ra
  ∧ nodata (self h) = noDataValue ra ∧ blocksize (self h) = bs
  ∧ window_fresh (self h)
  ∧ (∀ r c, overlay_lookup (dict (self h)) r c = last_write (writes_of calls) r c)
  ∧ dictsize (self h) <= Z.of_nat (length (writes_of calls)).
Proof.
  induction calls as [|c calls IH] using rev_ind; intros Hns Hlen.
  - cbv zeta. cbn [run foldl self world init].
    do 5 (split; [reflexivity|]). split; [exact Logic.I|].
    split; [intros r c; reflexivity|]. cbn. lia.
  - apply Forall_app in Hns as [Hns Hc]. apply Forall_cons in Hc as [Hc _].
    rewrite writes_of_snoc, length_app in Hlen.
    specialize (IH Hns ltac:(lia)). cbv zeta in IH |- *.
    unfold run in *. rewrite foldl_app. cbn [foldl].
    set (h := foldl (λ h c, fst (perform c h)) (mkHeap (init bs ra None dt dflt) w) calls)
      in *.
    destruct IH as (Iw & Ira & Irl & Ind & Ibs & Ifr & Ilk & Isz).
    rewrite writes_of_snoc.
    destruct c as [row col|row col value|]; [| |contradiction].
    + rewrite perform_getValue_fst, app_nil_r.
      destruct (getValue_frame h row col)
        as (Ew & Ed & En & Er & Erl & End & _ & _ & Eb).
      rewrite Ew, Ed, En, Er, Erl, End, Eb.
      repeat split; auto. apply getValue_keeps_fresh. exact Ifr.
    + cbn [perform].
      destruct (setValue_trigger h row col value) as (_ & Hno & _).
      assert (dictsize (store (self h) row col value) <= dictsize (self h) + 1) as Hd
        by (rewrite store_dictsize; destruct (overlay_lookup _ _ _); lia).
      cbn [length] in Hlen.
      destruct Hno as [-> _].
      { unfold threshold. cbn [store set_dict blocksize]. rewrite Ibs. lia. }
      cbn [self world]. rewrite length_app. cbn [length].
      split; [exact Iw|]. split; [exact Ira|]. split; [exact Irl|].
      split; [exact Ind|]. split; [exact Ibs|]. split; [exact Ifr|].
      split; [|lia].
      intros r c. rewrite store_lookup, last_write_snoc, Ilk. cbn [fst snd].
      destruct (decide (r = row ∧ c = col)) as [[-> ->]|Hne].
      * rewrite bool_decide_eq_true_2 by reflexivity. reflexivity.
      * rewrite bool_decide_eq_false_2; [reflexivity|].
        intros Heq. apply Hne. inversion Heq. auto.
Qed.

(** X24. Reads see the latest write, and the raster otherwise.  On an
    instance opened on an existing, consistently georeferenced raster,
    after any run of reads and writes, anywhere, in which the writes are few
    enough not to trigger a flush, a read of a cell of the grid returns the
    value last written to the cell or, if it was not written, the value of
    the cell in the raster, whatever windows the reads of the run have
    loaded. *)
Theorem reads_see_latest_write (bs : Z) (ra : Raster) (dt : Dtype) (dflt : Z)
    (w : World) (calls : list call) (r c : Z) :
  georef_ok ra → 0 < bs →
  Forall (λ c, c ≠ call_save) calls →
  Z.of_nat (length (writes_of calls)) <= bs * bs / 2 →
  0 <= r < height ra → 0 <= c < width ra →
  snd (getValue r c (run calls (mkHeap (init bs ra None dt dflt) w)))
  = Return (default (cells ra r c) (last_write (writes_of calls) r c)).
Proof.
  intros Hok Hbs Hns Hlen Hr Hc.
  destruct (run_buffered bs ra dt dflt w calls Hns Hlen)
    as (Iw & Ira & Irl & Ind & Ibs & Ifr & Ilk & _).
  destruct (run calls _) as [s w'] eqn:Hrun. cbn [self world] in *.
  assert (in_grid s r c) as Hin by (unfold in_grid; rewrite Irl; auto).
  destruct (last_write (writes_of calls) r c) as [v|] eqn:Hlw.
  - rewrite (getValue_from_overlay (mkHeap s w') r c v Hin); [reflexivity|].
    cbn [self]. rewrite Ilk. exact Hlw.
  - destruct (getValue_through_window s w' ra r c) as (-> & _); auto.
    + rewrite Irl. reflexivity.
    + rewrite Irl. reflexivity.
    + lia.
    + rewrite Ilk. exact Hlw.
    + cbn [snd default]. f_equal. apply base_value_own; [auto|].
      apply (in_grid_inside s); [rewrite Irl; reflexivity..|exact Hin].
Qed.

Lemma reads_see_latest_write_witness :
  let ra := flat_raster "C:\dem" 10 10 3 in
  let calls := [call_getValue 0 0; call_setValue 2 5 7; call_getValue 20 20;
                call_setValue 2 5 8] in
  snd (getValue 2 5 (run calls (mkHeap (init default_blocksize ra None py_int 0)
                                  (world_with quiet_env [ra]))))
  = Return (default (cells ra 2 5) (last_write (writes_of calls) 2 5)).
Proof.
  intros ra calls.
  apply (reads_see_latest_write default_blocksize ra py_int 0
           (world_with quiet_env [ra]) calls 2 5);
    [apply flat_raster_georef_ok|reflexivity
    |repeat (apply Forall_cons; split; [discriminate|]); apply Forall_nil_2
    |vm_compute; discriminate
    |change (0 <= 2 < 10); lia|change (0 <= 5 < 10); lia].
Defined.

(** ** The data type after a flush *)

Lemma worker_tile_pixelType (rlf : Raster) (raf : option Raster)
    (d : gmap Z (gmap Z Z)) (s : RasterIOfull) (p : string) (e : Env) (n : nat)
    (xy : Z * Z) :
  pixelType (worker_tile rlf raf d (tile_args s p e n xy)) = tile_pixelType s raf.
Proof.
  unfold worker_tile.
  match goal with |- context [merge_overlay d ?x ?y ?lx ?ly ?a] =>
    pose proof (merge_overlay_spec d x y lx ly a (base_array_shape rlf raf _))
      as (_ & _ & Hty & _);
    destruct (fst (merge_overlay d x y lx ly a)) as [[nr nc] ty it]
  end.
  cbn in Hty |- *. subst ty.
  unfold base_array, tile_pixelType. destruct raf; reflexivity.
Qed.

Lemma output_of_pixelType (first : Raster) (others : list Raster) :
  pixelType (output_of first others) = pixelType first.
Proof. destruct others; reflexivity. Qed.


